(** * Idealista scraper: fetch orchestration, verified against its specification

    A shallow embedding of the Python package [idealista_scraper]
    (modules [config], [approaches], [export], [fetcher], [parsers] and
    [orchestrator]) together with the properties its specification states.

    Conventions of the embedding.
    - A Python [str] is a Rocq [string]; a character is a code point below
      256, so the model covers the Latin-1 range of Python strings.  On that
      range [str.lower], [str.strip], [in] and the regular expression class
      [\d] are the functions of module [Py] below.  Outside that range
      [str.lower] may change the length of a string; no statement below
      relies on lowering keeping it.
    - A Python [int] is a [Z]; [set[str]] is a [gset string]; the
      dictionaries the orchestrator emits have a fixed set of keys and are
      records.  The one float of the code, the quotient [total_count / 30],
      is computed as CPython does: the nearest double, ties to even, and
      OverflowError beyond the range of doubles.
    - Code with effects (browser navigation, sleeping, callbacks, mutable
      closures) runs in the state-and-exception monad [M] of module [Eff].
      The state is a navigation counter and a trace of events; the browser
      is an oracle indexed by the URL and by the counter, so that the same
      URL may answer differently each time.
    - Outside the model: the randomized pauses, the scrolling and the
      cookie banner of the fetch client (they do not change what a fetch
      returns); the HTML extraction built on [parsel], taken as a pair of
      oracles that tell, for every markup, what the extraction returns or
      which exception it raises; exceptions that are not [Exception]s
      (cancellation, keyboard interrupt); backoff durations are integers. *)

From Stdlib Require Import ZArith Lia Bool List Ascii String.
From Stdlib Require Import DecimalString Sorted.
From stdpp Require Import gmap strings list.

Local Open Scope string_scope.
Local Open Scope Z_scope.

(* String concatenation is computed by [simpl] throughout this file. *)
#[local] Arguments String.append !s1 s2 : simpl nomatch.

(* ===================================================================== *)
(** * Python string primitives on code points below 256 *)
(* ===================================================================== *)

Module Py.

Definition code (c : ascii) : N := N_of_ascii c.

(** [str.isspace] for one character: TAB..CR, FS..US, SPACE, NEL, NBSP. *)
Definition isspace (c : ascii) : bool :=
  let n := code c in
  ((9 <=? n) && (n <=? 13) || (28 <=? n) && (n <=? 32)
   || (n =? 133) || (n =? 160))%N.

(** The class [\d] of the [re] module (decimal digits). *)
Definition isdigit (c : ascii) : bool :=
  let n := code c in ((48 <=? n) && (n <=? 57))%N.

(** [str.lower] for one character: A-Z and the Latin-1 capitals. *)
Definition lower_char (c : ascii) : ascii :=
  let n := code c in
  if ((65 <=? n) && (n <=? 90)
      || (192 <=? n) && (n <=? 222) && negb (n =? 215))%N
  then ascii_of_N (n + 32) else c.

Fixpoint lower (s : string) : string :=
  match s with
  | EmptyString => EmptyString
  | String c s' => String (lower_char c) (lower s')
  end.

(** [len(s)] *)
Definition len (s : string) : Z := Z.of_nat (String.length s).

(** [needle in s] *)
Fixpoint contains (needle s : string) : bool :=
  String.prefix needle s ||
  match s with
  | EmptyString => false
  | String _ s' => contains needle s'
  end.

Fixpoint lstrip (s : string) : string :=
  match s with
  | EmptyString => EmptyString
  | String c s' => if isspace c then lstrip s' else s
  end.

Fixpoint rstrip (s : string) : string :=
  match s with
  | EmptyString => EmptyString
  | String c s' =>
      match rstrip s' with
      | EmptyString => if isspace c then EmptyString else String c EmptyString
      | r => String c r
      end
  end.

(** [s.strip()] *)
Definition strip (s : string) : string := rstrip (lstrip s).

(** [s.rstrip("/")] *)
Fixpoint rstrip_slash (s : string) : string :=
  match s with
  | EmptyString => EmptyString
  | String c s' =>
      match rstrip_slash s' with
      | EmptyString => if Ascii.eqb c "/" then EmptyString else String c EmptyString
      | r => String c r
      end
  end.

(** Longest prefix of decimal digits: what a greedy [\d+] consumes. *)
Fixpoint take_digits (s : string) : string :=
  match s with
  | EmptyString => EmptyString
  | String c s' => if isdigit c then String c (take_digits s') else EmptyString
  end.

(** [s] consists of decimal digits only. *)
Fixpoint all_digits (s : string) : bool :=
  match s with
  | EmptyString => true
  | String c s' => isdigit c && all_digits s'
  end.

Fixpoint drop (n : nat) (s : string) : string :=
  match n, s with
  | O, _ => s
  | S n', String _ s' => drop n' s'
  | S _, EmptyString => EmptyString
  end.

(** Python truthiness of a string. *)
Definition truthy (s : string) : bool := negb (String.eqb s "").

(** [str(n)] / the f-string rendering of an integer. *)
Definition str_of_int (n : Z) : string := NilZero.string_of_int (Z.to_int n).

(** The characters of the class [[\r\n]]. *)
Definition is_newline (c : ascii) : bool :=
  let n := code c in ((n =? 10) || (n =? 13))%N.

(** [re.sub(r"[^\d]", "", s)]: the digits of [s], in order. *)
Fixpoint only_digits (s : string) : string :=
  match s with
  | EmptyString => EmptyString
  | String c s' => if isdigit c then String c (only_digits s') else only_digits s'
  end.

(** The value of a string of decimal digits, read left to right. *)
Fixpoint digits_value (acc : Z) (s : string) : Z :=
  match s with
  | EmptyString => acc
  | String c s' => digits_value (10 * acc + (Z.of_N (code c) - 48)) s'
  end.

(** [s.split(sep, 1)[-1]] when [sep in s]: what follows the first
    occurrence of [sep]; [None] when [sep] does not occur. *)
Fixpoint after_first (sep s : string) : option string :=
  if String.prefix sep s then Some (drop (String.length sep) s)
  else
    match s with
    | EmptyString => None
    | String _ s' => after_first sep s'
    end.

End Py.

(* ===================================================================== *)
(** * config.py *)
(* ===================================================================== *)

Module Config.

Definition IDEALISTA_DOMAIN : string := "https://www.idealista.com".

(** Last real pagination page; pagina-61.htm and above redirect to page 1. *)
Definition IDEALISTA_MAX_PAGE : Z := 60.

(** [_bool_env(name, default)], given the text of the variable (the
    empty string when it is unset). *)
Definition _bool_env (value : string) (default : bool) : bool :=
  let v := Py.lower (Py.strip value) in
  if String.eqb v "1" || String.eqb v "true" || String.eqb v "yes" then true
  else if String.eqb v "0" || String.eqb v "false" || String.eqb v "no" then false
  else default.

End Config.

(* ===================================================================== *)
(** * export.py: canonical listing links *)
(* ===================================================================== *)

Module Export_.

Definition CANONICAL_LISTING_URL : string := "https://www.idealista.com/inmueble/".

(** [re.match] of [/inmueble/(\d+)/?] anchored at the head of [s]: group 1.
    The digit run is greedy and the trailing slash optional, so the match
    succeeds exactly when at least one digit follows the literal. *)
Definition match_inmueble_at (s : string) : option string :=
  if String.prefix "/inmueble/" s then
    match Py.take_digits (Py.drop 10 s) with
    | EmptyString => None
    | ds => Some ds
    end
  else None.

(** [re.search(r"/inmueble/(\d+)/?", url)]: group 1 of the leftmost match. *)
Fixpoint search_inmueble (s : string) : option string :=
  match match_inmueble_at s with
  | Some ds => Some ds
  | None =>
      match s with
      | EmptyString => None
      | String _ s' => search_inmueble s'
      end
  end.

(** The guard of [normalize_listing_link]:
    [not url or "idealista" not in url.lower() or "/inmueble/" not in url]. *)
Definition not_a_listing (url : string) : bool :=
  negb (Py.truthy url)
  || negb (Py.contains "idealista" (Py.lower url))
  || negb (Py.contains "/inmueble/" url).

Definition normalize_listing_link (url : string) : string :=
  if not_a_listing url
  then Py.strip url
  else
    match search_inmueble url with
    | Some id => CANONICAL_LISTING_URL ++ id ++ "/"
    | None => Py.strip url
    end.

(** [re.sub(r"[\r\n]+", " ", s)]: every maximal run of newline characters
    becomes one space; [in_run] tells that the previous character
    belonged to such a run. *)
Fixpoint sub_newlines (in_run : bool) (s : string) : string :=
  match s with
  | EmptyString => EmptyString
  | String c s' =>
      if Py.is_newline c then
        if in_run then sub_newlines true s' else String " " (sub_newlines true s')
      else String c (sub_newlines false s')
  end.

(** [_safe_str(v)] for [v] a string or [None]. *)
Definition _safe_str (v : option string) : string :=
  match v with
  | None => ""
  | Some s => sub_newlines false (Py.strip s)
  end.

(** What [csv.DictReader] yields for a row: a dictionary from the column
    names of the header to the cells, where the cell of a column the row
    is too short for is Python's [None]. *)
Definition csv_row := gmap string (option string).

(** [row.get("link", "")]: the cell, a string or [None]; the empty string
    when the header has no such column. *)
Definition row_get_link (row : csv_row) : option string :=
  default (Some "") (row !! "link").

(** The [for row in reader] loop of [get_existing_links_from_csv].  The
    result is [None] when [.strip()] is called on a [None] cell, which
    raises AttributeError. *)
Fixpoint read_links (rows : list csv_row) (links : gset string) : option (gset string) :=
  match rows with
  | [] => Some links
  | row :: rest =>
      match row_get_link row with
      | None => None
      | Some cell =>
          let link := Py.strip cell in
          read_links rest
            (if Py.truthy link then {[normalize_listing_link link]} ∪ links else links)
      end
  end.

(** [get_existing_links_from_csv(path)], given what [csv.DictReader]
    yields for the file: [None] when the path does not exist, otherwise
    the rows.  [None] as a result stands for the AttributeError. *)
Definition get_existing_links_from_csv (file : option (list csv_row))
  : option (gset string) :=
  match file with
  | None => Some ∅
  | Some rows => read_links rows ∅
  end.

End Export_.


(* ===================================================================== *)
(** * parsers.py: the data model and the listing-page heuristic *)
(* ===================================================================== *)

Module Parsers.

(** One card of a results page. *)
Record ListingCard := {
  listing_type : string;
  title : string;
  link : string;
  price : option Z;
  currency : string;
  rooms : option Z;
  sq_meters : option Z;
  location : string;
  description : string;
  tags : list string;
  seller : option string;
  seller_url : option string
}.

(** Full listing from a detail page. *)
Record DetailListing := {
  d_url : string;
  d_title : string;
  d_location : string;
  d_price : option Z;
  d_currency : string;
  d_description : string;
  d_updated : string;
  d_features : gmap string (list string);
  d_images : list string
}.

(** The exceptions that leave the extraction functions: the [ValueError]
    of an [int(...)] on more than 4300 digits, and the [AttributeError] of
    a method call on a value of another type than expected. *)
Inductive parse_error :=
| ValueError
| AttributeError.

(** The extraction functions are built on the [parsel] HTML selector
    library; they are pure, and enter the development as the fields of
    this interface: what [parse_search_page(html, base_url)] and
    [parse_detail_page(html, url)] return, or the exception they raise. *)
Record Extraction := {
  search_page_outcome : string -> string -> parse_error + (Z * list ListingCard);
  detail_page_outcome : string -> string -> parse_error + DetailListing
}.

(** The total and the cards of a results page; [(0, [])] stands for a
    call that raised, which is what the [try] of
    [looks_like_listing_page] makes of it.  The orchestrator, which has
    no such [try], goes through [search_page_outcome]. *)
Definition parse_search_page (X : Extraction) (html base_url : string)
  : Z * list ListingCard :=
  match search_page_outcome X html base_url with
  | inr r => r
  | inl _ => (0, [])
  end.

Definition looks_like_listing_page (X : Extraction) (html : string) : bool :=
  let '(total_count, cards) := parse_search_page X html "https://www.idealista.com" in
  if (total_count >? 0) || (Z.of_nat (length cards) >? 0) then true
  else if Py.contains "/inmueble/" html && Py.contains "idealista.com" html then true
  else if (Py.len html >? 5000)
          && Py.contains "idealista" (Py.lower html)
          && (Py.contains "items-list" html || Py.contains "item-info-container" html)
       then true
  else false.

(** The outcome of [int(digits)] on a string of digits: CPython refuses
    strings of more than 4300 digits with a [ValueError]. *)
Inductive int_result :=
| IntValue (n : Z)
| IntTooLong.

Definition INT_MAX_STR_DIGITS : nat := 4300.

Definition int_of_digits (digits : string) : int_result :=
  if (INT_MAX_STR_DIGITS <? String.length digits)%nat then IntTooLong
  else IntValue (Py.digits_value 0 digits).

(** [_normalize_price(price_text)]; [inl] is the [ValueError] of [int]. *)
Definition _normalize_price (price_text : option string) : unit + option Z :=
  match price_text with
  | None => inr None
  | Some text =>
      if negb (Py.truthy text) then inr None
      else
        let digits := Py.only_digits (Py.strip text) in
        if Py.truthy digits then
          match int_of_digits digits with
          | IntValue n => inr (Some n)
          | IntTooLong => inl tt
          end
        else inr None
  end.

(** Group 1 of [re.search(r"(\d+)\s*UNIT", s, re.I)]: the digit run at
    the first position where a digit run, optional whitespace and the
    unit follow one another.  Only the longest run is tried at a
    position: a [\d+] that gives back digits, or a [\s*] that gives back
    whitespace, leaves a digit or a whitespace character in front of the
    unit, and no unit starts with one. *)
Fixpoint search_number (unit_ok : string -> bool) (s : string) : option string :=
  match s with
  | EmptyString => None
  | String c s' =>
      if Py.isdigit c then
        let digits := Py.take_digits s in
        if unit_ok (Py.lstrip (Py.drop (String.length digits) s)) then Some digits
        else search_number unit_ok s'
      else search_number unit_ok s'
  end.

(** [(?:hab\.?|habitacion(?:es)?|dormitorio(?:s)?|bed(?:s)?|room(?:s)?)],
    matched without regard to case, at the start of [rest]. *)
Definition rooms_unit (rest : string) : bool :=
  existsb (fun w => String.prefix w (Py.lower rest))
          ["hab"; "habitacion"; "dormitorio"; "bed"; "room"].

(** The [m] of [m²?], matched without regard to case. *)
Definition sq_meters_unit (rest : string) : bool :=
  String.prefix "m" (Py.lower rest).

(** [int(m.group(1)) if m else None] *)
Definition int_of_match (m : option string) : unit + option Z :=
  match m with
  | None => inr None
  | Some digits =>
      match int_of_digits digits with
      | IntValue n => inr (Some n)
      | IntTooLong => inl tt
      end
  end.

Definition _parse_rooms (s : string) : unit + option Z :=
  if negb (Py.truthy s) then inr None
  else int_of_match (search_number rooms_unit (Py.strip s)).

Definition _parse_sq_meters (s : string) : unit + option Z :=
  if negb (Py.truthy s) then inr None
  else int_of_match (search_number sq_meters_unit (Py.strip s)).

(** The loop of [_extract_details_rooms_m2], with the values found so
    far; a [ValueError] of a parser leaves the loop. *)
Fixpoint extract_from (detail_texts : list string) (rooms sq_m : option Z)
  : unit + (option Z * option Z) :=
  match detail_texts with
  | [] => inr (rooms, sq_m)
  | s :: rest =>
      if negb (Py.truthy s) then extract_from rest rooms sq_m
      else
        match (match rooms with None => _parse_rooms s | Some _ => inr rooms end) with
        | inl e => inl e
        | inr rooms =>
            match (match sq_m with None => _parse_sq_meters s | Some _ => inr sq_m end) with
            | inl e => inl e
            | inr sq_m => extract_from rest rooms sq_m
            end
        end
  end.

Definition _extract_details_rooms_m2 (detail_texts : list string)
  : unit + (option Z * option Z) :=
  extract_from detail_texts None None.

Definition _location_from_title (title : string) : string :=
  if negb (Py.truthy title) || negb (Py.truthy (Py.strip title)) then ""
  else
    let t := Py.strip title in
    let by_dash :=
      match Py.after_first " - " t with
      | Some rest => Py.strip rest
      | None => ""
      end in
    match Py.after_first " en " t with
    | Some rest =>
        let after_en := Py.strip rest in
        if Py.truthy after_en then after_en else by_dash
    | None => by_dash
    end.

End Parsers.

(* ===================================================================== *)
(** * approaches.py *)
(* ===================================================================== *)

Module Approaches.

(** The part of [config] read by the approach selector and the run. *)
Record Settings := {
  SCRAPER_APPROACH : option string;
  USE_SELENIUM : bool;
  CHROME_CDP_URL : option string;
  PAGE_DELAY_SEC : Z;
  PAUSE_FOR_CAPTCHA : bool;
  MAX_PAGES : Z
}.

Definition APPROACHES : list string :=
  ["undetected"; "selenium"; "playwright"; "playwright_cdp"].

Definition member (a : string) (l : list string) : bool :=
  existsb (String.eqb a) l.

Definition opt_truthy (o : option string) : bool :=
  match o with Some u => Py.truthy u | None => false end.

(** The tail of the precedence chain: legacy flag, then the attach
    endpoint, then plain Playwright. *)
Definition configured_default (cfg : Settings) : string :=
  if USE_SELENIUM cfg then "selenium"
  else if opt_truthy (CHROME_CDP_URL cfg) then "playwright_cdp"
  else "playwright".

Definition from_settings (cfg : Settings) : string :=
  match SCRAPER_APPROACH cfg with
  | Some a => if Py.truthy a && member a APPROACHES then a else configured_default cfg
  | None => configured_default cfg
  end.

Definition resolve_approach (cfg : Settings) (override : option string) : string :=
  match override with
  | Some o =>
      if Py.truthy o && member (Py.lower o) APPROACHES then Py.lower o
      else from_settings cfg
  | None => from_settings cfg
  end.

Definition is_selenium_like (approach : string) : bool :=
  member approach ["selenium"; "undetected"].

Definition is_playwright_like (approach : string) : bool :=
  member approach ["playwright"; "playwright_cdp"].

End Approaches.

(* ===================================================================== *)
(** * Effects: navigation, sleeping, callbacks, exceptions *)
(* ===================================================================== *)

Module Eff.
Import Parsers.

(** A finalized record: the card's dictionary (with its overrides) and,
    when a detail page was parsed, the detail dictionary under ["detail"]. *)
Record record := {
  r_card : ListingCard;
  r_detail : option DetailListing
}.

(** The Python exceptions the modelled code can raise. *)
Inductive exn :=
| FetchError                    (* an [Exception] raised inside [fetch_html] *)
| IndexError                    (* tuple index out of range *)
| FirstPageError (status : Z)   (* [RuntimeError("First page failed ...")] *)
| CallbackError                 (* [on_record] raised *)
| ParserError (e : parse_error) (* an extraction function raised *)
| OverflowError.                (* [total_count / 30] too large for a float *)

(** What a navigation was made for (bookkeeping only). *)
Inductive target :=
| SearchPage (n : Z)
| DetailPage.

(** How the iteration of the pagination loop for one page ended; these
    are the outcomes the orchestrator writes to its log. *)
Inductive verdict :=
| PageFailed       (* non-200, skipped *)
| PageBlocked      (* blocked after the single retry *)
| PageEmpty        (* 200, zero cards, not blocked *)
| PageDuplicate    (* first card equals page 1's first card *)
| PageDone.        (* cards processed *)

Inductive event :=
| EvFetch (t : target) (url : string)   (* one call of [fetch_html] *)
| EvSleep (sec : Z)                     (* [asyncio.sleep(sec)] of the retry and page loops *)
| EvRestart                             (* [on_restart_browser()] *)
| EvRecord (r : record)                 (* [on_record(r)] *)
| EvPage (n : Z) (v : verdict).         (* page [n] of the loop ended with [v] *)

(** What the browser does at one navigation: it raises, or it produces a
    response (whose HTTP status the backend may or may not be able to read)
    and the rendered markup. *)
Inductive nav :=
| NavRaises
| NavOk (resp_status : option Z) (content : string).

(** Everything outside the orchestration core. [browser url k] is the
    outcome of the [k]-th navigation of the run when it targets [url];
    [py_int] is Python's [int(str)] ([None] for [ValueError]);
    [on_record] is the caller's callback, [false] meaning that it raised. *)
Record World := {
  extraction : Extraction;
  settings : Approaches.Settings;
  browser : string -> nat -> nav;
  py_int : string -> option Z;
  on_record : option (record -> bool)
}.

Record io := { calls : nat; trace : list event }.

Definition io0 : io := {| calls := 0; trace := [] |}.

Definition M (A : Type) : Type := io -> io * (exn + A).

Definition ret {A} (a : A) : M A := fun s => (s, inr a).

Definition bind {A B} (m : M A) (k : A -> M B) : M B :=
  fun s =>
    match m s with
    | (s', inl e) => (s', inl e)
    | (s', inr a) => k a s'
    end.

Definition throw {A} (e : exn) : M A := fun s => (s, inl e).

(** [try: m except Exception: ...] with the exception reified. *)
Definition try {A} (m : M A) : M (exn + A) :=
  fun s => let '(s', r) := m s in (s', inr r).

Definition log (e : event) : M unit :=
  fun s => ({| calls := calls s; trace := (trace s ++ [e])%list |}, inr tt).

Definition sleep (sec : Z) : M unit := log (EvSleep sec).

Definition navigate (W : World) (t : target) (url : string) : M nav :=
  fun s =>
    ({| calls := S (calls s); trace := (trace s ++ [EvFetch t url])%list |},
     inr (browser W url (calls s))).

Declare Scope eff_scope.
Delimit Scope eff_scope with eff.
Notation "x <- m ;; k" := (bind m (fun x => k))
  (at level 20, m at level 99, k at level 200, only parsing) : eff_scope.
Notation "' pat <- m ;; k" := (bind m (fun x => match x with pat => k end))
  (at level 20, pat pattern, m at level 99, k at level 200, only parsing) : eff_scope.
Notation "m ;; k" := (bind m (fun _ => k))
  (at level 100, k at level 200, right associativity, only parsing) : eff_scope.

End Eff.

(* ===================================================================== *)
(** * fetcher.py *)
(* ===================================================================== *)

Module Fetcher.
Import Eff.
Local Open Scope eff_scope.

(** The keyword arguments the orchestrator threads to every fetch. *)
Record fetch_kwargs := {
  kw_page : bool;                 (* a Playwright page is supplied *)
  kw_driver : bool;               (* a Selenium driver is supplied *)
  kw_approach : option string;
  kw_driver_lock : bool;
  kw_pause_for_captcha : bool;
  kw_delay_before : option Z
}.

Definition with_pause (kw : fetch_kwargs) (b : bool) : fetch_kwargs :=
  {| kw_page := kw_page kw; kw_driver := kw_driver kw;
     kw_approach := kw_approach kw; kw_driver_lock := kw_driver_lock kw;
     kw_pause_for_captcha := b; kw_delay_before := kw_delay_before kw |}.

Definition with_delay (kw : fetch_kwargs) (d : Z) : fetch_kwargs :=
  {| kw_page := kw_page kw; kw_driver := kw_driver kw;
     kw_approach := kw_approach kw; kw_driver_lock := kw_driver_lock kw;
     kw_pause_for_captcha := kw_pause_for_captcha kw; kw_delay_before := Some d |}.

Section WithWorld.
Variable W : World.

(** Selenium backend.  [driver.get] gives no access to the HTTP response:
    whatever the navigation produced, the function returns
    [(driver.page_source or "", 200)].  The randomized pauses and the
    scrolling leave the result untouched and are not traced. *)
Definition _fetch_html_selenium_sync (t : target) (url : string) : M (string * Z) :=
  o <- navigate W t url ;;
  match o with
  | NavRaises => throw FetchError
  | NavOk _ page_source => ret (page_source, 200)
  end.

(** Playwright on an existing page: [status = resp.status if resp else 0]. *)
Definition fetch_html_with_page (t : target) (url : string) : M (string * Z) :=
  o <- navigate W t url ;;
  match o with
  | NavRaises => throw FetchError
  | NavOk resp html => ret (html, match resp with Some st => st | None => 0 end)
  end.

(** Playwright launching (or attaching to) a browser of its own. *)
Definition fetch_html_playwright (t : target) (url : string) : M (string * Z) :=
  o <- navigate W t url ;;
  match o with
  | NavRaises => throw FetchError
  | NavOk resp html => ret (html, match resp with Some st => st | None => 0 end)
  end.

(** [kwargs.pop("approach", None) or resolve_approach()] *)
Definition approach_of (kw : fetch_kwargs) : string :=
  match kw_approach kw with
  | Some a => if Py.truthy a then a else Approaches.resolve_approach (settings W) None
  | None => Approaches.resolve_approach (settings W) None
  end.

Definition fetch_html (kw : fetch_kwargs) (t : target) (url : string) : M (string * Z) :=
  let approach := approach_of kw in
  if kw_driver kw then _fetch_html_selenium_sync t url
  else if Approaches.is_selenium_like approach && negb (kw_page kw)
       then _fetch_html_selenium_sync t url
  else if kw_page kw then fetch_html_with_page t url
  else if String.eqb approach "playwright_cdp"
          && Approaches.opt_truthy (Approaches.CHROME_CDP_URL (settings W))
       then fetch_html_with_page t url
  else fetch_html_playwright t url.

(** [backoff_sec[attempt] if attempt < len(backoff_sec) else backoff_sec[-1]] *)
Definition backoff_wait (backoff_sec : list Z) (attempt : Z) : M Z :=
  if attempt <? Z.of_nat (length backoff_sec) then
    match backoff_sec !! Z.to_nat attempt with
    | Some w => ret w
    | None => throw IndexError
    end
  else
    match last backoff_sec with
    | Some w => ret w
    | None => throw IndexError
    end.

Section Retry.
Variables (kw : fetch_kwargs) (t : target) (url : string).
Variables (max_retries : Z) (backoff_sec : list Z).

Definition between_attempts (attempt : Z) : M unit :=
  if attempt <? max_retries - 1 then
    wait <- backoff_wait backoff_sec attempt ;;
    sleep wait
  else ret tt.

(** The body of [for attempt in range(max_retries)], with [todo] attempts
    left to run. *)
Fixpoint retry_from (todo : nat) (attempt : Z) (last_result : string * Z)
  : M (string * Z) :=
  match todo with
  | O => ret last_result
  | S todo' =>
      r <- try (fetch_html kw t url) ;;
      match r with
      | inr (html, status) =>
          if status =? 200 then ret (html, status)
          else
            between_attempts attempt ;;
            retry_from todo' (attempt + 1) (html, status)
      | inl _ =>
          between_attempts attempt ;;
          retry_from todo' (attempt + 1) ("", 0)
      end
  end.

Definition fetch_html_with_retry : M (string * Z) :=
  retry_from (Z.to_nat max_retries) 0 ("", 0).

End Retry.
End WithWorld.

Definition block_indicators : list string :=
  [ "Please enable JS";
    "enable JavaScript";
    "disable any ad blocker";
    "datadome";
    "bloqueado";
    "blocked";
    "captcha";
    "captcha challenge";
    "security challenge";
    "please complete the challenge";
    "se ha detectado un uso indebido";
    "el acceso se ha bloqueado";
    "uso indebido" ].

Definition is_blocked_page (html : string) : bool :=
  if negb (Py.truthy html) || (Py.len html <? 500) then true
  else
    let lower := Py.lower html in
    existsb (fun ind => Py.contains (Py.lower ind) lower) block_indicators.

(** The loop of [_human_scroll] and [_human_scroll_playwright]: the
    positions passed to [window.scrollTo], for a page of height [total]
    and [parts = random.randint(2, 4)].  [fuel] bounds the number of
    iterations of the [while]. *)
Fixpoint scroll_from (fuel : nat) (total step pos : Z) : list Z :=
  match fuel with
  | O => []
  | S fuel' =>
      if pos <? total then
        let pos' := Z.min (pos + step) total in
        pos' :: scroll_from fuel' total step pos'
      else []
  end.

Definition scroll_positions (fuel : nat) (total parts : Z) : list Z :=
  scroll_from fuel total (Z.max 400 (total / parts)) 0.

End Fetcher.

(* ===================================================================== *)
(** * orchestrator.py *)
(* ===================================================================== *)

Module Orchestrator.
Import Parsers Eff Fetcher.
Local Open Scope eff_scope.

(** [a / (b * 2^e)] as a fraction of integers. *)
Definition scaled (a b e : Z) : Z * Z :=
  if 0 <=? e then (a, b * 2 ^ e) else (a * 2 ^ (- e), b).

(** The integer nearest to [n / d], the even one of two equally near. *)
Definition round_half_even (n d : Z) : Z :=
  let q := n / d in
  let r := n mod d in
  if 2 * r <? d then q
  else if d <? 2 * r then q + 1
  else if Z.even q then q else q + 1.

(** [a / b] for positive integers: Python's true division gives the
    double nearest to the quotient (ties to even), here as the pair
    [(m, e)] of its value [m * 2^e] with [2^52 <= m <= 2^53], and raises
    [OverflowError] ([None]) when that value is [2^1024] or more.  (The
    quotients met here are at least 1, so no subnormal occurs.) *)
Definition true_divide (a b : Z) : option (Z * Z) :=
  let e1 := Z.log2 a - Z.log2 b - 52 in
  let '(n1, d1) := scaled a b e1 in
  let e := if n1 / d1 <? 2 ^ 52 then e1 - 1 else e1 in
  let '(n, d) := scaled a b e in
  let m := round_half_even n d in
  if (972 <=? e) || ((971 <=? e) && (m =? 2 ^ 53)) then None
  else Some (m, e).

(** [math.ceil(x)] of the double [x = m * 2^e]. *)
Definition math_ceil (x : Z * Z) : Z :=
  let '(m, e) := x in
  if 0 <=? e then m * 2 ^ e else (m + 2 ^ (- e) - 1) / 2 ^ (- e).

(** The assignment to [total_pages]; [None] is the [OverflowError] of
    the division. *)
Definition total_pages (total_count max_pages : Z) : option Z :=
  if total_count >? 30 then
    match true_divide total_count 30 with
    | Some x =>
        Some (Z.min Config.IDEALISTA_MAX_PAGE
                (Z.min (Z.max 1 (math_ceil x)) max_pages))
    | None => None
    end
  else Some (Z.min Config.IDEALISTA_MAX_PAGE max_pages).

(** The page count in the specification's words, with the ceiling taken
    on exact integers: the value of [total_pages] wherever the division
    does not overflow (lemma [total_pages_exact]). *)
Definition ceil_div30 (total_count : Z) : Z := (total_count + 29) / 30.

Definition total_pages_of (total_count max_pages : Z) : Z :=
  if total_count >? 30 then
    Z.min Config.IDEALISTA_MAX_PAGE (Z.min (Z.max 1 (ceil_div30 total_count)) max_pages)
  else
    Z.min Config.IDEALISTA_MAX_PAGE max_pages.

Definition nonempty_set (s : gset string) : bool := negb (bool_decide (s = ∅)).

Definition start_page_of (already_seen : gset string) (total_pages : Z) : Z :=
  if nonempty_set already_seen && (total_pages >? 1) then
    Z.min total_pages (Z.of_nat (size already_seen) / 30 + 1)
  else 1.

(** [range(lo, hi)] *)
Definition range (lo hi : Z) : list Z := seqZ lo (hi - lo).

Definition set_link (c : ListingCard) (l : string) : ListingCard :=
  {| listing_type := listing_type c; title := title c; link := l;
     price := price c; currency := currency c; rooms := rooms c;
     sq_meters := sq_meters c; location := location c;
     description := description c; tags := tags c;
     seller := seller c; seller_url := seller_url c |}.

Definition set_rooms (c : ListingCard) (v : option Z) : ListingCard :=
  {| listing_type := listing_type c; title := title c; link := link c;
     price := price c; currency := currency c; rooms := v;
     sq_meters := sq_meters c; location := location c;
     description := description c; tags := tags c;
     seller := seller c; seller_url := seller_url c |}.

Definition set_sq_meters (c : ListingCard) (v : option Z) : ListingCard :=
  {| listing_type := listing_type c; title := title c; link := link c;
     price := price c; currency := currency c; rooms := rooms c;
     sq_meters := v; location := location c;
     description := description c; tags := tags c;
     seller := seller c; seller_url := seller_url c |}.

Definition set_location (c : ListingCard) (v : string) : ListingCard :=
  {| listing_type := listing_type c; title := title c; link := link c;
     price := price c; currency := currency c; rooms := rooms c;
     sq_meters := sq_meters c; location := v;
     description := description c; tags := tags c;
     seller := seller c; seller_url := seller_url c |}.

(** [{**card.to_dict(), "link": canonical_link}] *)
Definition card_record (c : ListingCard) (canonical_link : string) : record :=
  {| r_card := set_link c canonical_link; r_detail := None |}.

(** The mutable closure variables of [_run_with_fetcher]. *)
Record closure := {
  processed_links : gset string;
  results : list record
}.

Record loop_state := {
  all_cards : list ListingCard;
  cl : closure;
  consecutive_blocked : Z
}.

Inductive ctrl := Continue | Break.

Definition PAGE_BLOCK_RETRY_BACKOFF_SEC : Z := 60.
Definition CONSECUTIVE_BLOCKED_BEFORE_STOP : Z := 2.

(** The defaults of [fetch_html_with_retry]. *)
Definition MAX_RETRIES : Z := 3.
Definition BACKOFF_SEC : list Z := [10; 30; 60].

Section Run.
Variable W : World.
Variables (base_url : string) (max_pages : Z) (fetch_details : bool).
Variable already_seen : gset string.
Variable fetch_kwargs_ : fetch_kwargs.
Variable on_restart_browser : bool.

Definition canonical_of (c : ListingCard) : string :=
  if Py.truthy (link c) then Export_.normalize_listing_link (link c) else "".

Fixpoint dedupe_from (seen_links : gset string) (cards : list ListingCard)
  : list ListingCard :=
  match cards with
  | [] => []
  | c :: cards' =>
      let canonical := canonical_of c in
      if negb (Py.truthy canonical)
         || bool_decide (canonical ∈ already_seen)
         || bool_decide (canonical ∈ seen_links)
      then dedupe_from seen_links cards'
      else c :: dedupe_from ({[canonical]} ∪ seen_links) cards'
  end.

Definition _dedupe_unique (cards : list ListingCard) : list ListingCard :=
  dedupe_from ∅ cards.

(** [if on_record: on_record(d)] followed by [results.append(d)] *)
Definition emit (d : record) (c : closure) : M closure :=
  match on_record W with
  | Some callback =>
      log (EvRecord d) ;;
      if callback d
      then ret {| processed_links := processed_links c; results := (results c ++ [d])%list |}
      else throw CallbackError
  | None => ret {| processed_links := processed_links c; results := (results c ++ [d])%list |}
  end.

(** The detail's room count, area and location override the card's. *)
Definition merge_detail (card : ListingCard) (canonical_link : string)
    (detail : DetailListing) : record :=
  let merged := set_link card canonical_link in
  let feats := d_features detail in
  let merged :=
    match feats !! "rooms" with
    | Some (x :: _) =>
        match py_int W x with
        | Some v => set_rooms merged (Some v)
        | None => merged
        end
    | _ => merged
    end in
  let merged :=
    match feats !! "sq_meters" with
    | Some (x :: _) =>
        match py_int W x with
        | Some v => set_sq_meters merged (Some v)
        | None => merged
        end
    | _ => merged
    end in
  let merged :=
    if Py.truthy (d_location detail) then set_location merged (d_location detail)
    else merged in
  {| r_card := merged; r_detail := Some detail |}.

(** The calls of the extraction functions made outside a [try]: an
    exception they raise ends the run. *)
Definition search_cards (html : string) : M (list ListingCard) :=
  match search_page_outcome (extraction W) html Config.IDEALISTA_DOMAIN with
  | inl e => throw (ParserError e)
  | inr (_, page_cards) => ret page_cards
  end.

Definition detail_of (html url : string) : M DetailListing :=
  match detail_page_outcome (extraction W) html url with
  | inl e => throw (ParserError e)
  | inr detail => ret detail
  end.

Fixpoint _process_cards (cards_to_process : list ListingCard) (c : closure)
  : M closure :=
  match cards_to_process with
  | [] => ret c
  | card :: rest =>
      let canonical_link := Export_.normalize_listing_link (link card) in
      if bool_decide (canonical_link ∈ processed_links c) then _process_cards rest c
      else
        let c := {| processed_links := {[canonical_link]} ∪ processed_links c;
                    results := results c |} in
        let fetch_url := if Py.truthy canonical_link then canonical_link else link card in
        '(html, status) <-
          fetch_html_with_retry W (with_delay fetch_kwargs_ 10) DetailPage fetch_url
            MAX_RETRIES BACKOFF_SEC ;;
        if negb (status =? 200) then
          c <- emit (card_record card canonical_link) c ;;
          _process_cards rest c
        else
          detail <- detail_of html fetch_url ;;
          c <- emit (merge_detail card canonical_link detail) c ;;
          _process_cards rest c
  end.

(** The [for c in unique_cards] loop of the card-only path. *)
Fixpoint emit_cards (unique_cards : list ListingCard) (c : closure) : M closure :=
  match unique_cards with
  | [] => ret c
  | card :: rest =>
      c <- emit (card_record card (Export_.normalize_listing_link (link card))) c ;;
      emit_cards rest c
  end.

(** Dedupe everything seen so far and process what is new. *)
Definition process_new (cards : list ListingCard) (c : closure) : M closure :=
  let unique_so_far := _dedupe_unique cards in
  let to_process :=
    List.filter
      (fun x => negb (bool_decide (Export_.normalize_listing_link (link x)
                                     ∈ processed_links c)))
      unique_so_far in
  match to_process with
  | [] => ret c
  | _ => _process_cards to_process c
  end.

Definition set_blocked (ls : loop_state) (n : Z) : loop_state :=
  {| all_cards := all_cards ls; cl := cl ls; consecutive_blocked := n |}.

Definition page_url (page_num : Z) : string :=
  base_url ++ "/pagina-" ++ Py.str_of_int page_num ++ ".htm".

Definition fetch_page (page_num : Z) : M (string * Z) :=
  fetch_html_with_retry W fetch_kwargs_ (SearchPage page_num) (page_url page_num)
    MAX_RETRIES BACKOFF_SEC.

Definition is_nil {A} (l : list A) : bool :=
  match l with [] => true | _ => false end.

Section Loop.
Variable first_page_first_link : option string.
Variable start_page : Z.

(** From [if not page_cards:] to the end of the loop body. *)
Definition page_tail (page_cards : list ListingCard) (ls : loop_state)
  : M (verdict * ctrl * loop_state) :=
  match page_cards with
  | [] => ret (PageEmpty, Continue, ls)
  | c0 :: _ =>
      let ls := set_blocked ls 0 in
      if match first_page_first_link with
         | Some l1 => Py.truthy l1 && String.eqb (link c0) l1
         | None => false
         end
      then ret (PageDuplicate, Break, ls)
      else
        let cards := (all_cards ls ++ page_cards)%list in
        c <- process_new cards (cl ls) ;;
        ret (PageDone, Continue,
             {| all_cards := cards; cl := c;
                consecutive_blocked := consecutive_blocked ls |})
  end.

(** One iteration of [for page_num in range(2, total_pages + 1)] for a
    page that is not skipped. *)
Definition page_body (page_num : Z) (ls : loop_state)
  : M (verdict * ctrl * loop_state) :=
  (if Approaches.PAGE_DELAY_SEC (settings W) >? 0
   then sleep (Approaches.PAGE_DELAY_SEC (settings W)) else ret tt) ;;
  '(html, status) <- fetch_page page_num ;;
  if negb (status =? 200) then ret (PageFailed, Continue, set_blocked ls 0)
  else
    page_cards <- search_cards html ;;
    if is_nil page_cards && is_blocked_page html then
      (if on_restart_browser then log EvRestart else ret tt) ;;
      sleep PAGE_BLOCK_RETRY_BACKOFF_SEC ;;
      '(html, status) <- fetch_page page_num ;;
      if negb (status =? 200) then ret (PageFailed, Continue, set_blocked ls 0)
      else
        page_cards <- search_cards html ;;
        if is_nil page_cards && is_blocked_page html then
          let n := consecutive_blocked ls + 1 in
          if n >=? CONSECUTIVE_BLOCKED_BEFORE_STOP
          then ret (PageBlocked, Break, set_blocked ls n)
          else ret (PageBlocked, Continue, set_blocked ls n)
        else page_tail page_cards ls
    else page_tail page_cards ls.

Fixpoint pages_loop (pages : list Z) (ls : loop_state) : M loop_state :=
  match pages with
  | [] => ret ls
  | page_num :: rest =>
      if page_num <? start_page then pages_loop rest ls
      else
        '(v, k, ls) <- page_body page_num ls ;;
        log (EvPage page_num v) ;;
        match k with
        | Break => ret ls
        | Continue => pages_loop rest ls
        end
  end.

End Loop.

(** The page-1 verdict: [blocked] of the source. *)
Definition first_page_blocked (html : string) (status : Z) : bool :=
  let long_ok := (status =? 200) && (Py.len html >=? 12000) in
  negb (status =? 200)
  || (negb long_ok && is_blocked_page html
      && negb (looks_like_listing_page (extraction W) html)).

Definition fetch_first_page : M (string * Z) :=
  fetch_html_with_retry W
    (with_pause fetch_kwargs_ (Approaches.PAUSE_FOR_CAPTCHA (settings W)))
    (SearchPage 1) (base_url ++ "/") MAX_RETRIES BACKOFF_SEC.

Definition closure0 : closure := {| processed_links := ∅; results := [] |}.

(** From the computation of [start_page] to the end, for the cards of
    page 1 and the page count. *)
Definition paginate (page_cards : list ListingCard) (pages : Z) : M (list record) :=
  let cards := page_cards in
  let first_page_first_link :=
    match page_cards with c0 :: _ => Some (link c0) | [] => None end in
  let start_page := start_page_of already_seen pages in
  if negb fetch_details then
    c <- emit_cards (_dedupe_unique cards) closure0 ;;
    ret (results c)
  else
    c <- (if start_page <=? 1 then process_new cards closure0 else ret closure0) ;;
    ls <- pages_loop first_page_first_link start_page
            (range 2 (pages + 1))
            {| all_cards := cards; cl := c; consecutive_blocked := 0 |} ;;
    ret (results (cl ls)).

(** Everything [_run_with_fetcher] does once page 1 is accepted. *)
Definition after_first_page (html : string) : M (list record) :=
  match search_page_outcome (extraction W) html Config.IDEALISTA_DOMAIN with
  | inl e => throw (ParserError e)
  | inr (total_count, page_cards) =>
      match total_pages total_count max_pages with
      | None => throw OverflowError
      | Some pages => paginate page_cards pages
      end
  end.

Definition _run_with_fetcher : M (list record) :=
  '(html, status) <- fetch_first_page ;;
  if first_page_blocked html status then throw (FirstPageError status)
  else after_first_page html.

End Run.

(** [run]: resolve the approach, bring up the session the approach needs
    and hand over to [_run_with_fetcher]. *)
Definition run (W : World) (base_url : string) (max_pages : option Z)
    (fetch_details : bool) (seen_urls : option (gset string)) : M (list record) :=
  let max_pages :=
    match max_pages with Some n => n | None => Approaches.MAX_PAGES (settings W) end in
  let base_url := Py.rstrip_slash base_url in
  let already_seen :=
    match seen_urls with Some s => s | None => ∅ end in
  let approach := Approaches.resolve_approach (settings W) None in
  if Approaches.is_selenium_like approach then
    _run_with_fetcher W base_url max_pages fetch_details already_seen
      {| kw_page := false; kw_driver := true; kw_approach := Some approach;
         kw_driver_lock := true; kw_pause_for_captcha := false;
         kw_delay_before := None |}
      true
  else
    _run_with_fetcher W base_url max_pages fetch_details already_seen
      {| kw_page := true; kw_driver := false; kw_approach := None;
         kw_driver_lock := false; kw_pause_for_captcha := false;
         kw_delay_before := None |}
      false.

End Orchestrator.

(* ===================================================================== *)
(** * cli.py: the verdicts of the two diagnostic commands *)
(* ===================================================================== *)

Module Cli.
Import Parsers Fetcher.

Definition _MIN_HTML_LENGTH_NOT_BLOCKED : Z := 12000.

(** [_live_test]: [true] when the command reports OK. *)
Definition _live_test (X : Extraction) (html : string) (status : Z) : bool :=
  let long_ok := (status =? 200) && (Py.len html >=? _MIN_HTML_LENGTH_NOT_BLOCKED) in
  let blocked :=
    negb long_ok && (status =? 200) && is_blocked_page html
    && negb (looks_like_listing_page X html) in
  (status =? 200) && (long_ok || negb blocked).

(** The [ok] flag [_test_approaches] computes for one approach. *)
Definition _test_approach_ok (X : Extraction) (html : string) (status : Z) : bool :=
  let long_ok := (status =? 200) && (Py.len html >=? _MIN_HTML_LENGTH_NOT_BLOCKED) in
  let looks_ok := looks_like_listing_page X html in
  let blocked := is_blocked_page html && negb looks_ok in
  (status =? 200) && (long_ok || negb blocked).

End Cli.

(* ===================================================================== *)
(** * Concrete worlds used to exercise the model *)
(* ===================================================================== *)

Module Examples.
Import Parsers Eff Fetcher.

Definition default_settings : Approaches.Settings :=
  {| Approaches.SCRAPER_APPROACH := None; Approaches.USE_SELENIUM := false;
     Approaches.CHROME_CDP_URL := None; Approaches.PAGE_DELAY_SEC := 0;
     Approaches.PAUSE_FOR_CAPTCHA := false; Approaches.MAX_PAGES := 60 |}.

Definition card_at (url : string) : ListingCard :=
  {| listing_type := "venta"; title := "Piso en Centro, Sevilla"; link := url;
     price := Some 185000; currency := "EUR"; rooms := Some 3;
     sq_meters := Some 85; location := "Centro, Sevilla"; description := "";
     tags := []; seller := None; seller_url := None |}.

Definition empty_detail (url : string) : DetailListing :=
  {| d_url := url; d_title := ""; d_location := ""; d_price := None;
     d_currency := "EUR"; d_description := ""; d_updated := "";
     d_features := ∅; d_images := [] |}.

(** A results page is written ["total|id,id,..."] in these examples: the
    markup ["1234|11,12"] stands for a page announcing 1234 listings and
    showing the cards of listings 11 and 12. *)
Fixpoint split_on (sep : ascii) (s : string) : list string :=
  match s with
  | EmptyString => [EmptyString]
  | String c s' =>
      if Ascii.eqb c sep then EmptyString :: split_on sep s'
      else match split_on sep s' with
           | w :: ws => String c w :: ws
           | [] => [String c EmptyString]
           end
  end.

Definition toy_total (s : string) : Z :=
  if Py.truthy s && Py.all_digits s then
    match NilZero.int_of_string s with
    | Some d => Z.of_int d
    | None => 0
    end
  else 0.

Definition toy_search (html base_url : string) : Z * list ListingCard :=
  match split_on "|" html with
  | [total; ids] =>
      (toy_total total,
       map (fun id => card_at (base_url ++ "/inmueble/" ++ id ++ "/"))
           (List.filter Py.truthy (split_on "," ids)))
  | _ => (0, [])
  end.

Definition toy : Extraction :=
  {| search_page_outcome := fun html base_url => inr (toy_search html base_url);
     detail_page_outcome := fun _ url => inr (empty_detail url) |}.

Definition world (b : string -> nat -> nav) (cb : option (record -> bool)) : World :=
  {| extraction := toy; settings := default_settings; browser := b;
     py_int := fun _ => None; on_record := cb |}.

(** The keyword arguments of the two paths of [run]. *)
Definition page_kwargs : fetch_kwargs :=
  {| kw_page := true; kw_driver := false; kw_approach := None;
     kw_driver_lock := false; kw_pause_for_captcha := false;
     kw_delay_before := None |}.

Definition driver_kwargs : fetch_kwargs :=
  {| kw_page := false; kw_driver := true; kw_approach := Some "selenium";
     kw_driver_lock := true; kw_pause_for_captcha := false;
     kw_delay_before := None |}.

(** The site answers 503 once and the browser then crashes. *)
Definition busy_then_crash (_ : string) (k : nat) : nav :=
  match k with
  | O => NavOk (Some 503) "<html>busy</html>"
  | _ => NavRaises
  end.

(** Every navigation raises. *)
Definition always_raises (_ : string) (_ : nat) : nav := NavRaises.

(** The site answers 403 to every request. *)
Definition always_forbidden (_ : string) (_ : nat) : nav :=
  NavOk (Some 403) "<html>Forbidden</html>".

(** The search used in the scenarios below, and a site with three pages
    of results: listings 11 and 12, then 13, then 14 and 11 again. *)
Definition base : string :=
  "https://www.idealista.com/venta-viviendas/sevilla-sevilla".

Definition three_pages (url : string) (_ : nat) : nav :=
  if String.eqb url (base ++ "/") then NavOk (Some 200) "1234|11,12"
  else if String.eqb url (base ++ "/pagina-2.htm") then NavOk (Some 200) "1234|13"
  else if String.eqb url (base ++ "/pagina-3.htm") then NavOk (Some 200) "1234|14,11"
  else NavOk (Some 200) "".

Definition nav_at (l : list nav) (k : nat) : nav := nth k l (NavOk (Some 200) "").

(** Page 1 is fine; then every page is blocked (empty markup). *)
Definition all_blocked (_ : string) (k : nat) : nav :=
  nav_at [NavOk (Some 200) "1234|"] k.

(** Page 1 is fine; page 2 is blocked on both tries, the three attempts
    at page 3 fail in transport, page 4 is blocked on both tries, and so
    is page 5. *)
Definition blocked_failed_blocked (_ : string) (k : nat) : nav :=
  nav_at [NavOk (Some 200) "1234|";
          NavOk (Some 200) ""; NavOk (Some 200) "";
          NavRaises; NavRaises; NavRaises;
          NavOk (Some 200) ""; NavOk (Some 200) ""] k.

(** Sixty links already written by an earlier run. *)
Definition sixty_seen : gset string :=
  list_to_set
    (map (fun n => "https://www.idealista.com/inmueble/" ++ Py.str_of_int n ++ "/")
         (seqZ 100 60)).

(** The first record a card-only run over [three_pages] hands to its
    callback, and the rows read back from the CSV that run appended to. *)
Definition written_record : record :=
  Orchestrator.card_record (card_at (base ++ "/inmueble/11/"))
    "https://www.idealista.com/inmueble/11/".

Definition written_rows : list Export_.csv_row :=
  [ {[ "title" := Some "Piso en Centro, Sevilla";
       "link" := Some "https://www.idealista.com/inmueble/11/" ]};
    {[ "title" := Some "Piso en Centro, Sevilla";
       "link" := Some "https://www.idealista.com/inmueble/12/" ]} ].

(** A CSV with a link in another locale, a blank link cell and, in
    [mixed_rows], a file whose header has no link column for the row. *)
Definition mixed_rows : list Export_.csv_row :=
  [ {[ "title" := Some "Piso";
       "link" := Some " https://www.idealista.com/ca/inmueble/42/ " ]};
    {[ "title" := Some "Casa"; "link" := Some "" ]};
    {[ "title" := Some "Solar" ]} ].

(** A CSV whose second row stops before the link column. *)
Definition short_rows : list Export_.csv_row :=
  [ {[ "title" := Some "Piso"; "link" := Some "https://www.idealista.com/inmueble/11/" ]};
    {[ "title" := Some "Casa"; "link" := None ]} ].

(** Settings that select the Selenium backend through the legacy flag. *)
Definition selenium_settings : Approaches.Settings :=
  {| Approaches.SCRAPER_APPROACH := None; Approaches.USE_SELENIUM := true;
     Approaches.CHROME_CDP_URL := None; Approaches.PAGE_DELAY_SEC := 0;
     Approaches.PAUSE_FOR_CAPTCHA := false; Approaches.MAX_PAGES := 60 |}.

Definition selenium_world : World :=
  {| extraction := toy; settings := selenium_settings; browser := always_raises;
     py_int := fun _ => None; on_record := None |}.

(** A site that answers every request with the same markup and the given
    HTTP status. *)
Definition answers (status : Z) (_ : string) (_ : nat) : nav :=
  NavOk (Some status) "1234|11,12".

(** A listing page that mentions a "challenge" in its prose. *)
Definition challenge_page : string :=
  Eval vm_compute in
    ((fix rep (n : nat) : string :=
        match n with O => EmptyString | S n' => String "x" (rep n') end) 1000%nat
     ++ "<p>A challenge for first-time buyers</p>"
     ++ "<h1 id='h1-container'>Venta de viviendas: 500</h1>"
     ++ "<section class='items-list'>").

End Examples.

(* ===================================================================== *)
(** * Specification vocabulary *)
(* ===================================================================== *)

Module Spec.
Import Parsers Eff Fetcher.

(** [sat Q E R m]: from any state, [m] only appends events satisfying [Q]
    to the trace; if it raises, the exception satisfies [E]; if it
    returns, the value satisfies [R]. *)
Definition sat {A} (Q : event -> Prop) (E : exn -> Prop) (R : A -> Prop)
    (m : M A) : Prop :=
  forall s, exists ev,
    trace (fst (m s)) = (trace s ++ ev)%list /\ Forall Q ev /\
    match snd (m s) with inl e => E e | inr a => R a end.

(** What one call of [fetch_html] returns for a given browser outcome. *)
Definition fetch_result (W : World) (kw : fetch_kwargs) (o : nav)
  : exn + (string * Z) :=
  snd (fetch_html
         {| extraction := extraction W; settings := settings W;
            browser := fun _ _ => o; py_int := py_int W;
            on_record := on_record W |}
         kw DetailPage "" io0).

(** The state one navigation later. *)
Definition after_fetch (s : io) (t : target) (url : string) : io :=
  {| calls := S (calls s); trace := (trace s ++ [EvFetch t url])%list |}.

Definition is_200 (r : exn + (string * Z)) : bool :=
  match r with inr (_, status) => status =? 200 | inl _ => false end.

(** The sleeps and the number of navigations recorded in a trace. *)
Fixpoint sleeps_of (evs : list event) : list Z :=
  match evs with
  | [] => []
  | EvSleep w :: evs' => w :: sleeps_of evs'
  | _ :: evs' => sleeps_of evs'
  end.

Fixpoint fetches_of (evs : list event) : nat :=
  match evs with
  | [] => O
  | EvFetch _ _ :: evs' => S (fetches_of evs')
  | _ :: evs' => fetches_of evs'
  end.

(** The schedule entry for an attempt, clamped to the last entry. *)
Definition clamped (backoff_sec : list Z) (attempt : nat) : Z :=
  nth attempt backoff_sec (List.last backoff_sec 0).

(** The specification's reading of the result after the attempts are
    exhausted: the last pair some attempt returned, and [("", 0)] only
    when every attempt raised. *)
Fixpoint last_observed (outs : list (exn + (string * Z))) : option (string * Z) :=
  match outs with
  | [] => None
  | o :: outs' =>
      match last_observed outs' with
      | Some r => Some r
      | None => match o with inr r => Some r | inl _ => None end
      end
  end.

Definition claimed_exhausted_result (outs : list (exn + (string * Z))) : string * Z :=
  match last_observed outs with Some r => r | None => ("", 0) end.

(** The trace of [k] attempts that all fail, the first of them being
    attempt number [i]: a navigation, then the backoff sleep unless the
    attempt is the last one allowed. *)
Fixpoint failed_attempts (t : target) (url : string) (max_retries : Z)
    (backoff_sec : list Z) (k i : nat) : list event :=
  match k with
  | O => []
  | S k' =>
      EvFetch t url ::
      (if Z.of_nat i <? max_retries - 1 then [EvSleep (clamped backoff_sec i)] else [])
      ++ failed_attempts t url max_retries backoff_sec k' (S i)
  end.

(** Shape of the events of a trace: which search pages may be fetched,
    which page verdicts may be logged, which records may be emitted, and
    whether detail pages may be fetched. *)
Definition ev_ok (Pf : Z -> Prop) (Pp : Z -> verdict -> Prop)
    (Pr : record -> Prop) (Pd : Prop) (e : event) : Prop :=
  match e with
  | EvFetch (SearchPage q) _ => Pf q
  | EvFetch DetailPage _ => Pd
  | EvRecord r => Pr r
  | EvPage q v => Pp q v
  | EvSleep _ | EvRestart => True
  end.

(** The record's link canonicalizes to a value outside [SeenLinks]. *)
Definition link_ok (already_seen : gset string) (r : record) : Prop :=
  Export_.normalize_listing_link (link (r_card r)) ∉ already_seen.

(** The record carries the card's fields only. *)
Definition card_only (r : record) : Prop := r_detail r = None.

(** What one iteration of the loop guarantees: the records collected so
    far satisfy [Pr], and the counter of consecutive blocked pages is
    incremented by a blocked page (stopping the loop at 2) and reset by a
    failed one. *)
Definition body_post (Pr : record -> Prop) (ls : Orchestrator.loop_state)
    (r : verdict * Orchestrator.ctrl * Orchestrator.loop_state) : Prop :=
  let '(v, k, ls') := r in
  Forall Pr (Orchestrator.results (Orchestrator.cl ls')) /\
  0 <= Orchestrator.consecutive_blocked ls' /\
  (v = PageBlocked ->
     Orchestrator.consecutive_blocked ls' = Orchestrator.consecutive_blocked ls + 1 /\
     (k = Orchestrator.Break <-> 2 <= Orchestrator.consecutive_blocked ls')) /\
  (v = PageFailed ->
     Orchestrator.consecutive_blocked ls' = 0 /\ k = Orchestrator.Continue).

(** The search pages navigated to, in order, and the page verdicts. *)
Fixpoint pages_fetched (evs : list event) : list Z :=
  match evs with
  | [] => []
  | EvFetch (SearchPage q) _ :: evs' => q :: pages_fetched evs'
  | _ :: evs' => pages_fetched evs'
  end.

Fixpoint verdicts_of (evs : list event) : list (Z * verdict) :=
  match evs with
  | [] => []
  | EvPage q v :: evs' => (q, v) :: verdicts_of evs'
  | _ :: evs' => verdicts_of evs'
  end.

(** The events of the page-1 fetch. *)
Definition page1_event (base_url : string) (e : event) : Prop :=
  e = EvFetch (SearchPage 1) (base_url ++ "/") \/ exists w, e = EvSleep w.

(** The total page count a run computes from the markup of page 1. *)
Definition total_pages_from (W : World) (max_pages : Z) (html : string) : Z :=
  Orchestrator.total_pages_of
    (fst (parse_search_page (extraction W) html Config.IDEALISTA_DOMAIN)) max_pages.

(** The exceptions that can end a run once page 1 is accepted. *)
Definition run_exn (e : exn) : Prop :=
  e = CallbackError \/ e = OverflowError \/ exists p, e = ParserError p.

(** [satv Rv Ev m]: like [sat], with the postconditions reading the
    events [m] appended to the trace. *)
Definition satv {A} (Rv : list event -> A -> Prop) (Ev : list event -> exn -> Prop)
    (m : M A) : Prop :=
  forall s, exists ev,
    trace (fst (m s)) = (trace s ++ ev)%list /\
    match snd (m s) with inl e => Ev ev e | inr a => Rv ev a end.

(** The records handed to [on_record], and the detail URLs navigated to. *)
Fixpoint records_of (evs : list event) : list record :=
  match evs with
  | [] => []
  | EvRecord r :: evs' => r :: records_of evs'
  | _ :: evs' => records_of evs'
  end.

Fixpoint detail_urls (evs : list event) : list string :=
  match evs with
  | [] => []
  | EvFetch DetailPage u :: evs' => u :: detail_urls evs'
  | _ :: evs' => detail_urls evs'
  end.

Definition links_of (rs : list record) : list string :=
  map (fun r => link (r_card r)) rs.

(** A detail URL worth fetching: canonical, non-empty and not yet seen. *)
Definition detail_ok (already_seen : gset string) (u : string) : Prop :=
  u <> "" /\ Export_.normalize_listing_link u = u /\ u ∉ already_seen.

(** What the records passed to [on_record] are, given the records
    appended to the result list: the same when there is a callback. *)
Definition cb_view (W : World) (news : list record) : list record :=
  match on_record W with Some _ => news | None => [] end.

(** A canonical link: non-empty and left alone by canonicalization. *)
Definition canon_link (l : string) : Prop :=
  l <> "" /\ Export_.normalize_listing_link l = l.

(** The invariant of the closure variables on the detail path: the links
    of the results are pairwise distinct, canonical, and all recorded in
    [processed_links]. *)
Definition closure_inv (c : Orchestrator.closure) : Prop :=
  NoDup (links_of (Orchestrator.results c)) /\
  Forall (fun l => l ∈ Orchestrator.processed_links c /\ canon_link l)
         (links_of (Orchestrator.results c)).

(** What a stretch of the detail path leaves in the trace. *)
Definition trace_post (already_seen : gset string) (c : Orchestrator.closure)
    (ev : list event) : Prop :=
  NoDup (links_of (records_of ev)) /\
  Forall (fun l => (l ∉ Orchestrator.processed_links c) /\ canon_link l)
         (links_of (records_of ev)) /\
  Forall (detail_ok already_seen) (detail_urls ev).

Definition step_post (W : World) (already_seen : gset string)
    (c : Orchestrator.closure) (ev : list event) (c' : Orchestrator.closure) : Prop :=
  trace_post already_seen c ev /\ closure_inv c' /\
  Orchestrator.processed_links c ⊆ Orchestrator.processed_links c' /\
  exists news,
    Orchestrator.results c' = (Orchestrator.results c ++ news)%list /\
    records_of ev = cb_view W news.

Definition step_exn (already_seen : gset string) (c : Orchestrator.closure)
    (ev : list event) (e : exn) : Prop :=
  run_exn e /\ trace_post already_seen c ev.

(** An event that is neither a callback nor a detail navigation. *)
Definition silent (e : event) : Prop :=
  match e with
  | EvRecord _ | EvFetch DetailPage _ => False
  | _ => True
  end.

(** The events of the retries of one detail page. *)
Definition detail_event (url : string) (e : event) : Prop :=
  e = EvFetch DetailPage url \/ exists w, e = EvSleep w.

(** A card whose canonical link is non-empty and not in SeenLinks. *)
Definition card_ok (already_seen : gset string) (c : ListingCard) : Prop :=
  Export_.normalize_listing_link (link c) <> "" /\
  Export_.normalize_listing_link (link c) ∉ already_seen.

(** The record of the card-only path for a card. *)
Definition card_only_record (c : ListingCard) : record :=
  Orchestrator.card_record c (Export_.normalize_listing_link (link c)).

(** [seen_urls or set()] of [run]. *)
Definition seen_of (seen_urls : option (gset string)) : gset string :=
  match seen_urls with Some s => s | None => ∅ end.

(** What a run guarantees about emission, for the events [ev] it appends
    to the trace and its outcome [r]; [cards] are the cards of page 1. *)
Definition run_post (W : World) (already_seen : gset string) (fetch_details : bool)
    (cards : list ListingCard) (ev : list event) (r : exn + list record) : Prop :=
  NoDup (links_of (records_of ev)) /\
  Forall canon_link (links_of (records_of ev)) /\
  Forall (detail_ok already_seen) (detail_urls ev) /\
  (fetch_details = false -> detail_urls ev = []) /\
  match r with
  | inl e => run_exn e
  | inr rs =>
      NoDup (links_of rs) /\ Forall canon_link (links_of rs) /\
      records_of ev = cb_view W rs /\
      (fetch_details = false ->
       rs = map card_only_record (Orchestrator._dedupe_unique already_seen cards))
  end.

(** Accounting of navigations: a stretch of the run that is allowed [n]
    navigations of its own may spend three more for every record it adds
    to the results. *)
Definition cost_post (W : World) (n : nat) (c : Orchestrator.closure)
    (ev : list event) (c' : Orchestrator.closure) : Prop :=
  (fetches_of ev + 3 * length (Orchestrator.results c)
   <= n + 3 * length (Orchestrator.results c'))%nat /\
  (on_record W <> None ->
   (length (records_of ev) + length (Orchestrator.results c)
    = length (Orchestrator.results c'))%nat).

Definition cost_exn (W : World) (n : nat) (ev : list event) (e : exn) : Prop :=
  (e = CallbackError ->
   on_record W <> None /\ (fetches_of ev <= n + 3 * length (records_of ev))%nat) /\
  (on_record W <> None ->
   (fetches_of ev <= n + 3 * length (records_of ev) + 3)%nat).

(** The navigations a run may spend on search pages: three tries at
    page 1 and, for each later page up to the cap, three tries and three
    more after a block. *)
Definition search_budget (max_pages : Z) : nat :=
  (3 + 6 * Z.to_nat (Z.min Config.IDEALISTA_MAX_PAGE max_pages - 1))%nat.

(** The pages of the loop's range that are not skipped. *)
Definition kept_pages (start_page : Z) (pages : list Z) : list Z :=
  List.filter (fun p => negb (p <? start_page)) pages.

(** How the verdict of an iteration and the control flow go together:
    only a blocked or a duplicate page leaves the loop, and a duplicate
    page always does. *)
Definition ctrl_ok (r : verdict * Orchestrator.ctrl * Orchestrator.loop_state) : Prop :=
  let '(v, k, _) := r in
  (k = Orchestrator.Break -> v = PageBlocked \/ v = PageDuplicate) /\
  (v = PageDuplicate -> k = Orchestrator.Break).

(** The verdicts [vs] a loop over the pages [kept] logs: one per page, in
    the order of the pages and without a gap; a duplicate verdict is the
    last one; and a loop that ran to its end ([finished]) either gave a
    verdict to every page or stopped on a blocked or duplicate page. *)
Definition loop_shape (kept : list Z) (vs : list (Z * verdict)) (finished : bool) : Prop :=
  map fst vs `prefix_of` kept /\
  (forall i p, vs !! i = Some (p, PageDuplicate) -> S i = length vs) /\
  (finished = true ->
   map fst vs = kept \/
   exists p v, last vs = Some (p, v) /\ (v = PageBlocked \/ v = PageDuplicate)).

(** The loop begins with the first page it keeps: the first search page
    among the events is the first of [kept], and there is none when
    [kept] is empty. *)
Definition first_fetch (kept : list Z) (ev : list event) : Prop :=
  head (pages_fetched ev) = head kept.

(** An event other than a page verdict. *)
Definition no_verdict : event -> Prop :=
  ev_ok (fun _ => True) (fun _ _ => False) (fun _ => True) True.

(** The world with another browser. *)
Definition with_browser (W : World) (b : string -> nat -> nav) : World :=
  {| extraction := extraction W; settings := settings W; browser := b;
     py_int := py_int W; on_record := on_record W |}.

(** Two navigation outcomes that differ at most in the HTTP status. *)
Definition same_content (o o' : nav) : Prop :=
  match o, o' with
  | NavRaises, NavRaises => True
  | NavOk _ c, NavOk _ c' => c = c'
  | _, _ => False
  end.

(** Two computations that behave alike from every state. *)
Definition eqm {A} (m1 m2 : M A) : Prop := forall s, m1 s = m2 s.

(** The first value a partial function yields along a list. *)
Fixpoint first_some {A B} (f : A -> option B) (l : list A) : option B :=
  match l with
  | [] => None
  | x :: l' => match f x with Some v => Some v | None => first_some f l' end
  end.

(** What a parser found, when it did not raise. *)
Definition found (r : unit + option Z) : option Z :=
  match r with inr v => v | inl _ => None end.

(** A card [_dedupe_unique] keeps when it meets it: its canonical link is
    non-empty, not in SeenLinks and not met before. *)
Definition fresh_card (already_seen seen_links : gset string) (c : ListingCard) : Prop :=
  (Orchestrator.canonical_of c <> "") /\
  (Orchestrator.canonical_of c ∉ already_seen) /\
  (Orchestrator.canonical_of c ∉ seen_links).

(** The link column [_flatten_for_csv] writes for a record. *)
Definition flattened_link (r : record) : string :=
  Export_._safe_str (Some (link (r_card r))).

(** No carriage return or line feed occurs in the string. *)
Fixpoint no_newline (s : string) : bool :=
  match s with
  | EmptyString => true
  | String c s' => negb (Py.is_newline c) && no_newline s'
  end.

End Spec.

(* ===================================================================== *)
(** * Properties of the string primitives *)
(* ===================================================================== *)

Section StringFacts.

Lemma append_assoc (a b c : string) : (a ++ b) ++ c = a ++ (b ++ c).
Proof. induction a as [|x a IH]; simpl; [reflexivity | now rewrite IH]. Qed.

Lemma append_nil_r (a : string) : a ++ "" = a.
Proof. induction a as [|x a IH]; simpl; [reflexivity | now rewrite IH]. Qed.

Lemma prefix_nil (s : string) : String.prefix "" s = true.
Proof. destruct s; reflexivity. Qed.

Lemma prefix_split (n s : string) :
  String.prefix n s = true -> exists r, s = n ++ r.
Proof.
  revert s. induction n as [|c n IH]; intros s H.
  - exists s. reflexivity.
  - destruct s as [|d s]; simpl in H; [discriminate|].
    destruct (ascii_dec c d) as [->|]; [|discriminate].
    destruct (IH s H) as [r ->]. exists r. reflexivity.
Qed.

Lemma prefix_append (n r : string) : String.prefix n (n ++ r) = true.
Proof.
  induction n as [|c n IH]; simpl; [apply prefix_nil|].
  destruct (ascii_dec c c); [assumption | congruence].
Qed.

Lemma prefix_app_r (n s q : string) :
  String.prefix n s = true -> String.prefix n (s ++ q) = true.
Proof.
  intros H. destruct (prefix_split _ _ H) as [r ->].
  rewrite append_assoc. apply prefix_append.
Qed.

Lemma contains_cons (n : string) (c : ascii) (s : string) :
  Py.contains n (String c s) = String.prefix n (String c s) || Py.contains n s.
Proof. reflexivity. Qed.

Lemma contains_nil (n : string) : Py.contains n "" = String.prefix n "".
Proof. simpl. apply orb_false_r. Qed.

Lemma contains_app_r (n s q : string) :
  Py.contains n s = true -> Py.contains n (s ++ q) = true.
Proof.
  induction s as [|c s IH]; intros H.
  - rewrite contains_nil in H.
    destruct n; [|discriminate]. destruct q; reflexivity.
  - rewrite contains_cons in H.
    change (String c s ++ q) with (String c (s ++ q)). rewrite contains_cons.
    apply orb_true_iff in H as [H|H].
    + change (String c (s ++ q)) with (String c s ++ q).
      rewrite (prefix_app_r _ _ _ H). reflexivity.
    + rewrite (IH H). apply orb_true_r.
Qed.

Lemma contains_app_l (n p s : string) :
  Py.contains n s = true -> Py.contains n (p ++ s) = true.
Proof.
  intros H. induction p as [|c p IH]; [assumption|].
  change (String c p ++ s) with (String c (p ++ s)). rewrite contains_cons.
  rewrite IH. apply orb_true_r.
Qed.

Lemma lower_app (a b : string) : Py.lower (a ++ b) = Py.lower a ++ Py.lower b.
Proof. induction a as [|x a IH]; simpl; [reflexivity | now rewrite IH]. Qed.

Lemma lstrip_split (s : string) : exists p, s = p ++ Py.lstrip s.
Proof.
  induction s as [|c s [p IH]]; simpl.
  - exists "". reflexivity.
  - destruct (Py.isspace c).
    + exists (String c p). simpl. now rewrite <- IH.
    + exists "". reflexivity.
Qed.

Lemma rstrip_split (s : string) : exists q, s = Py.rstrip s ++ q.
Proof.
  induction s as [|c s [q IH]]; simpl.
  - exists "". reflexivity.
  - destruct (Py.rstrip s) as [|d r] eqn:E.
    + destruct (Py.isspace c).
      * exists (String c s). reflexivity.
      * exists q. simpl in *. now rewrite <- IH.
    + exists q. simpl in *. now rewrite <- IH.
Qed.

Lemma strip_split (s : string) : exists p q, s = p ++ Py.strip s ++ q.
Proof.
  unfold Py.strip.
  destruct (lstrip_split s) as [p Hp].
  destruct (rstrip_split (Py.lstrip s)) as [q Hq].
  exists p, q. now rewrite <- Hq.
Qed.

Lemma rstrip_idem (s : string) : Py.rstrip (Py.rstrip s) = Py.rstrip s.
Proof.
  induction s as [|c s IH]; simpl; [reflexivity|].
  destruct (Py.rstrip s) as [|d r] eqn:E.
  - destruct (Py.isspace c) eqn:Ec; simpl; [reflexivity | now rewrite Ec].
  - simpl in *. rewrite IH. reflexivity.
Qed.

Lemma rstrip_head (c : ascii) (s : string) :
  Py.isspace c = false -> exists r, Py.rstrip (String c s) = String c r.
Proof.
  intros Hc. simpl. destruct (Py.rstrip s); rewrite ?Hc; eauto.
Qed.

Lemma lstrip_head (s : string) :
  match Py.lstrip s with
  | EmptyString => True
  | String c _ => Py.isspace c = false
  end.
Proof.
  induction s as [|c s IH]; simpl; [exact I|].
  destruct (Py.isspace c) eqn:E; [assumption | simpl; assumption].
Qed.

Lemma strip_idem (s : string) : Py.strip (Py.strip s) = Py.strip s.
Proof.
  unfold Py.strip.
  pose proof (lstrip_head s) as H.
  destruct (Py.lstrip s) as [|c t] eqn:E; [reflexivity|].
  destruct (rstrip_head c t H) as [r Hr].
  rewrite Hr. simpl Py.lstrip. rewrite H. rewrite <- Hr. apply rstrip_idem.
Qed.

Lemma strip_nil_of_nil (s : string) : Py.truthy (Py.strip s) = true -> Py.truthy s = true.
Proof. destruct s; [discriminate | reflexivity]. Qed.

End StringFacts.

(* ===================================================================== *)
(** * Properties of link canonicalization *)
(* ===================================================================== *)

Section Canonical.
Import Export_.

Lemma take_digits_all (s : string) : Py.all_digits (Py.take_digits s) = true.
Proof.
  induction s as [|c s IH]; simpl; [reflexivity|].
  destruct (Py.isdigit c) eqn:E; simpl; [now rewrite E | reflexivity].
Qed.

Lemma take_digits_slash (ds : string) :
  Py.all_digits ds = true -> Py.take_digits (ds ++ "/") = ds.
Proof.
  induction ds as [|c ds IH]; simpl; intros H; [reflexivity|].
  apply andb_true_iff in H as [Hc Hd]. rewrite Hc, (IH Hd). reflexivity.
Qed.

Lemma take_digits_app (a q : string) (c : ascii) (d : string) :
  Py.take_digits a = String c d ->
  exists d', Py.take_digits (a ++ q) = String c d'.
Proof.
  destruct a as [|x a]; simpl; [discriminate|].
  destruct (Py.isdigit x); [|discriminate].
  intros [= -> _]. eauto.
Qed.

Lemma search_unfold (s : string) :
  search_inmueble s =
  match match_inmueble_at s with
  | Some ds => Some ds
  | None => match s with
            | EmptyString => None
            | String _ s' => search_inmueble s'
            end
  end.
Proof. destruct s; reflexivity. Qed.

Lemma match_at_some (s ds : string) :
  match_inmueble_at s = Some ds ->
  ds <> "" /\ Py.all_digits ds = true /\ String.prefix "/inmueble/" s = true.
Proof.
  unfold match_inmueble_at.
  destruct (String.prefix "/inmueble/" s); [|discriminate].
  pose proof (take_digits_all (Py.drop 10 s)) as Hall.
  destruct (Py.take_digits (Py.drop 10 s)) eqn:E; [discriminate|].
  intros [= <-]. repeat split; [discriminate | assumption].
Qed.

Lemma match_at_app_r (s q ds : string) :
  match_inmueble_at s = Some ds ->
  exists ds', match_inmueble_at (s ++ q) = Some ds'.
Proof.
  unfold match_inmueble_at.
  destruct (String.prefix "/inmueble/" s) eqn:P; [|discriminate].
  rewrite (prefix_app_r _ _ q P).
  destruct (prefix_split _ _ P) as [r ->].
  rewrite append_assoc. simpl Py.drop.
  destruct (Py.take_digits r) as [|c d] eqn:E; [discriminate|].
  intros _. destruct (take_digits_app r q c d E) as [d' ->]. eauto.
Qed.

Lemma search_some (s ds : string) :
  search_inmueble s = Some ds ->
  ds <> "" /\ Py.all_digits ds = true /\ Py.contains "/inmueble/" s = true.
Proof.
  induction s as [|c s IH]; rewrite search_unfold.
  - destruct (match_inmueble_at "") eqn:E; [|discriminate].
    intros [= <-]. discriminate E.
  - destruct (match_inmueble_at (String c s)) eqn:E.
    + intros [= <-]. destruct (match_at_some _ _ E) as (? & ? & P).
      repeat split; try assumption.
      rewrite contains_cons, P. reflexivity.
    + intros H. destruct (IH H) as (? & ? & P).
      repeat split; try assumption.
      rewrite contains_cons, P. apply orb_true_r.
Qed.

Lemma search_app_r (s q : string) :
  search_inmueble s <> None -> search_inmueble (s ++ q) <> None.
Proof.
  induction s as [|c s IH]; rewrite search_unfold.
  - destruct (match_inmueble_at "") eqn:E; [discriminate E | congruence].
  - destruct (match_inmueble_at (String c s)) eqn:E; intros H.
    + destruct (match_at_app_r _ q _ E) as [ds' E'].
      rewrite search_unfold, E'. discriminate.
    + change (String c s ++ q) with (String c (s ++ q)).
      rewrite search_unfold.
      destruct (match_inmueble_at (String c (s ++ q))); [discriminate|].
      apply IH, H.
Qed.

Lemma search_app_l (p s : string) :
  search_inmueble s <> None -> search_inmueble (p ++ s) <> None.
Proof.
  intros H. induction p as [|c p IH]; [assumption|].
  change (String c p ++ s) with (String c (p ++ s)).
  rewrite search_unfold.
  destruct (match_inmueble_at (String c (p ++ s))); [discriminate | assumption].
Qed.

Lemma not_a_listing_strip (url : string) :
  not_a_listing url = true -> not_a_listing (Py.strip url) = true.
Proof.
  unfold not_a_listing. intros H.
  destruct (strip_split url) as (p & q & Hs).
  destruct (Py.truthy (Py.strip url)) eqn:T; [|reflexivity].
  destruct (Py.contains "idealista" (Py.lower (Py.strip url))) eqn:C1; [|reflexivity].
  destruct (Py.contains "/inmueble/" (Py.strip url)) eqn:C2; [|apply orb_true_r].
  rewrite (strip_nil_of_nil _ T) in H.
  rewrite Hs in H at 1 2.
  rewrite !lower_app in H.
  rewrite (contains_app_l _ _ _ (contains_app_r _ _ _ C1)) in H.
  rewrite (contains_app_l _ _ _ (contains_app_r _ _ q C2)) in H.
  discriminate H.
Qed.

Lemma search_none_strip (url : string) :
  search_inmueble url = None -> search_inmueble (Py.strip url) = None.
Proof.
  intros H. destruct (strip_split url) as (p & q & Hs).
  destruct (search_inmueble (Py.strip url)) eqn:E; [|reflexivity].
  exfalso. rewrite Hs in H.
  apply (search_app_l p _ (search_app_r _ q ltac:(rewrite E; discriminate))), H.
Qed.

Lemma normalize_of_strip (url : string) :
  not_a_listing url = true \/ search_inmueble url = None ->
  normalize_listing_link (Py.strip url) = Py.strip url.
Proof.
  intros H. unfold normalize_listing_link.
  destruct (not_a_listing (Py.strip url)) eqn:G; [apply strip_idem|].
  destruct H as [H|H].
  - rewrite (not_a_listing_strip _ H) in G. discriminate.
  - rewrite (search_none_strip _ H). apply strip_idem.
Qed.

Lemma search_skip (c : ascii) (s : string) :
  String.prefix "/inmueble/" (String c s) = false ->
  search_inmueble (String c s) = search_inmueble s.
Proof.
  intros H. rewrite search_unfold. unfold match_inmueble_at. now rewrite H.
Qed.

Lemma match_at_here (t : string) :
  match_inmueble_at ("/inmueble/" ++ t) =
  match Py.take_digits t with EmptyString => None | ds => Some ds end.
Proof. unfold match_inmueble_at. rewrite prefix_append. reflexivity. Qed.

Lemma search_here (ds t : string) :
  ds <> "" -> Py.take_digits t = ds ->
  search_inmueble ("/inmueble/" ++ t) = Some ds.
Proof.
  intros Hne Ht. rewrite search_unfold, match_at_here, Ht.
  destruct ds; [congruence | reflexivity].
Qed.

Lemma search_canonical (ds : string) :
  ds <> "" -> Py.all_digits ds = true ->
  search_inmueble (CANONICAL_LISTING_URL ++ ds ++ "/") = Some ds.
Proof.
  intros Hne Hd.
  change (CANONICAL_LISTING_URL ++ ds ++ "/")
    with ("https://www.idealista.com" ++ ("/inmueble/" ++ (ds ++ "/"))).
  generalize (search_here ds (ds ++ "/") Hne (take_digits_slash _ Hd)).
  generalize ("/inmueble/" ++ (ds ++ "/")). intros X HX.
  cbn [String.append].
  do 25 (rewrite search_skip by reflexivity). exact HX.
Qed.

Lemma canonical_is_listing (ds : string) :
  not_a_listing (CANONICAL_LISTING_URL ++ ds ++ "/") = false.
Proof.
  unfold not_a_listing.
  assert (T : Py.truthy (CANONICAL_LISTING_URL ++ ds ++ "/") = true) by reflexivity.
  assert (C1 : Py.contains "idealista"
                 (Py.lower (CANONICAL_LISTING_URL ++ ds ++ "/")) = true).
  { rewrite lower_app. apply contains_app_r. vm_compute. reflexivity. }
  assert (C2 : Py.contains "/inmueble/" (CANONICAL_LISTING_URL ++ ds ++ "/") = true).
  { apply contains_app_r. vm_compute. reflexivity. }
  now rewrite T, C1, C2.
Qed.

Lemma normalize_of_canonical (ds : string) :
  ds <> "" -> Py.all_digits ds = true ->
  normalize_listing_link (CANONICAL_LISTING_URL ++ ds ++ "/")
  = CANONICAL_LISTING_URL ++ ds ++ "/".
Proof.
  intros Hne Hd. unfold normalize_listing_link.
  now rewrite canonical_is_listing, (search_canonical _ Hne Hd).
Qed.

Lemma normalize_idempotent (url : string) :
  normalize_listing_link (normalize_listing_link url) = normalize_listing_link url.
Proof.
  unfold normalize_listing_link at 2 3.
  destruct (not_a_listing url) eqn:G.
  - apply normalize_of_strip. now left.
  - destruct (search_inmueble url) as [ds|] eqn:E.
    + destruct (search_some _ _ E) as (? & ? & _).
      now apply normalize_of_canonical.
    + apply normalize_of_strip. now right.
Qed.

(** On links that pass the guard, the result only depends on the id. *)
Lemma normalize_of_listing (url ds : string) :
  Py.contains "idealista" (Py.lower url) = true ->
  search_inmueble url = Some ds ->
  normalize_listing_link url = CANONICAL_LISTING_URL ++ ds ++ "/".
Proof.
  intros C E. destruct (search_some _ _ E) as (_ & _ & C2).
  unfold normalize_listing_link, not_a_listing.
  rewrite C, C2, E.
  destruct url; [discriminate C2 | reflexivity].
Qed.

End Canonical.

(* ===================================================================== *)
(** * Reasoning rules for the effect monad *)
(* ===================================================================== *)

Section Rules.
Import Eff Spec.
Local Open Scope eff_scope.

Context {A B : Type}.
Implicit Types (Q : event -> Prop) (E : exn -> Prop).

Lemma sat_ret Q E (R : A -> Prop) (a : A) : R a -> sat Q E R (ret a).
Proof. intros H s. exists []. simpl. rewrite app_nil_r. auto. Qed.

Lemma sat_throw Q E (R : A -> Prop) (e : exn) : E e -> sat Q E R (throw e).
Proof. intros H s. exists []. simpl. rewrite app_nil_r. auto. Qed.

Lemma sat_bind Q E (R1 : A -> Prop) (R : B -> Prop) (m : M A) (k : A -> M B) :
  sat Q E R1 m -> (forall a, R1 a -> sat Q E R (k a)) -> sat Q E R (bind m k).
Proof.
  intros Hm Hk s. unfold bind.
  destruct (Hm s) as (ev1 & T1 & F1 & P1).
  destruct (m s) as [s1 [e|a]]; simpl in *.
  - exists ev1. auto.
  - destruct (Hk a P1 s1) as (ev2 & T2 & F2 & P2).
    exists (ev1 ++ ev2)%list. rewrite T2, T1, app_assoc.
    split; [reflexivity|]. split; [apply Forall_app; auto | exact P2].
Qed.

Lemma sat_weaken Q Q' E E' (R R' : A -> Prop) (m : M A) :
  sat Q E R m ->
  (forall e, Q e -> Q' e) -> (forall e, E e -> E' e) -> (forall a, R a -> R' a) ->
  sat Q' E' R' m.
Proof.
  intros Hm HQ HE HR s. destruct (Hm s) as (ev & T & F & P).
  exists ev. split; [exact T|]. split.
  - eapply Forall_impl; [exact F | exact HQ].
  - destruct (snd (m s)); auto.
Qed.

Lemma sat_try Q E E' (R : A -> Prop) (m : M A) :
  sat Q E R m ->
  sat Q E' (fun r => match r with inl e => E e | inr a => R a end) (try m).
Proof.
  intros Hm s. destruct (Hm s) as (ev & T & F & P).
  exists ev. unfold try. destruct (m s) as [s' r]; simpl in *. auto.
Qed.

End Rules.

Section RulesUnit.
Import Eff Spec.

Lemma sat_log (Q : event -> Prop) (E : exn -> Prop) (R : unit -> Prop) (e : event) :
  Q e -> R tt -> sat Q E R (log e).
Proof. intros H1 H2 s. exists [e]. simpl. auto. Qed.

Lemma sat_navigate (Q : event -> Prop) (E : exn -> Prop) W t url :
  Q (EvFetch t url) -> sat Q E (fun _ => True) (navigate W t url).
Proof. intros H s. exists [EvFetch t url]. simpl. auto. Qed.

End RulesUnit.

(* ===================================================================== *)
(** * The fetch client and the retry policy *)
(* ===================================================================== *)

Section FetcherFacts.
Import Eff Fetcher Spec.
Local Open Scope eff_scope.

Variable W : World.

Lemma fetch_html_run kw t url s :
  fetch_html W kw t url s
  = (after_fetch s t url, fetch_result W kw (browser W url (calls s))).
Proof.
  unfold fetch_result, fetch_html, approach_of, _fetch_html_selenium_sync,
    fetch_html_with_page, fetch_html_playwright, bind, navigate, after_fetch.
  cbn [settings browser].
  destruct (kw_driver kw);
    [simpl; destruct (browser W url (calls s)); reflexivity|].
  match goal with |- context [Approaches.is_selenium_like ?a && _] =>
    destruct (Approaches.is_selenium_like a && negb (kw_page kw));
      [simpl; destruct (browser W url (calls s)); reflexivity|];
    destruct (kw_page kw);
      [simpl; destruct (browser W url (calls s)); reflexivity|];
    destruct (String.eqb a "playwright_cdp"
              && Approaches.opt_truthy (Approaches.CHROME_CDP_URL (settings W)))
  end; simpl; destruct (browser W url (calls s)); reflexivity.
Qed.

Lemma last_default (l : list Z) (w d : Z) : last l = Some w -> List.last l d = w.
Proof.
  induction l as [|x l IH]; [discriminate|].
  destruct l as [|y l]; [intros [= ->]; reflexivity|].
  intros H. apply IH in H. exact H.
Qed.

Lemma backoff_wait_run (backoff_sec : list Z) (i : nat) s :
  backoff_sec <> [] ->
  backoff_wait backoff_sec (Z.of_nat i) s = (s, inr (clamped backoff_sec i)).
Proof.
  intros Hne. unfold backoff_wait, clamped. rewrite Nat2Z.id.
  destruct (Z.of_nat i <? Z.of_nat (length backoff_sec)) eqn:L.
  - apply Z.ltb_lt in L.
    destruct (backoff_sec !! i) as [w|] eqn:Lk.
    + rewrite (nth_lookup_Some _ _ _ _ Lk). reflexivity.
    + apply lookup_ge_None in Lk. lia.
  - apply Z.ltb_ge in L.
    destruct (last backoff_sec) as [w|] eqn:La.
    + rewrite nth_overflow by lia. rewrite (last_default _ _ _ La). reflexivity.
    + apply last_None in La. contradiction.
Qed.

Lemma backoff_wait_empty (attempt : Z) s :
  backoff_wait [] attempt s = (s, inl IndexError).
Proof.
  unfold backoff_wait. cbn [length last lookup list_lookup].
  destruct (attempt <? Z.of_nat 0); [|reflexivity].
  destruct (Z.to_nat attempt); reflexivity.
Qed.

Section RetryFacts.
Variables (kw : fetch_kwargs) (t : target) (url : string).
Variables (max_retries : Z) (backoff_sec : list Z).
Hypothesis schedule_nonempty : backoff_sec <> [].

Abbreviation outcome s j := (fetch_result W kw (browser W url (calls s + j))).
Abbreviation failed := (failed_attempts t url max_retries backoff_sec).

Lemma between_attempts_run (i : nat) s :
  between_attempts max_retries backoff_sec (Z.of_nat i) s
  = ({| calls := calls s;
        trace := (trace s ++
                  if Z.of_nat i <? max_retries - 1
                  then [EvSleep (clamped backoff_sec i)] else [])%list |},
     inr tt).
Proof.
  unfold between_attempts.
  destruct (Z.of_nat i <? max_retries - 1).
  - unfold bind. rewrite backoff_wait_run by assumption. reflexivity.
  - unfold ret. rewrite app_nil_r. destruct s; reflexivity.
Qed.

Lemma retry_step (todo i : nat) last s :
  retry_from W kw t url max_retries backoff_sec (S todo) (Z.of_nat i) last s
  = match fetch_result W kw (browser W url (calls s)) with
    | inr (html, status) =>
        if status =? 200 then (after_fetch s t url, inr (html, status))
        else
          retry_from W kw t url max_retries backoff_sec todo (Z.of_nat (S i))
            (html, status)
            {| calls := S (calls s);
               trace := (trace s ++ failed 1%nat i)%list |}
    | inl _ =>
        retry_from W kw t url max_retries backoff_sec todo (Z.of_nat (S i))
          ("", 0)
          {| calls := S (calls s);
             trace := (trace s ++ failed 1%nat i)%list |}
    end.
Proof.
  cbn [retry_from]. unfold bind at 1, try.
  rewrite fetch_html_run.
  replace (Z.of_nat i + 1) with (Z.of_nat (S i)) by lia.
  assert (Hb : forall m : M (string * Z),
    bind (between_attempts max_retries backoff_sec (Z.of_nat i)) (fun _ => m)
      (after_fetch s t url)
    = m {| calls := S (calls s); trace := (trace s ++ failed 1%nat i)%list |}).
  { intros m. unfold bind. rewrite between_attempts_run. simpl.
    rewrite app_nil_r, <- app_assoc. reflexivity. }
  destruct (fetch_result W kw (browser W url (calls s))) as [e'|[h st]].
  - apply Hb.
  - destruct (st =? 200); [reflexivity | apply Hb].
Qed.

Lemma failed_snoc (k i : nat) :
  (failed 1%nat i ++ failed k (S i))%list = failed (S k) i.
Proof. cbn [failed_attempts]. rewrite app_nil_r. reflexivity. Qed.

Lemma retry_exhausted (todo : nat) : forall (i : nat) last s,
  (forall j, (j < todo)%nat -> is_200 (outcome s j) = false) ->
  exists s',
    retry_from W kw t url max_retries backoff_sec todo (Z.of_nat i) last s
    = (s', inr match todo with
               | O => last
               | S k => match outcome s k with inr r => r | inl _ => ("", 0) end
               end)
    /\ calls s' = (calls s + todo)%nat
    /\ trace s' = (trace s ++ failed todo i)%list.
Proof.
  induction todo as [|todo IH]; intros i last s H.
  - exists s. cbn [retry_from failed_attempts]. rewrite app_nil_r, Nat.add_0_r. auto.
  - rewrite retry_step.
    pose proof (H O ltac:(lia)) as H0. rewrite Nat.add_0_r in H0.
    set (s1 := {| calls := S (calls s); trace := (trace s ++ failed 1%nat i)%list |}).
    assert (Hs1 : forall j, outcome s1 j = outcome s (S j)).
    { intros j. unfold s1. cbn [calls]. now rewrite Nat.add_succ_r. }
    assert (H1 : forall j, (j < todo)%nat -> is_200 (outcome s1 j) = false).
    { intros j Hj. rewrite Hs1. apply H. lia. }
    destruct (fetch_result W kw (browser W url (calls s))) as [e|[h st]] eqn:Eo.
    + destruct (IH (S i) ("", 0) s1 H1) as (s' & R & C & T).
      exists s'. rewrite R. split; [|split].
      * destruct todo as [|k]; [|rewrite Hs1; reflexivity].
        rewrite Nat.add_0_r, Eo. reflexivity.
      * rewrite C. unfold s1. cbn [calls]. lia.
      * rewrite T. unfold s1. cbn [trace]. rewrite <- app_assoc, failed_snoc. reflexivity.
    + cbn [is_200] in H0. rewrite H0.
      destruct (IH (S i) (h, st) s1 H1) as (s' & R & C & T).
      exists s'. rewrite R. split; [|split].
      * destruct todo as [|k]; [|rewrite Hs1; reflexivity].
        rewrite Nat.add_0_r, Eo. reflexivity.
      * rewrite C. unfold s1. cbn [calls]. lia.
      * rewrite T. unfold s1. cbn [trace]. rewrite <- app_assoc, failed_snoc. reflexivity.
Qed.

Lemma retry_first_200 (k : nat) : forall (todo i : nat) last s h,
  (k < todo)%nat ->
  outcome s k = inr (h, 200) ->
  (forall j, (j < k)%nat -> is_200 (outcome s j) = false) ->
  exists s',
    retry_from W kw t url max_retries backoff_sec todo (Z.of_nat i) last s
    = (s', inr (h, 200))
    /\ calls s' = (calls s + S k)%nat
    /\ trace s' = (trace s ++ failed k i ++ [EvFetch t url])%list.
Proof.
  induction k as [|k IH]; intros todo i last s h Hk Ho H;
    (destruct todo as [|todo]; [lia|]); rewrite retry_step.
  - rewrite Nat.add_0_r in Ho. rewrite Ho. cbn [Z.eqb Pos.eqb].
    exists (after_fetch s t url). cbn. split; [reflexivity|]. split; [lia | reflexivity].
  - pose proof (H O ltac:(lia)) as H0. rewrite Nat.add_0_r in H0.
    set (s1 := {| calls := S (calls s); trace := (trace s ++ failed 1%nat i)%list |}).
    assert (Hs1 : forall j, outcome s1 j = outcome s (S j)).
    { intros j. unfold s1. cbn [calls]. now rewrite Nat.add_succ_r. }
    assert (H1 : forall j, (j < k)%nat -> is_200 (outcome s1 j) = false).
    { intros j Hj. rewrite Hs1. apply H. lia. }
    assert (Ho1 : outcome s1 k = inr (h, 200)) by (rewrite Hs1; exact Ho).
    assert (Fin : forall last',
      exists s',
        retry_from W kw t url max_retries backoff_sec todo (Z.of_nat (S i)) last' s1
        = (s', inr (h, 200))
        /\ calls s' = (calls s + S (S k))%nat
        /\ trace s' = (trace s ++ failed (S k) i ++ [EvFetch t url])%list).
    { intros last'.
      destruct (IH todo (S i) last' s1 h ltac:(lia) Ho1 H1) as (s' & R & C & T).
      exists s'. split; [exact R|]. split.
      - rewrite C. unfold s1. cbn [calls]. lia.
      - rewrite T. unfold s1. cbn [trace].
        rewrite <- (failed_snoc k i), <- !app_assoc. reflexivity. }
    destruct (fetch_result W kw (browser W url (calls s))) as [e|[h0 st]] eqn:Eo.
    + apply Fin.
    + cbn [is_200] in H0. rewrite H0. apply Fin.
Qed.

Lemma fetches_of_app (a b : list event) :
  fetches_of (a ++ b) = (fetches_of a + fetches_of b)%nat.
Proof.
  induction a as [|e a IH]; [reflexivity|].
  destruct e; cbn [app fetches_of]; rewrite IH; reflexivity.
Qed.

Lemma sleeps_of_app (a b : list event) :
  sleeps_of (a ++ b) = (sleeps_of a ++ sleeps_of b)%list.
Proof.
  induction a as [|e a IH]; [reflexivity|].
  destruct e; cbn [app sleeps_of]; rewrite IH; reflexivity.
Qed.

Lemma fetches_failed (k i : nat) : fetches_of (failed k i) = k.
Proof.
  revert i. induction k as [|k IH]; intros i; [reflexivity|].
  cbn [failed_attempts fetches_of]. rewrite fetches_of_app, IH.
  destruct (Z.of_nat i <? max_retries - 1); reflexivity.
Qed.

Lemma sleeps_failed_all (k : nat) : forall i,
  Z.of_nat (i + k) <= max_retries - 1 ->
  sleeps_of (failed k i) = map (clamped backoff_sec) (seq i k).
Proof.
  induction k as [|k IH]; intros i H; [reflexivity|].
  cbn [failed_attempts sleeps_of seq map].
  destruct (Z.of_nat i <? max_retries - 1) eqn:L; [|apply Z.ltb_ge in L; lia].
  cbn [app sleeps_of]. rewrite IH by lia. reflexivity.
Qed.

Lemma sleeps_failed_last (k : nat) : forall i,
  Z.of_nat (i + S k) = max_retries ->
  sleeps_of (failed (S k) i) = map (clamped backoff_sec) (seq i k).
Proof.
  induction k as [|k IH]; intros i H.
  - cbn [failed_attempts sleeps_of seq map].
    destruct (Z.of_nat i <? max_retries - 1) eqn:L; [apply Z.ltb_lt in L; lia|].
    reflexivity.
  - rewrite <- (failed_snoc (S k) i), sleeps_of_app, IH by lia.
    cbn [failed_attempts sleeps_of seq map].
    destruct (Z.of_nat i <? max_retries - 1) eqn:L; [|apply Z.ltb_ge in L; lia].
    reflexivity.
Qed.

End RetryFacts.
End FetcherFacts.

Section RetryContract.
Import Eff Fetcher Spec.

Lemma first_true_or_none (f : nat -> bool) (n : nat) :
  (exists k, (k < n)%nat /\ f k = true /\ forall j, (j < k)%nat -> f j = false)
  \/ (forall j, (j < n)%nat -> f j = false).
Proof.
  induction n as [|n [(k & Hk & Hf & Hb)|IH]].
  - right. intros j Hj. lia.
  - left. exists k. repeat split; [lia | assumption | assumption].
  - destruct (f n) eqn:Fn.
    + left. exists n. repeat split; [lia | assumption | assumption].
    + right. intros j Hj. destruct (decide (j = n)) as [->|]; [assumption|].
      apply IH. lia.
Qed.

Lemma is_200_inv (r : exn + (string * Z)) :
  is_200 r = true -> exists h, r = inr (h, 200).
Proof.
  destruct r as [e|[h st]]; cbn [is_200]; [discriminate|].
  intros H. apply Z.eqb_eq in H. subst. eauto.
Qed.

Variable W : World.
Variables (kw : fetch_kwargs) (t : target) (url : string).

Lemma retry_total (max_retries : Z) (backoff_sec : list Z) (s : io) :
  backoff_sec <> [] ->
  let n := Z.to_nat max_retries in
  let outcome j := fetch_result W kw (browser W url (calls s + j)) in
  let final := fetch_html_with_retry W kw t url max_retries backoff_sec s in
  exists res evs,
    snd final = inr res /\ trace (fst final) = (trace s ++ evs)%list /\
    (forall k h, (k < n)%nat -> outcome k = inr (h, 200) ->
       (forall j, (j < k)%nat -> is_200 (outcome j) = false) ->
       res = (h, 200) /\ fetches_of evs = S k /\
       sleeps_of evs = map (clamped backoff_sec) (seq 0 k)) /\
    ((forall j, (j < n)%nat -> is_200 (outcome j) = false) ->
       res = match n with
             | O => ("", 0)
             | S k => match outcome k with inr r => r | inl _ => ("", 0) end
             end /\
       fetches_of evs = n /\
       sleeps_of evs = map (clamped backoff_sec) (seq 0 (n - 1))).
Proof.
  intros Hne n outcome final.
  destruct (first_true_or_none (fun j => is_200 (outcome j)) n)
    as [(k & Hk & Hf & Hb)|Hnone].
  - destruct (is_200_inv _ Hf) as [h Hh].
    destruct (retry_first_200 W kw t url max_retries backoff_sec Hne
                k n O ("", 0) s h Hk Hh Hb) as (s' & R & C & T).
    change (Z.of_nat 0) with 0 in R.
    exists (h, 200), (failed_attempts t url max_retries backoff_sec k 0 ++ [EvFetch t url])%list.
    unfold final, fetch_html_with_retry. fold n. rewrite R.
    split; [reflexivity|]. split; [exact T|]. split.
    + intros k' h' Hk' Hh' Hb'.
      assert (k' = k) as ->.
      { destruct (lt_eq_lt_dec k' k) as [[L|L]|L]; [|exact L|].
        - specialize (Hb k' L). cbv beta in Hb. rewrite Hh' in Hb.
          discriminate Hb.
        - specialize (Hb' k L). rewrite Hh in Hb'. discriminate Hb'. }
      rewrite Hh in Hh'. injection Hh' as <-.
      split; [reflexivity|].
      rewrite fetches_of_app, sleeps_of_app, fetches_failed.
      rewrite sleeps_failed_all by lia.
      cbn [fetches_of sleeps_of]. rewrite app_nil_r. split; [lia | reflexivity].
    + intros Hall. specialize (Hall k Hk). cbv beta in Hf. congruence.
  - destruct (retry_exhausted W kw t url max_retries backoff_sec Hne
                n O ("", 0) s Hnone) as (s' & R & C & T).
    change (Z.of_nat 0) with 0 in R.
    eexists _, (failed_attempts t url max_retries backoff_sec n 0).
    unfold final, fetch_html_with_retry. fold n. rewrite R.
    split; [reflexivity|]. split; [exact T|]. split.
    + intros k h Hk Hh _. specialize (Hnone k Hk). cbv beta in Hnone.
      rewrite Hh in Hnone. cbn in Hnone. discriminate.
    + intros _. split; [reflexivity|]. split; [apply fetches_failed|].
      destruct n as [|k] eqn:En; [reflexivity|].
      rewrite sleeps_failed_last by lia.
      replace (S k - 1)%nat with k by lia. reflexivity.
Qed.

End RetryContract.

Section FetcherSat.
Import Eff Fetcher Spec.
Local Open Scope eff_scope.

Variable W : World.
Variable Q : event -> Prop.
Variables (kw : fetch_kwargs) (t : target) (url : string).
Variable R : string * Z -> Prop.
Hypothesis fetch_ok : Q (EvFetch t url).
Hypothesis sleep_ok : forall w, Q (EvSleep w).
Hypothesis fetched_ok : forall o r, fetch_result W kw o = inr r -> R r.

Lemma sat_fetch_html :
  sat Q (fun _ => True) R (fetch_html W kw t url).
Proof.
  intros s. rewrite fetch_html_run. exists [EvFetch t url].
  split; [reflexivity|]. split; [auto|]. cbn [snd].
  destruct (fetch_result W kw (browser W url (calls s))) eqn:Eo; [exact I|].
  eapply fetched_ok, Eo.
Qed.

Lemma sat_backoff_wait (backoff_sec : list Z) (attempt : Z) :
  sat Q (fun _ => backoff_sec = []) (fun _ => True) (backoff_wait backoff_sec attempt).
Proof.
  unfold backoff_wait.
  destruct (attempt <? Z.of_nat (length backoff_sec)) eqn:L.
  - destruct (backoff_sec !! Z.to_nat attempt) eqn:Lk; [now apply sat_ret|].
    apply sat_throw. apply Z.ltb_lt in L. apply lookup_ge_None in Lk.
    destruct backoff_sec; [reflexivity | cbn [length] in *; lia].
  - destruct (last backoff_sec) eqn:La; [now apply sat_ret|].
    apply sat_throw. now apply last_None.
Qed.

Lemma sat_between_attempts (max_retries : Z) (backoff_sec : list Z) (attempt : Z) :
  sat Q (fun _ => backoff_sec = []) (fun _ => True)
      (between_attempts max_retries backoff_sec attempt).
Proof.
  unfold between_attempts. destruct (attempt <? max_retries - 1).
  - eapply sat_bind; [apply sat_backoff_wait|].
    intros w _. apply sat_log; auto.
  - now apply sat_ret.
Qed.

Lemma sat_retry_from (max_retries : Z) (backoff_sec : list Z) (todo : nat) :
  R ("", 0) ->
  forall attempt last, R last ->
  sat Q (fun _ => backoff_sec = []) R
      (retry_from W kw t url max_retries backoff_sec todo attempt last).
Proof.
  intros R0. induction todo as [|todo IH]; intros attempt last Hlast.
  - now apply sat_ret.
  - cbn [retry_from]. eapply sat_bind.
    + apply sat_try with (E := fun _ => True). apply sat_fetch_html.
    + intros [e|[html status]] Hr.
      * eapply sat_bind; [apply sat_between_attempts|].
        intros _ _. now apply IH.
      * destruct (status =? 200); [now apply sat_ret|].
        eapply sat_bind; [apply sat_between_attempts|].
        intros _ _. now apply IH.
Qed.

Lemma sat_fetch_html_with_retry (max_retries : Z) (backoff_sec : list Z) :
  R ("", 0) ->
  sat Q (fun _ => backoff_sec = []) R
      (fetch_html_with_retry W kw t url max_retries backoff_sec).
Proof. intros R0. now apply sat_retry_from. Qed.

End FetcherSat.

(* ===================================================================== *)
(** * The orchestrator *)
(* ===================================================================== *)

Section PageCount.
Import Orchestrator.

Lemma round_half_even_near (n d : Z) :
  0 < d -> - d <= 2 * (round_half_even n d * d - n) <= d.
Proof.
  intros Hd. unfold round_half_even.
  pose proof (Z.div_mod n d ltac:(lia)) as E.
  pose proof (Z.mod_pos_bound n d Hd) as B.
  destruct (2 * (n mod d) <? d) eqn:L1; [apply Z.ltb_lt in L1; nia|].
  apply Z.ltb_ge in L1.
  destruct (d <? 2 * (n mod d)) eqn:L2; [apply Z.ltb_lt in L2; nia|].
  apply Z.ltb_ge in L2.
  destruct (Z.even (n / d)); nia.
Qed.

(** What the division by 30 returns: an exponent below that of the
    dividend by 56 or 57, and a mantissa within a half of the scaled
    quotient. *)
Lemma true_divide_30_inv (a m e : Z) :
  30 < a -> true_divide a 30 = Some (m, e) ->
  e <= Z.log2 a - 56 /\
  (0 <= e -> - (30 * 2 ^ e) <= 2 * (m * (30 * 2 ^ e) - a) <= 30 * 2 ^ e) /\
  (e < 0 -> - 30 <= 2 * (m * 30 - a * 2 ^ (- e)) <= 30).
Proof.
  intros Ha. unfold true_divide.
  change (Z.log2 30) with 4.
  set (e1 := Z.log2 a - 4 - 52).
  destruct (scaled a 30 e1) as [n1 d1].
  set (e' := if n1 / d1 <? 2 ^ 52 then e1 - 1 else e1).
  assert (He' : e' <= e1) by (unfold e'; destruct (_ <? _); lia).
  clearbody e'.
  destruct (scaled a 30 e') as [n d] eqn:S.
  destruct (_ || _); [discriminate|].
  intros [= <- <-]. split; [unfold e1 in He'; lia|].
  unfold scaled in S. split; intros He.
  - destruct (Z.leb_spec 0 e'); [|lia]. injection S as <- <-.
    apply round_half_even_near.
    assert (0 < 2 ^ e') by (apply Z.pow_pos_nonneg; lia). lia.
  - destruct (Z.leb_spec 0 e'); [lia|]. injection S as <- <-.
    apply (round_half_even_near (a * 2 ^ (- e')) 30). lia.
Qed.

(** Where the division does not overflow, the page count is the one of
    the exact ceiling: the two ceilings agree below 1815, and from there
    on both are at least 60, the cap. *)
Lemma total_pages_exact (total_count max_pages v : Z) :
  total_pages total_count max_pages = Some v ->
  v = total_pages_of total_count max_pages.
Proof.
  unfold total_pages, total_pages_of, Config.IDEALISTA_MAX_PAGE.
  destruct (total_count >? 30) eqn:G; [|now intros [= <-]].
  apply Z.gtb_lt in G.
  destruct (true_divide total_count 30) as [[m e]|] eqn:T; [|discriminate].
  intros [= <-].
  destruct (true_divide_30_inv _ _ _ G T) as (He & Hpos & Hneg).
  pose proof (Z.log2_spec total_count ltac:(lia)) as [Llo Lhi].
  set (a := total_count) in *. set (la := Z.log2 a) in *.
  assert (Hc : 30 * (ceil_div30 a - 1) < a <= 30 * ceil_div30 a).
  { unfold ceil_div30.
    pose proof (Z.div_mod (a + 29) 30 ltac:(lia)).
    pose proof (Z.mod_pos_bound (a + 29) 30 ltac:(lia)). lia. }
  set (c := ceil_div30 a) in *.
  assert (Hbig : 60 <= math_ceil (m, e) -> 60 <= c ->
            Z.min 60 (Z.min (Z.max 1 (math_ceil (m, e))) max_pages)
            = Z.min 60 (Z.min (Z.max 1 c) max_pages)) by lia.
  unfold math_ceil in *.
  destruct (Z.leb_spec 0 e) as [Hge|Hlt].
  - specialize (Hpos Hge).
    assert (HE : 2 ^ e * 2 ^ 56 <= a).
    { rewrite <- Z.pow_add_r by lia.
      etransitivity; [|exact Llo]. apply Z.pow_le_mono_r; lia. }
    assert (0 < 2 ^ e) by (apply Z.pow_pos_nonneg; lia).
    apply Hbig; [nia | lia].
  - specialize (Hneg Hlt).
    set (P := 2 ^ (- e)) in *.
    assert (HP : 0 < P) by (apply Z.pow_pos_nonneg; lia).
    destruct (Z.le_gt_cases 1815 a) as [Hbig'|Hsmall].
    + apply Hbig; [|lia].
      apply Z.div_le_lower_bound; [exact HP|]. nia.
    + assert (Hla : la <= 10).
      { apply Z.lt_succ_r. apply (Z.pow_lt_mono_r_iff 2); [lia | lia|].
        change (Z.succ 10) with 11. lia. }
      assert (HP16 : 16 <= P).
      { unfold P. change 16 with (2 ^ 4). apply Z.pow_le_mono_r; lia. }
      assert (Hm : (c - 1) * P < m <= c * P) by nia.
      assert (Hdiv : (m + P - 1) / P = c).
      { symmetry. apply Z.div_unique with (r := m - 1 - (c - 1) * P); [lia|]. ring. }
      now rewrite Hdiv.
Qed.

(** The division overflows for no total below [2^1023]. *)
Lemma total_pages_defined (total_count max_pages : Z) :
  total_count < 2 ^ 1023 -> total_pages total_count max_pages <> None.
Proof.
  intros H. unfold total_pages.
  destruct (total_count >? 30) eqn:G; [|discriminate].
  apply Z.gtb_lt in G.
  destruct (true_divide total_count 30) as [x|] eqn:T; [discriminate|].
  exfalso. revert T. unfold true_divide. change (Z.log2 30) with 4.
  assert (Hl : Z.log2 total_count < 1023) by (apply Z.log2_lt_pow2; lia).
  set (e1 := Z.log2 total_count - 4 - 52).
  destruct (scaled total_count 30 e1) as [n1 d1].
  set (e' := if n1 / d1 <? 2 ^ 52 then e1 - 1 else e1).
  assert (He' : e' <= e1) by (unfold e'; destruct (_ <? _); lia).
  clearbody e'.
  destruct (scaled total_count 30 e') as [n d].
  destruct (Z.leb_spec 972 e'); [unfold e1 in *; lia|].
  destruct (Z.leb_spec 971 e'); [unfold e1 in *; lia|].
  discriminate.
Qed.

(** It overflows for every total from [30 * 2^1024] on: the quotient is
    then no double. *)
Lemma total_pages_overflows (total_count max_pages : Z) :
  30 * 2 ^ 1024 <= total_count -> total_pages total_count max_pages = None.
Proof.
  intros H. unfold total_pages.
  assert (P1024 : 0 < 2 ^ 1024) by (apply Z.pow_pos_nonneg; lia).
  destruct (Z.gtb_spec total_count 30) as [G|G]; [|lia].
  assert (Hl : 1028 <= Z.log2 total_count).
  { apply Z.log2_le_pow2; [lia|].
    replace (2 ^ 1028) with (2 ^ 4 * 2 ^ 1024)
      by (rewrite <- Z.pow_add_r; [reflexivity | lia | lia]).
    change (2 ^ 4) with 16. lia. }
  unfold true_divide. change (Z.log2 30) with 4.
  set (e1 := Z.log2 total_count - 4 - 52).
  assert (He1 : 972 <= e1) by (unfold e1; lia).
  unfold scaled at 1. destruct (Z.leb_spec 0 e1) as [_|]; [|lia].
  destruct (Z.ltb_spec (total_count / (30 * 2 ^ e1)) (2 ^ 52)) as [Q|Q].
  - destruct (Z.eq_dec e1 972) as [E|E].
    + exfalso. rewrite E in Q.
      assert (2 ^ 52 <= total_count / (30 * 2 ^ 972)); [|lia].
      apply Z.div_le_lower_bound.
      * assert (0 < 2 ^ 972) by (apply Z.pow_pos_nonneg; lia). lia.
      * replace (30 * 2 ^ 972 * 2 ^ 52) with (30 * 2 ^ 1024); [exact H|].
        rewrite <- Z.mul_assoc, <- Z.pow_add_r by lia. reflexivity.
    + destruct (scaled total_count 30 (e1 - 1)) as [n d].
      destruct (Z.leb_spec 972 (e1 - 1)); [reflexivity | lia].
  - destruct (scaled total_count 30 e1) as [n d].
    destruct (Z.leb_spec 972 e1); [reflexivity | lia].
Qed.

End PageCount.

Section OrchestratorFacts.
Import Parsers Eff Fetcher Orchestrator Spec.
Local Open Scope eff_scope.

Variable W : World.
Variables (base_url : string) (max_pages : Z) (fetch_details : bool).
Variable already_seen : gset string.
Variable kw : fetch_kwargs.
Variable on_restart_browser : bool.

Lemma link_set_link c l : link (set_link c l) = l.
Proof. reflexivity. Qed.

Lemma link_merge_detail card l detail :
  link (r_card (merge_detail W card l detail)) = l.
Proof.
  unfold merge_detail. cbn [r_card].
  destruct (d_features detail !! "rooms") as [[|x xs]|];
    destruct (d_features detail !! "sq_meters") as [[|y ys]|];
    repeat match goal with |- context [py_int W ?z] => destruct (py_int W z) end;
    destruct (Py.truthy (d_location detail)); reflexivity.
Qed.

Lemma dedupe_from_ok (cards : list ListingCard) : forall seen_links c,
  In c (dedupe_from already_seen seen_links cards) ->
  Export_.normalize_listing_link (link c) ∉ already_seen.
Proof.
  induction cards as [|c0 cards IH]; intros seen_links c; cbn [dedupe_from]; [tauto|].
  destruct (negb (Py.truthy (canonical_of c0))
            || bool_decide (canonical_of c0 ∈ already_seen)
            || bool_decide (canonical_of c0 ∈ seen_links)) eqn:G; [apply IH|].
  intros [<-|H]; [|eapply IH, H].
  apply orb_false_iff in G as [G _]. apply orb_false_iff in G as [G1 G2].
  apply bool_decide_eq_false in G2. apply negb_false_iff in G1.
  unfold canonical_of in *.
  destruct (Py.truthy (link c0)); [exact G2 | discriminate G1].
Qed.

Lemma dedupe_unique_ok (cards : list ListingCard) (c : ListingCard) :
  In c (_dedupe_unique already_seen cards) ->
  Export_.normalize_listing_link (link c) ∉ already_seen.
Proof. apply dedupe_from_ok. Qed.

Section Emitting.
Variables (Pf : Z -> Prop) (Pp : Z -> verdict -> Prop) (Pr : record -> Prop).
Variable Pd : Prop.

Abbreviation Q := (ev_ok Pf Pp Pr Pd).
Abbreviation results_ok := (fun c : closure => Forall Pr (results c)).

Lemma sat_emit (d : record) (c : closure) :
  Pr d -> results_ok c -> sat Q run_exn results_ok (emit W d c).
Proof.
  intros Hd Hc. unfold emit.
  assert (Hres : results_ok
            {| processed_links := processed_links c; results := results c ++ [d] |}).
  { cbn. apply Forall_app. auto. }
  destruct (on_record W) as [callback|]; [|now apply sat_ret].
  eapply sat_bind with (R1 := fun _ => True); [now apply sat_log|].
  intros _ _. destruct (callback d); [now apply sat_ret | apply sat_throw; now left].
Qed.

Lemma sat_search_cards (html : string) :
  sat Q run_exn (fun _ => True) (search_cards W html).
Proof.
  unfold search_cards.
  destruct (search_page_outcome _ _ _) as [e|[total_count page_cards]];
    [apply sat_throw; right; right; eauto | now apply sat_ret].
Qed.

Lemma sat_detail_of (html url : string) :
  sat Q run_exn (fun _ => True) (detail_of W html url).
Proof.
  unfold detail_of.
  destruct (detail_page_outcome _ _ _) as [e|detail];
    [apply sat_throw; right; right; eauto | now apply sat_ret].
Qed.

Lemma sat_emit_cards (cards : list ListingCard) : forall c,
  (forall card, In card cards ->
     Pr (card_record card (Export_.normalize_listing_link (link card)))) ->
  results_ok c ->
  sat Q run_exn results_ok (emit_cards W cards c).
Proof.
  induction cards as [|card rest IH]; intros c Hcards Hc; cbn [emit_cards].
  - now apply sat_ret.
  - eapply sat_bind; [apply sat_emit; [apply Hcards; now left | exact Hc]|].
    intros c' Hc'. apply IH; [|exact Hc'].
    intros x Hx. apply Hcards. now right.
Qed.

Hypothesis details_allowed : Pd.

Lemma sat_detail_fetch (url : string) :
  sat Q run_exn (fun _ => True)
      (fetch_html_with_retry W (with_delay kw 10) DetailPage url MAX_RETRIES BACKOFF_SEC).
Proof.
  apply sat_weaken
    with (Q := Q) (E := fun _ => BACKOFF_SEC = []) (R := fun _ : string * Z => True).
  - apply sat_fetch_html_with_retry; cbn; auto.
  - auto.
  - intros e H. discriminate H.
  - auto.
Qed.

Lemma sat_process_cards (cards : list ListingCard) : forall c,
  (forall card, In card cards ->
     Pr (card_record card (Export_.normalize_listing_link (link card)))) ->
  (forall card detail, In card cards ->
     Pr (merge_detail W card (Export_.normalize_listing_link (link card)) detail)) ->
  results_ok c ->
  sat Q run_exn results_ok (_process_cards W kw cards c).
Proof.
  induction cards as [|card rest IH]; intros c Hcard Hmerged Hc; cbn [_process_cards].
  - now apply sat_ret.
  - assert (Hrest : forall c', results_ok c' ->
              sat Q run_exn results_ok (_process_cards W kw rest c')).
    { intros c' Hc'. apply IH; [| |exact Hc'].
      - intros x Hx. apply Hcard. now right.
      - intros x d Hx. apply Hmerged. now right. }
    destruct (bool_decide _); [now apply Hrest|].
    eapply sat_bind; [apply sat_detail_fetch|].
    intros [html status] _.
    destruct (negb (status =? 200)).
    + eapply sat_bind; [apply sat_emit|].
      * apply Hcard. now left.
      * exact Hc.
      * intros c' Hc'. now apply Hrest.
    + eapply sat_bind; [apply sat_detail_of|].
      intros detail _.
      eapply sat_bind; [apply sat_emit|].
      * apply Hmerged. now left.
      * exact Hc.
      * intros c' Hc'. now apply Hrest.
Qed.

Hypothesis Pr_of_link : forall r, link_ok already_seen r -> Pr r.

Lemma sat_process_new (cards : list ListingCard) (c : closure) :
  results_ok c ->
  sat Q run_exn results_ok (process_new W already_seen kw cards c).
Proof.
  intros Hc. unfold process_new.
  set (to_process := List.filter _ _).
  assert (Hin : forall card, In card to_process ->
            Export_.normalize_listing_link (link card) ∉ already_seen).
  { intros card Hcard. apply filter_In in Hcard as [Hcard _].
    eapply dedupe_unique_ok, Hcard. }
  destruct to_process as [|c0 rest] eqn:E; [now apply sat_ret|].
  apply sat_process_cards; [| |exact Hc].
  - intros card Hcard. apply Pr_of_link. unfold link_ok, card_record.
    cbn [r_card]. rewrite link_set_link, normalize_idempotent. now apply Hin.
  - intros card detail Hcard. apply Pr_of_link. unfold link_ok.
    rewrite link_merge_detail, normalize_idempotent. now apply Hin.
Qed.

Section Body.
Variables (first_page_first_link : option string) (page_num : Z).
Hypothesis this_page : Pf page_num.

Lemma sat_page_tail (page_cards : list ListingCard) (ls : loop_state) :
  results_ok (cl ls) -> 0 <= consecutive_blocked ls ->
  sat Q run_exn (body_post Pr ls)
      (page_tail W already_seen kw first_page_first_link page_cards ls).
Proof.
  intros Hc Hb. unfold page_tail.
  destruct page_cards as [|c0 rest].
  - apply sat_ret. cbn. repeat split; auto; discriminate.
  - destruct (match first_page_first_link with Some _ => _ | None => _ end).
    + apply sat_ret. cbn. repeat split; auto; try discriminate; lia.
    + eapply sat_bind; [apply sat_process_new; exact Hc|].
      intros c' Hc'. apply sat_ret. cbn. repeat split; auto; try discriminate; lia.
Qed.

Lemma sat_fetch_page :
  sat Q run_exn (fun _ => True) (fetch_page W base_url kw page_num).
Proof.
  apply sat_weaken
    with (Q := Q) (E := fun _ => BACKOFF_SEC = []) (R := fun _ : string * Z => True).
  - apply sat_fetch_html_with_retry; cbn; auto.
  - auto.
  - intros e H. discriminate H.
  - auto.
Qed.

Lemma sat_page_body (ls : loop_state) :
  results_ok (cl ls) -> 0 <= consecutive_blocked ls ->
  sat Q run_exn (body_post Pr ls)
      (page_body W base_url already_seen kw on_restart_browser
         first_page_first_link page_num ls).
Proof.
  intros Hc Hb. unfold page_body.
  assert (Hfailed : sat Q run_exn (body_post Pr ls)
                      (ret (PageFailed, Continue, set_blocked ls 0))).
  { apply sat_ret. cbn. repeat split; auto; try discriminate; lia. }
  eapply sat_bind with (R1 := fun _ => True).
  { destruct (_ >? 0); [now apply sat_log | now apply sat_ret]. }
  intros _ _. eapply sat_bind; [apply sat_fetch_page|].
  intros [html status] _.
  destruct (negb (status =? 200)); [exact Hfailed|].
  eapply sat_bind; [apply sat_search_cards|].
  intros page_cards _.
  destruct (is_nil _ && is_blocked_page html); [|now apply sat_page_tail].
  eapply sat_bind with (R1 := fun _ => True).
  { destruct on_restart_browser; [now apply sat_log | now apply sat_ret]. }
  intros _ _. eapply sat_bind with (R1 := fun _ => True); [now apply sat_log|].
  intros _ _. eapply sat_bind; [apply sat_fetch_page|].
  intros [html' status'] _.
  destruct (negb (status' =? 200)); [exact Hfailed|].
  eapply sat_bind; [apply sat_search_cards|].
  intros page_cards' _.
  destruct (is_nil _ && is_blocked_page html'); [|now apply sat_page_tail].
  unfold CONSECUTIVE_BLOCKED_BEFORE_STOP.
  destruct (consecutive_blocked ls + 1 >=? 2) eqn:G; apply sat_ret; cbn;
    repeat split; auto; try discriminate; try lia.
Qed.

End Body.
End Emitting.

Section Loop.
Variable Pr : record -> Prop.
Variable Pd : Prop.
Hypothesis details_allowed : Pd.
Hypothesis Pr_of_link : forall r, link_ok already_seen r -> Pr r.
Variables (first_page_first_link : option string) (start_page : Z).

Abbreviation in_pages a len :=
  (fun q : Z => a <= q < a + Z.of_nat len /\ start_page <= q).
Abbreviation loop_ok a len :=
  (ev_ok (in_pages a len) (fun q _ => in_pages a len q) Pr Pd).
Abbreviation body_ok a :=
  (ev_ok (fun q : Z => q = a) (fun _ _ => False) Pr Pd).

Lemma body_ok_no_verdict a ev p v :
  Forall (body_ok a) ev -> In (EvPage p v) ev -> False.
Proof. intros F H. rewrite Forall_forall in F. apply (F _ (proj2 (list_elem_of_In _ _) H)). Qed.

Lemma body_ok_fetch a ev q u :
  Forall (body_ok a) ev -> In (EvFetch (SearchPage q) u) ev -> q = a.
Proof. intros F H. rewrite Forall_forall in F. apply (F _ (proj2 (list_elem_of_In _ _) H)). Qed.

Lemma loop_ok_verdict a len ev p v :
  Forall (loop_ok a len) ev -> In (EvPage p v) ev -> a <= p.
Proof.
  intros F H. rewrite Forall_forall in F.
  apply (F _ (proj2 (list_elem_of_In _ _) H)).
Qed.

Lemma body_ok_loop_ok a len :
  start_page <= a -> forall e, body_ok a e -> loop_ok a (S len) e.
Proof.
  intros Ha e. destruct e as [[q|] u|w| |r|q v]; cbn; auto; [|tauto].
  intros ->. lia.
Qed.

Lemma loop_ok_succ a len e : loop_ok (a + 1) len e -> loop_ok a (S len) e.
Proof. destruct e as [[q|] u|w| |r|q v]; cbn; auto; lia. Qed.

Lemma pages_loop_cons a rest ls s :
  pages_loop W base_url already_seen kw on_restart_browser
    first_page_first_link start_page (a :: rest) ls s
  = if a <? start_page then
      pages_loop W base_url already_seen kw on_restart_browser
        first_page_first_link start_page rest ls s
    else
      match page_body W base_url already_seen kw on_restart_browser
              first_page_first_link a ls s with
      | (s1, inl e) => (s1, inl e)
      | (s1, inr (v, k, ls1)) =>
          let s2 := {| calls := calls s1; trace := (trace s1 ++ [EvPage a v])%list |} in
          match k with
          | Break => (s2, inr ls1)
          | Continue =>
              pages_loop W base_url already_seen kw on_restart_browser
                first_page_first_link start_page rest ls1 s2
          end
      end.
Proof.
  cbn [pages_loop]. destruct (a <? start_page); [reflexivity|].
  unfold bind at 1.
  destruct (page_body W base_url already_seen kw on_restart_browser
              first_page_first_link a ls s) as [s1 [e|[[v k] ls1]]]; [reflexivity|].
  unfold bind, log. destruct k; reflexivity.
Qed.

Lemma pages_loop_spec (len : nat) : forall a ls s,
  Forall Pr (results (cl ls)) -> 0 <= consecutive_blocked ls ->
  let final :=
    pages_loop W base_url already_seen kw on_restart_browser
      first_page_first_link start_page (seqZ a (Z.of_nat len)) ls s in
  exists ev,
    trace (fst final) = (trace s ++ ev)%list /\
    Forall (loop_ok a len) ev /\
    match snd final with
    | inl e => run_exn e
    | inr ls' => Forall Pr (results (cl ls'))
    end /\
    (1 <= consecutive_blocked ls -> In (EvPage a PageBlocked) ev ->
     forall q u, In (EvFetch (SearchPage q) u) ev -> q <= a) /\
    (forall p, In (EvPage p PageBlocked) ev -> In (EvPage (p + 1) PageBlocked) ev ->
     forall q u, In (EvFetch (SearchPage q) u) ev -> q <= p + 1).
Proof.
  induction len as [|len IH]; intros a ls s Hres Hcb; cbv zeta.
  - exists []. cbn. rewrite app_nil_r. repeat split; auto; intros; contradiction.
  - rewrite seqZ_cons by lia.
    replace (Z.pred (Z.of_nat (S len))) with (Z.of_nat len) by lia.
    replace (Z.succ a) with (a + 1) by lia.
    rewrite pages_loop_cons.
    destruct (a <? start_page) eqn:Hskip.
    + destruct (IH (a + 1) ls s Hres Hcb) as (ev & T & F & P & _ & H4).
      exists ev. split; [exact T|]. split; [|split; [exact P|split; [|exact H4]]].
      * eapply Forall_impl; [exact F | apply loop_ok_succ].
      * intros _ Hin. pose proof (loop_ok_verdict _ _ _ _ _ F Hin). lia.
    + apply Z.ltb_ge in Hskip.
      destruct (sat_page_body (fun q => q = a) (fun _ _ => False) Pr Pd
                  details_allowed Pr_of_link first_page_first_link a eq_refl
                  ls Hres Hcb s) as (eva & Ta & Fa & Pa).
      destruct (page_body W base_url already_seen kw on_restart_browser
                  first_page_first_link a ls s) as [s1 [e|[[v k] ls1]]];
        cbn [fst snd] in Ta, Pa.
      * exists eva. cbn [fst snd]. split; [exact Ta|].
        split; [eapply Forall_impl; [exact Fa | now apply body_ok_loop_ok]|].
        split; [exact Pa|].
        split; intros; exfalso; eapply body_ok_no_verdict; eauto.
      * destruct Pa as (Hres1 & Hcb1 & Hblocked & Hfailed).
        cbv zeta.
        set (s2 := {| calls := calls s1; trace := (trace s1 ++ [EvPage a v])%list |}).
        assert (Fmid : Forall (loop_ok a (S len)) (eva ++ [EvPage a v])).
        { apply Forall_app. split.
          - eapply Forall_impl; [exact Fa | now apply body_ok_loop_ok].
          - constructor; [cbn; lia | constructor]. }
        destruct k.
        -- (* the loop goes on *)
           destruct (IH (a + 1) ls1 s2 Hres1 Hcb1) as (evr & Tr & Fr & Pr' & H3 & H4).
           exists ((eva ++ [EvPage a v]) ++ evr)%list.
           split; [rewrite Tr; unfold s2; cbn [trace]; rewrite Ta, <- !app_assoc; reflexivity|].
           split; [apply Forall_app; split;
                   [exact Fmid | eapply Forall_impl; [exact Fr | apply loop_ok_succ]]|].
           split; [exact Pr'|].
           assert (Hv : forall p w, In (EvPage p w) ((eva ++ [EvPage a v]) ++ evr) ->
                          (p = a /\ w = v) \/ (a + 1 <= p /\ In (EvPage p w) evr)).
           { intros p w Hin. rewrite !in_app_iff in Hin.
             destruct Hin as [[Hin|[Hin|[]]]|Hin].
             - exfalso. eapply body_ok_no_verdict; eauto.
             - injection Hin as <- <-. now left.
             - right. split; [eapply loop_ok_verdict; eauto | exact Hin]. }
           assert (Hf : forall q u, In (EvFetch (SearchPage q) u) ((eva ++ [EvPage a v]) ++ evr) ->
                          q = a \/ In (EvFetch (SearchPage q) u) evr).
           { intros q u Hin. rewrite !in_app_iff in Hin.
             destruct Hin as [[Hin|[Hin|[]]]|Hin].
             - left. eapply body_ok_fetch; eauto.
             - discriminate Hin.
             - now right. }
           split.
           ++ intros Hone Hin q u Hq.
              destruct (Hv _ _ Hin) as [[_ <-]|[Hp _]]; [|lia].
              destruct (Hblocked eq_refl) as [Hinc [_ Hstop]].
              assert (Continue = Break) by (apply Hstop; lia). discriminate.
           ++ intros p Hp Hp1 q u Hq.
              destruct (Hv _ _ Hp) as [[-> <-]|[Hpa Hpr]].
              ** destruct (Hv _ _ Hp1) as [[Hp' _]|[_ Hp1r]]; [lia|].
                 destruct (Hblocked eq_refl) as [Hinc _].
                 destruct (Hf _ _ Hq) as [->|Hqr]; [lia|].
                 eapply H3; eauto. lia.
              ** destruct (Hv _ _ Hp1) as [[Hp' _]|[_ Hp1r]]; [lia|].
                 destruct (Hf _ _ Hq) as [->|Hqr]; [lia|].
                 eapply H4; eauto.
        -- (* the loop stops *)
           exists (eva ++ [EvPage a v])%list. cbn [fst snd].
           split; [unfold s2; cbn [trace]; rewrite Ta, <- app_assoc; reflexivity|].
           split; [exact Fmid|]. split; [exact Hres1|].
           assert (Hf : forall q u, In (EvFetch (SearchPage q) u) (eva ++ [EvPage a v]) -> q = a).
           { intros q u Hin. rewrite in_app_iff in Hin.
             destruct Hin as [Hin|[Hin|[]]]; [eapply body_ok_fetch; eauto | discriminate Hin]. }
           assert (Hv : forall p w, In (EvPage p w) (eva ++ [EvPage a v]) -> p = a).
           { intros p w Hin. rewrite in_app_iff in Hin.
             destruct Hin as [Hin|[Hin|[]]];
               [exfalso; eapply body_ok_no_verdict; eauto | now injection Hin as <- _]. }
           split.
           ++ intros _ _ q u Hq. rewrite (Hf _ _ Hq). lia.
           ++ intros p Hp Hp1 q u Hq.
              pose proof (Hv _ _ Hp). pose proof (Hv _ _ Hp1). lia.
Qed.

End Loop.

Lemma seqZ_to_nat (m n : Z) : seqZ m n = seqZ m (Z.of_nat (Z.to_nat n)).
Proof. unfold seqZ. now rewrite Nat2Z.id. Qed.

(** The two ways [after_first_page] goes: the extraction or the division
    raises at once, or the run goes on with the cards and the page count
    of page 1. *)
Lemma after_first_page_cases (html : string) (s : io) :
  let m :=
    after_first_page W base_url max_pages fetch_details already_seen kw
      on_restart_browser html in
  (exists e, m s = (s, inl e) /\ (e = OverflowError \/ exists p, e = ParserError p)) \/
  (exists total_count page_cards,
     search_page_outcome (extraction W) html Config.IDEALISTA_DOMAIN
     = inr (total_count, page_cards) /\
     parse_search_page (extraction W) html Config.IDEALISTA_DOMAIN
     = (total_count, page_cards) /\
     total_pages total_count max_pages = Some (total_pages_from W max_pages html) /\
     m s = paginate W base_url fetch_details already_seen kw on_restart_browser
             page_cards (total_pages_from W max_pages html) s).
Proof.
  cbv zeta. unfold after_first_page, total_pages_from, parse_search_page.
  destruct (search_page_outcome (extraction W) html Config.IDEALISTA_DOMAIN)
    as [e|[total_count page_cards]]; [left; eexists; split; [reflexivity | eauto]|].
  cbn [fst].
  destruct (total_pages total_count max_pages) as [tp|] eqn:TP;
    [|left; eexists; split; [reflexivity | eauto]].
  rewrite <- (total_pages_exact _ _ _ TP).
  right. exists total_count, page_cards. auto.
Qed.

Section WholeRun.
Variable page_cards : list ListingCard.
Variable total_pages : Z.

Abbreviation start_page := (start_page_of already_seen total_pages).
Abbreviation page_ok :=
  (fun q : Z => fetch_details = true /\ 2 <= q <= total_pages /\ start_page <= q).
Abbreviation rec_ok :=
  (fun r : record =>
     link_ok already_seen r /\ (fetch_details = false -> card_only r)).
Abbreviation run_ok :=
  (ev_ok page_ok (fun q _ => page_ok q) rec_ok (fetch_details = true)).

Lemma sat_paginate :
  sat run_ok run_exn (Forall rec_ok)
      (paginate W base_url fetch_details already_seen kw on_restart_browser
         page_cards total_pages).
Proof.
  unfold paginate. cbv zeta.
  set (tp := total_pages).
  set (sp := start_page_of already_seen tp).
  destruct (negb fetch_details) eqn:Hn.
  - eapply sat_bind with (R1 := fun c => Forall rec_ok (results c)).
    + apply sat_emit_cards; [|constructor].
      intros card Hcard. split; [|reflexivity].
      unfold link_ok, card_record. cbn [r_card].
      rewrite link_set_link, normalize_idempotent.
      eapply dedupe_unique_ok, Hcard.
    + intros c Hc. now apply sat_ret.
  - apply negb_false_iff in Hn.
    assert (Hlink : forall r, link_ok already_seen r -> rec_ok r).
    { intros r Hr. split; [exact Hr | congruence]. }
    eapply sat_bind with (R1 := fun c => Forall rec_ok (results c)).
    + destruct (sp <=? 1).
      * apply sat_process_new; [exact Hn | exact Hlink | constructor].
      * apply sat_ret. constructor.
    + intros c Hc.
      eapply sat_bind with (R1 := fun ls => Forall rec_ok (results (cl ls))).
      * intros s. unfold range. rewrite seqZ_to_nat.
        destruct (pages_loop_spec rec_ok (fetch_details = true) Hn Hlink
                    (match page_cards with c0 :: _ => Some (link c0) | [] => None end)
                    sp (Z.to_nat (tp + 1 - 2)) 2
                    {| all_cards := page_cards; cl := c; consecutive_blocked := 0 |}
                    s Hc ltac:(cbn; lia)) as (ev & T & F & P & _).
        exists ev. split; [exact T|]. split; [|exact P].
        eapply Forall_impl; [exact F|].
        intros [[q|] u|w| |r|q v]; cbn; auto; intros; (split; [exact Hn | lia]).
      * intros ls Hls. now apply sat_ret.
Qed.

End WholeRun.

Lemma sat_after_first_page (html : string) :
  let total_pages := total_pages_from W max_pages html in
  sat (ev_ok (fun q : Z => fetch_details = true /\ 2 <= q <= total_pages /\
                           start_page_of already_seen total_pages <= q)
             (fun q _ => fetch_details = true /\ 2 <= q <= total_pages /\
                         start_page_of already_seen total_pages <= q)
             (fun r => link_ok already_seen r /\ (fetch_details = false -> card_only r))
             (fetch_details = true))
      run_exn
      (Forall (fun r => link_ok already_seen r /\
                        (fetch_details = false -> card_only r)))
      (after_first_page W base_url max_pages fetch_details already_seen kw
         on_restart_browser html).
Proof.
  cbv zeta. intros s.
  destruct (after_first_page_cases html s)
    as [(e & -> & He)|(total_count & page_cards & _ & _ & _ & ->)].
  - exists []. cbn [fst snd]. rewrite app_nil_r.
    split; [reflexivity|]. split; [constructor | right; exact He].
  - apply sat_paginate.
Qed.

Abbreviation quiet := (ev_ok (fun _ => False) (fun _ _ => False) (fun _ => True) True).
Abbreviation paging :=
  (ev_ok (fun q : Z => 2 <= q) (fun q _ => 2 <= q) (fun _ => True) True).

Lemma quiet_paging e : quiet e -> paging e.
Proof. destruct e as [[q|] u|w| |r|q v]; cbn; tauto. Qed.

Lemma quiet_no_verdict ev p v : Forall quiet ev -> In (EvPage p v) ev -> False.
Proof. intros F H. rewrite Forall_forall in F. apply (F _ (proj2 (list_elem_of_In _ _) H)). Qed.

Lemma quiet_no_page ev q u : Forall quiet ev -> In (EvFetch (SearchPage q) u) ev -> False.
Proof. intros F H. rewrite Forall_forall in F. apply (F _ (proj2 (list_elem_of_In _ _) H)). Qed.

(** Two blocked pages in a row end the pagination. *)
Lemma paginate_stop (page_cards : list ListingCard) (tp : Z) (s : io) :
  let final :=
    paginate W base_url fetch_details already_seen kw on_restart_browser
      page_cards tp s in
  exists ev,
    trace (fst final) = (trace s ++ ev)%list /\
    Forall paging ev /\
    (forall p, In (EvPage p PageBlocked) ev -> In (EvPage (p + 1) PageBlocked) ev ->
     forall q u, In (EvFetch (SearchPage q) u) ev -> q <= p + 1).
Proof.
  cbv zeta. unfold paginate. cbv zeta.
  set (sp := start_page_of already_seen tp).
  set (flink := match page_cards with c0 :: _ => Some (link c0) | [] => None end).
  destruct (negb fetch_details).
  - assert (Hsat : sat quiet (fun _ => True) (fun _ : list record => True)
                     (bind (emit_cards W (_dedupe_unique already_seen page_cards) closure0)
                           (fun c => ret (results c)))).
    { eapply sat_bind with (R1 := fun _ => True).
      - apply sat_weaken with (Q := quiet) (E := run_exn)
          (R := fun c => Forall (fun _ : record => True) (results c)); auto.
        apply sat_emit_cards; [intros; exact I | constructor].
      - intros c _. now apply sat_ret. }
    destruct (Hsat s) as (ev & T & F & _).
    exists ev. split; [exact T|]. split.
    + eapply Forall_impl; [exact F | exact quiet_paging].
    + intros p Hp. exfalso. eapply quiet_no_verdict; eauto.
  - set (m1 := if sp <=? 1
               then process_new W already_seen kw page_cards closure0
               else ret closure0).
    assert (Hsat : sat quiet (fun _ => True) (fun _ : closure => True) m1).
    { unfold m1. destruct (sp <=? 1); [|now apply sat_ret].
      apply sat_weaken with (Q := quiet) (E := run_exn)
        (R := fun c => Forall (fun _ : record => True) (results c)); auto.
      apply sat_process_new; [exact I | auto | constructor]. }
    destruct (Hsat s) as (ev1 & T1 & F1 & _).
    unfold bind at 1. destruct (m1 s) as [s1 [e|c]]; cbn [fst snd] in T1.
    + exists ev1. cbn [fst]. split; [exact T1|]. split.
      * eapply Forall_impl; [exact F1 | exact quiet_paging].
      * intros p Hp. exfalso. eapply quiet_no_verdict; eauto.
    + unfold range. rewrite seqZ_to_nat.
      destruct (pages_loop_spec (fun _ => True) True I (fun _ _ => I) flink sp
                  (Z.to_nat (tp + 1 - 2)) 2
                  {| all_cards := page_cards; cl := c; consecutive_blocked := 0 |}
                  s1 ltac:(cbn; apply Forall_forall; auto) ltac:(cbn; lia))
        as (ev2 & T2 & F2 & _ & _ & H5).
      unfold bind.
      destruct (pages_loop _ _ _ _ _ _ _ _ _ s1) as [s2 [e|ls]];
        cbn [fst snd ret] in *;
        (exists (ev1 ++ ev2)%list;
         split; [rewrite T2, T1, app_assoc; reflexivity|];
         split; [apply Forall_app; split;
                 [eapply Forall_impl; [exact F1 | exact quiet_paging]
                 |eapply Forall_impl; [exact F2|];
                  intros [[q|] u|w| |r|q v]; cbn; tauto]|];
         intros p Hp Hp1 q u Hq;
         rewrite in_app_iff in Hp, Hp1, Hq;
         destruct Hp as [Hp|Hp]; [exfalso; eapply quiet_no_verdict; eauto|];
         destruct Hp1 as [Hp1|Hp1]; [exfalso; eapply quiet_no_verdict; eauto|];
         destruct Hq as [Hq|Hq]; [exfalso; eapply quiet_no_page; eauto|];
         eapply H5; eauto).
Qed.

Lemma after_first_page_stop (html : string) (s : io) :
  let final :=
    after_first_page W base_url max_pages fetch_details already_seen kw
      on_restart_browser html s in
  exists ev,
    trace (fst final) = (trace s ++ ev)%list /\
    Forall paging ev /\
    (forall p, In (EvPage p PageBlocked) ev -> In (EvPage (p + 1) PageBlocked) ev ->
     forall q u, In (EvFetch (SearchPage q) u) ev -> q <= p + 1).
Proof.
  cbv zeta.
  destruct (after_first_page_cases html s)
    as [(e & -> & He)|(total_count & page_cards & _ & _ & _ & ->)].
  - exists []. cbn [fst]. rewrite app_nil_r.
    split; [reflexivity|]. split; [constructor|]. intros p [].
  - apply paginate_stop.
Qed.

Lemma first_page_spec (s : io) :
  exists s1 html status ev,
    fetch_first_page W base_url kw s = (s1, inr (html, status)) /\
    trace s1 = (trace s ++ ev)%list /\ Forall (page1_event base_url) ev.
Proof.
  assert (Hsat : sat (page1_event base_url) (fun _ => BACKOFF_SEC = [])
                   (fun _ : string * Z => True)
                   (fetch_first_page W base_url kw)).
  { apply sat_fetch_html_with_retry; auto; [now left | intros w; right; eauto]. }
  destruct (Hsat s) as (ev & T & F & P).
  unfold fetch_first_page in *.
  destruct (fetch_html_with_retry _ _ _ _ _ _ s) as [s1 [e|[html status]]];
    cbn [fst snd] in *; [discriminate P|].
  exists s1, html, status, ev. auto.
Qed.

Lemma run_unfold (s : io) :
  _run_with_fetcher W base_url max_pages fetch_details already_seen kw
    on_restart_browser s
  = match fetch_first_page W base_url kw s with
    | (s1, inl e) => (s1, inl e)
    | (s1, inr (html, status)) =>
        if first_page_blocked W html status then (s1, inl (FirstPageError status))
        else after_first_page W base_url max_pages fetch_details already_seen kw
               on_restart_browser html s1
    end.
Proof.
  unfold _run_with_fetcher, bind.
  destruct (fetch_first_page W base_url kw s) as [s1 [e|[html status]]]; [reflexivity|].
  destruct (first_page_blocked W html status); reflexivity.
Qed.

End OrchestratorFacts.

(* ===================================================================== *)
(** * The properties stated by the specification *)
(* ===================================================================== *)

Section Claims.
Import Parsers Eff Fetcher Orchestrator Spec Examples.
Import Export_.

(** C2, as stated, fails on site-relative links: a link that does not
    mention "idealista" is returned stripped and otherwise unchanged, so
    the locale prefix survives. *)
Lemma canon_relative_links_differ :
  normalize_listing_link "/inmueble/123/" <> normalize_listing_link "/en/inmueble/123/".
Proof. vm_compute. discriminate. Qed.

(** C2 (amended). Canonicalization is idempotent on every string; it is
    locale-invariant on links that mention "idealista": two such links in
    which the first [/inmueble/<digits>] carries the same id normalize to
    the same string, [https://www.idealista.com/inmueble/<id>/]; in
    particular the absolute links of listing 123 with no locale, with [en]
    and with [ca] all normalize to the same string.  A link that does not
    mention "idealista" is returned stripped of surrounding whitespace and
    otherwise unchanged. *)
Theorem canon_idempotent_locale_invariant :
  (forall x, normalize_listing_link (normalize_listing_link x) = normalize_listing_link x) /\
  (forall x y id,
     Py.contains "idealista" (Py.lower x) = true ->
     Py.contains "idealista" (Py.lower y) = true ->
     search_inmueble x = Some id -> search_inmueble y = Some id ->
     normalize_listing_link x = normalize_listing_link y /\
     normalize_listing_link x = CANONICAL_LISTING_URL ++ id ++ "/") /\
  normalize_listing_link "https://www.idealista.com/inmueble/123/"
    = "https://www.idealista.com/inmueble/123/" /\
  normalize_listing_link "https://www.idealista.com/en/inmueble/123/"
    = "https://www.idealista.com/inmueble/123/" /\
  normalize_listing_link "https://www.idealista.com/ca/inmueble/123/"
    = "https://www.idealista.com/inmueble/123/" /\
  (forall x,
     Py.contains "idealista" (Py.lower x) = false ->
     normalize_listing_link x = Py.strip x).
Proof.
  split; [exact normalize_idempotent|]. split.
  - intros x y id Cx Cy Sx Sy.
    rewrite (normalize_of_listing _ _ Cx Sx), (normalize_of_listing _ _ Cy Sy).
    split; reflexivity.
  - repeat split; try (vm_compute; reflexivity).
    intros x Hx. unfold normalize_listing_link, not_a_listing. rewrite Hx.
    cbn [negb]. now rewrite orb_true_r.
Qed.

Lemma canon_idempotent_locale_invariant_witness :
  normalize_listing_link "https://www.idealista.com/en/inmueble/123/?ref=list"
  = normalize_listing_link "HTTPS://WWW.IDEALISTA.COM/inmueble/123".
Proof.
  apply (proj1 (proj2 canon_idempotent_locale_invariant)
           "https://www.idealista.com/en/inmueble/123/?ref=list"
           "HTTPS://WWW.IDEALISTA.COM/inmueble/123" "123");
    vm_compute; reflexivity.
Defined.

(** C5, as stated, fails on a total too large for the division: the
    source divides with [/], on floats, and for a total of 400 digits the
    division raises OverflowError where the claim's formula gives 3. *)
Lemma total_pages_division_overflows :
  30 < 10 ^ 400 /\
  total_pages (10 ^ 400) 3 = None /\
  total_pages_of (10 ^ 400) 3 = 3.
Proof. vm_compute. repeat split; reflexivity. Qed.

(** C5 (amended). For a parsed total above 30 and below [2^1023] the
    total page count is [min(60, ceil(total/30), max_pages)], and for a
    total of at most 30 it is [min(60, max_pages)]; 1234 listings give
    [min(60, 42, max_pages)] and 12 listings [min(60, max_pages)].
    Whenever the computation returns a page count at all, it is the one
    of the formula on exact integers; from [30 * 2^1024] on it returns
    none, the float division raising OverflowError. *)
Theorem total_pages_computation (total_count max_pages : Z) :
  Config.IDEALISTA_MAX_PAGE = 60 /\
  (30 < total_count < 2 ^ 1023 ->
     exists c, 30 * (c - 1) < total_count <= 30 * c /\
       total_pages total_count max_pages
       = Some (Z.min Config.IDEALISTA_MAX_PAGE (Z.min c max_pages))) /\
  (total_count <= 30 ->
     total_pages total_count max_pages
     = Some (Z.min Config.IDEALISTA_MAX_PAGE max_pages)) /\
  total_pages 1234 max_pages
  = Some (Z.min Config.IDEALISTA_MAX_PAGE (Z.min 42 max_pages)) /\
  total_pages 12 max_pages = Some (Z.min Config.IDEALISTA_MAX_PAGE max_pages) /\
  (forall v, total_pages total_count max_pages = Some v ->
     v = total_pages_of total_count max_pages) /\
  (30 * 2 ^ 1024 <= total_count -> total_pages total_count max_pages = None).
Proof.
  split; [reflexivity|]. split; [|split; [|split; [|split; [|split]]]].
  - intros [H1 H2]. exists (ceil_div30 total_count).
    assert (Hc : 30 * (ceil_div30 total_count - 1) < total_count
                 <= 30 * ceil_div30 total_count).
    { unfold ceil_div30.
      pose proof (Z.div_mod (total_count + 29) 30 ltac:(lia)).
      pose proof (Z.mod_pos_bound (total_count + 29) 30 ltac:(lia)). lia. }
    split; [exact Hc|].
    destruct (total_pages total_count max_pages) as [v|] eqn:E;
      [|now apply total_pages_defined in E].
    rewrite (total_pages_exact _ _ _ E). unfold total_pages_of.
    destruct (Z.gtb_spec total_count 30); [|lia].
    f_equal. f_equal. f_equal. lia.
  - intros H. unfold total_pages.
    destruct (Z.gtb_spec total_count 30); [lia | reflexivity].
  - vm_compute total_pages at 1. reflexivity.
  - reflexivity.
  - apply total_pages_exact.
  - apply total_pages_overflows.
Qed.

Lemma total_pages_computation_witness :
  total_pages 1234 50 = Some 42 /\ total_pages 12 50 = Some 50.
Proof.
  destruct (total_pages_computation 1234 50) as (_ & H & _).
  destruct (H ltac:(split; [lia | reflexivity])) as (c & Hc & ->).
  destruct (total_pages_computation 12 50) as (_ & _ & H' & _).
  rewrite (H' ltac:(lia)).
  unfold Config.IDEALISTA_MAX_PAGE. split; f_equal; lia.
Defined.

(** C7. A page is classified blocked when its markup is empty or shorter
    than 500 characters, or when its lower-cased markup contains one of
    the fixed phrases ("enable JavaScript", "captcha", "datadome", ...);
    the bare word "challenge" is not one of them, and a page with a real
    total-count header is not treated as blocked: [looks_like_listing_page]
    holds of it and overrides the detector in the page-1 verdict. *)
Theorem block_classification :
  (forall html, Py.len html < 500 -> is_blocked_page html = true) /\
  (forall html ind,
     In ind block_indicators ->
     Py.contains (Py.lower ind) (Py.lower html) = true ->
     is_blocked_page html = true) /\
  (In "enable JavaScript" block_indicators /\ In "captcha" block_indicators /\
   In "datadome" block_indicators /\ ~ In "challenge" block_indicators) /\
  (forall W html,
     0 < fst (parse_search_page (extraction W) html "https://www.idealista.com") ->
     looks_like_listing_page (extraction W) html = true /\
     first_page_blocked W html 200 = false) /\
  (Py.contains "challenge" (Py.lower challenge_page) = true /\
   is_blocked_page challenge_page = false).
Proof.
  split; [|split; [|split; [|split]]].
  - intros html H. unfold is_blocked_page.
    apply Z.ltb_lt in H. rewrite H. now rewrite orb_true_r.
  - intros html ind Hin Hc. unfold is_blocked_page.
    destruct (negb (Py.truthy html) || (Py.len html <? 500)); [reflexivity|].
    apply existsb_exists. exists ind. auto.
  - cbn. repeat split; try tauto.
    intros H. repeat (destruct H as [H|H]; [discriminate H|]). exact H.
  - intros W html H.
    assert (L : looks_like_listing_page (extraction W) html = true).
    { unfold looks_like_listing_page.
      destruct (parse_search_page (extraction W) html "https://www.idealista.com")
        as [total cards]. cbn [fst] in H.
      destruct (total >? 0) eqn:G; [reflexivity | lia]. }
    split; [exact L|]. unfold first_page_blocked. rewrite L.
    cbn. now rewrite andb_false_r.
  - split; vm_compute; reflexivity.
Qed.

Lemma block_classification_witness :
  is_blocked_page "<html>Access denied</html>" = true /\
  is_blocked_page challenge_page = false.
Proof.
  split.
  - apply (proj1 block_classification). vm_compute. reflexivity.
  - apply (proj2 (proj2 (proj2 (proj2 block_classification)))).
Defined.

End Claims.

Section RetryClaims.
Import Parsers Eff Fetcher Orchestrator Spec Examples.

(** C3, as stated, fails when an attempt that returned a non-200 page is
    followed by attempts that raise: the page observed earlier is
    forgotten and [("", 0)] is returned, although not every attempt
    raised. *)
Lemma retry_forgets_observed_result :
  let W := world busy_then_crash None in
  let outs := [fetch_result W page_kwargs (busy_then_crash "" 0%nat);
               fetch_result W page_kwargs (busy_then_crash "" 1%nat)] in
  last_observed outs = Some ("<html>busy</html>", 503) /\
  snd (fetch_html_with_retry W page_kwargs DetailPage "" 2 [10; 30; 60] io0)
  = inr ("", 0) /\
  snd (fetch_html_with_retry W page_kwargs DetailPage "" 2 [10; 30; 60] io0)
  <> inr (claimed_exhausted_result outs).
Proof.
  cbv zeta. split; [|split].
  - vm_compute. reflexivity.
  - vm_compute. reflexivity.
  - vm_compute. discriminate.
Qed.

(** With an empty backoff schedule the clamp has no last element to fall
    back on, and the [IndexError] escapes. *)
Lemma retry_empty_schedule_raises :
  snd (fetch_html_with_retry (world always_raises None) page_kwargs DetailPage ""
         2 [] io0)
  = inl IndexError.
Proof. vm_compute. reflexivity. Qed.

(** C3 (amended). With a non-empty backoff schedule [fetch_html_with_retry]
    never raises.  It returns at the first attempt whose status is 200,
    after [k + 1] navigations and the [k] sleeps
    [backoff_sec[0], ..., backoff_sec[k-1]] (each clamped to the last entry
    of the schedule).  When none of the [max_retries] attempts yields 200
    it returns the outcome of the final attempt -- its [(html, status)] if
    that attempt returned, [("", 0)] if it raised or if there was no
    attempt -- after [max_retries] navigations and [max_retries - 1]
    sleeps; in particular a fetch function that always raises gives
    [("", 0)]. *)
Theorem fetch_with_retry_contract (W : World) (kw : fetch_kwargs) (t : target)
    (url : string) (max_retries : Z) (backoff_sec : list Z) (s : io) :
  backoff_sec <> [] ->
  let n := Z.to_nat max_retries in
  let outcome j := fetch_result W kw (browser W url (calls s + j)) in
  let final := fetch_html_with_retry W kw t url max_retries backoff_sec s in
  exists res evs,
    snd final = inr res /\ trace (fst final) = (trace s ++ evs)%list /\
    (forall k h, (k < n)%nat -> outcome k = inr (h, 200) ->
       (forall j, (j < k)%nat -> is_200 (outcome j) = false) ->
       res = (h, 200) /\ fetches_of evs = S k /\
       sleeps_of evs = map (clamped backoff_sec) (seq 0 k)) /\
    ((forall j, (j < n)%nat -> is_200 (outcome j) = false) ->
       res = match n with
             | O => ("", 0)
             | S k => match outcome k with inr r => r | inl _ => ("", 0) end
             end /\
       fetches_of evs = n /\
       sleeps_of evs = map (clamped backoff_sec) (seq 0 (n - 1))) /\
    ((forall j, (j < n)%nat -> outcome j = inl FetchError) ->
       res = ("", 0) /\ fetches_of evs = n /\
       length (sleeps_of evs) = (n - 1)%nat).
Proof.
  intros Hne n outcome final. subst n outcome final. cbv beta.
  destruct (retry_total W kw t url max_retries backoff_sec s Hne)
    as (res & evs & R & T & H200 & Hex).
  exists res, evs. split; [exact R|]. split; [exact T|].
  split; [exact H200|]. split; [exact Hex|].
  intros Hraise.
  destruct Hex as (Hres & Hf & Hs).
  { intros j Hj. rewrite (Hraise j Hj). reflexivity. }
  split; [|split; [exact Hf|]].
  - rewrite Hres. destruct (Z.to_nat max_retries) as [|k]; [reflexivity|].
    now rewrite (Hraise k ltac:(lia)).
  - rewrite Hs, length_map, length_seq. reflexivity.
Qed.

Lemma fetch_with_retry_contract_witness :
  let final :=
    fetch_html_with_retry (world always_raises None) page_kwargs DetailPage "u"
      3 [10; 30; 60] io0 in
  exists evs,
    snd final = inr ("", 0) /\ trace (fst final) = evs /\
    fetches_of evs = 3%nat /\ length (sleeps_of evs) = 2%nat.
Proof.
  destruct (fetch_with_retry_contract (world always_raises None) page_kwargs
              DetailPage "u" 3 [10; 30; 60] io0 ltac:(discriminate))
    as (res & evs & R & T & _ & _ & Hraise).
  destruct Hraise as (-> & F & S); [intros j _; reflexivity|].
  exists evs. repeat split; assumption.
Defined.

(** C10. On the Selenium path the status of a completed navigation is the
    constant 200, whatever the HTTP response was; a navigation that raises
    is seen by the callers of the retry policy as status 0, so the only
    statuses they observe are 200 and 0. *)
Theorem selenium_status_is_constant (W : World) (kw : fetch_kwargs) (t : target)
    (url : string) :
  kw_driver kw = true \/
  (Approaches.is_selenium_like (approach_of W kw) = true /\ kw_page kw = false) ->
  (forall resp_status page_source,
     fetch_result W kw (NavOk resp_status page_source) = inr (page_source, 200)) /\
  fetch_result W kw NavRaises = inl FetchError /\
  (forall s html status,
     snd (fetch_html W kw t url s) = inr (html, status) -> status = 200) /\
  (forall max_retries backoff_sec s html status,
     snd (fetch_html_with_retry W kw t url max_retries backoff_sec s)
     = inr (html, status) ->
     status = 200 \/ status = 0).
Proof.
  intros Hsel.
  assert (Hres : forall o,
            fetch_result W kw o
            = match o with
              | NavRaises => inl FetchError
              | NavOk _ src => inr (src, 200)
              end).
  { intros o. unfold fetch_result, fetch_html, approach_of in *.
    cbn [settings] in *.
    destruct (kw_driver kw); [destruct o; reflexivity|].
    destruct Hsel as [Hsel|[Ha Hp]]; [discriminate|].
    rewrite Ha, Hp. destruct o; reflexivity. }
  split; [intros; apply Hres|]. split; [apply Hres|]. split.
  - intros s html status. rewrite fetch_html_run, Hres. cbn [snd].
    destruct (browser W url (calls s)); [discriminate|]. now intros [= _ <-].
  - intros max_retries backoff_sec s html status H.
    assert (Hsat : sat (fun _ => True) (fun _ => backoff_sec = [])
                     (fun r : string * Z => snd r = 200 \/ snd r = 0)
                     (fetch_html_with_retry W kw t url max_retries backoff_sec)).
    { apply sat_fetch_html_with_retry; auto.
      intros o [h st]. rewrite Hres. destruct o; [discriminate|].
      intros [= _ <-]. now left. }
    destruct (Hsat s) as (ev & _ & _ & P). rewrite H in P. exact P.
Qed.

Lemma selenium_status_is_constant_witness :
  fetch_result (world always_forbidden None) driver_kwargs
    (NavOk (Some 403) "<html>Forbidden</html>")
  = inr ("<html>Forbidden</html>", 200).
Proof.
  apply (selenium_status_is_constant (world always_forbidden None) driver_kwargs
           DetailPage "").
  left. reflexivity.
Defined.

End RetryClaims.

Section RunClaims.
Import Parsers Eff Fetcher Orchestrator Spec Examples.
Import Export_.

Variable W : World.
Variables (base_url : string) (max_pages : Z) (fetch_details : bool).
Variable already_seen : gset string.
Variable kw : fetch_kwargs.
Variable on_restart_browser : bool.

Abbreviation the_run :=
  (_run_with_fetcher W base_url max_pages fetch_details already_seen kw
     on_restart_browser).

(** The events and the result of a whole run, in one statement. *)
Lemma run_spec (s : io) :
  exists s1 html status ev1,
    fetch_first_page W base_url kw s = (s1, inr (html, status)) /\
    trace s1 = (trace s ++ ev1)%list /\ Forall (page1_event base_url) ev1 /\
    if first_page_blocked W html status then
      the_run s = (s1, inl (FirstPageError status))
    else
      let tp := total_pages_from W max_pages html in
      let sp := start_page_of already_seen tp in
      exists ev2,
        trace (fst (the_run s)) = (trace s1 ++ ev2)%list /\
        Forall (ev_ok (fun q => fetch_details = true /\ 2 <= q <= tp /\ sp <= q)
                  (fun q _ => fetch_details = true /\ 2 <= q <= tp /\ sp <= q)
                  (fun r => link_ok already_seen r /\
                            (fetch_details = false -> card_only r))
                  (fetch_details = true)) ev2 /\
        (forall p, In (EvPage p PageBlocked) ev2 -> In (EvPage (p + 1) PageBlocked) ev2 ->
         forall q u, In (EvFetch (SearchPage q) u) ev2 -> q <= p + 1) /\
        match snd (the_run s) with
        | inl e => run_exn e
        | inr results =>
            Forall (fun r => link_ok already_seen r /\
                             (fetch_details = false -> card_only r)) results
        end.
Proof.
  destruct (first_page_spec W base_url kw s) as (s1 & html & status & ev1 & E1 & T1 & F1).
  exists s1, html, status, ev1. split; [exact E1|]. split; [exact T1|]. split; [exact F1|].
  rewrite run_unfold, E1.
  destruct (first_page_blocked W html status); [reflexivity|].
  cbv zeta.
  destruct (sat_after_first_page W base_url max_pages fetch_details already_seen kw
              on_restart_browser html s1) as (ev2 & T2 & F2 & P2).
  destruct (after_first_page_stop W base_url max_pages fetch_details already_seen kw
              on_restart_browser html s1) as (ev2' & T2' & _ & H2').
  assert (ev2' = ev2) as ->.
  { rewrite T2 in T2'. now apply app_inv_head in T2'. }
  exists ev2. auto.
Qed.

Lemma not_page1_record ev r :
  Forall (page1_event base_url) ev -> In (EvRecord r) ev -> False.
Proof.
  intros F H. rewrite Forall_forall in F.
  destruct (F _ (proj2 (list_elem_of_In _ _) H)) as [E|[w E]]; discriminate E.
Qed.

Lemma page1_fetch ev t u :
  Forall (page1_event base_url) ev -> In (EvFetch t u) ev -> t = SearchPage 1.
Proof.
  intros F H. rewrite Forall_forall in F.
  destruct (F _ (proj2 (list_elem_of_In _ _) H)) as [E|[w E]];
    [now injection E as -> _ | discriminate E].
Qed.

(** C4. Every record a run emits -- passed to [on_record] or returned in
    the result list -- has a link whose canonical form is not in the
    supplied SeenLinks set. *)
Theorem emitted_links_not_seen (s : io) :
  exists ev,
    trace (fst (the_run s)) = (trace s ++ ev)%list /\
    (forall r, In (EvRecord r) ev ->
       normalize_listing_link (link (r_card r)) ∉ already_seen) /\
    (forall results, snd (the_run s) = inr results ->
       forall r, In r results ->
       normalize_listing_link (link (r_card r)) ∉ already_seen).
Proof.
  destruct (run_spec s) as (s1 & html & status & ev1 & E1 & T1 & F1 & H).
  destruct (first_page_blocked W html status).
  - exists ev1. rewrite H. cbn [fst snd]. split; [exact T1|]. split.
    + intros r Hr. exfalso. eapply not_page1_record; eauto.
    + intros results Hres. discriminate Hres.
  - destruct H as (ev2 & T2 & F2 & _ & P2).
    exists (ev1 ++ ev2)%list. split; [rewrite T2, T1, app_assoc; reflexivity|]. split.
    + intros r Hr. apply in_app_iff in Hr as [Hr|Hr].
      * exfalso. eapply not_page1_record; eauto.
      * rewrite Forall_forall in F2.
        apply (F2 _ (proj2 (list_elem_of_In _ _) Hr)).
    + intros results Hres r Hr. rewrite Hres in P2.
      rewrite Forall_forall in P2.
      apply (P2 _ (proj2 (list_elem_of_In _ _) Hr)).
Qed.

(** Without [fetch_details] a run navigates to page 1 only and its
    records carry the card fields only. *)
Lemma no_details_no_pagination (s : io) :
  fetch_details = false ->
  exists ev,
    trace (fst (the_run s)) = (trace s ++ ev)%list /\
    (forall t u, In (EvFetch t u) ev -> t = SearchPage 1) /\
    (forall r, In (EvRecord r) ev -> r_detail r = None).
Proof.
  intros Hfd.
  destruct (run_spec s) as (s1 & html & status & ev1 & E1 & T1 & F1 & H).
  destruct (first_page_blocked W html status).
  - exists ev1. rewrite H. cbn [fst]. split; [exact T1|]. split.
    + intros t u Hin. eapply page1_fetch; eauto.
    + intros r Hr. exfalso. eapply not_page1_record; eauto.
  - destruct H as (ev2 & T2 & F2 & _ & _).
    exists (ev1 ++ ev2)%list. split; [rewrite T2, T1, app_assoc; reflexivity|].
    rewrite Forall_forall in F2. split.
    + intros t u Hin. apply in_app_iff in Hin as [Hin|Hin];
        [eapply page1_fetch; eauto|].
      pose proof (F2 _ (proj2 (list_elem_of_In _ _) Hin)) as Hok.
      destruct t as [q|]; cbn in Hok; [destruct Hok as [Hok _]|]; congruence.
    + intros r Hr. apply in_app_iff in Hr as [Hr|Hr];
        [exfalso; eapply not_page1_record; eauto|].
      pose proof (F2 _ (proj2 (list_elem_of_In _ _) Hr)) as [_ Hok].
      now apply Hok.
Qed.

(** C9. The run raises the first-page error exactly when page 1, after
    its retries, has a non-200 status, or a 200 status with markup shorter
    than 12,000 characters that the detector classifies blocked and that
    does not look like a listing page; no record has been emitted by then,
    and a 200 response of 12,000 characters or more is never fatal. *)
Theorem first_page_failure_is_fatal (s : io) :
  exists s1 html status ev,
    fetch_first_page W base_url kw s = (s1, inr (html, status)) /\
    trace s1 = (trace s ++ ev)%list /\
    (forall r, ~ In (EvRecord r) ev) /\
    let fatal :=
      status <> 200 \/
      (status = 200 /\ Py.len html < 12000 /\ is_blocked_page html = true /\
       looks_like_listing_page (extraction W) html = false) in
    (fatal -> the_run s = (s1, inl (FirstPageError status))) /\
    (~ fatal -> forall st, snd (the_run s) <> inl (FirstPageError st)) /\
    (status = 200 -> 12000 <= Py.len html -> ~ fatal).
Proof.
  destruct (run_spec s) as (s1 & html & status & ev1 & E1 & T1 & F1 & H).
  exists s1, html, status, ev1. split; [exact E1|]. split; [exact T1|].
  split; [intros r Hr; eapply not_page1_record; eauto|]. cbv zeta.
  assert (Hiff : first_page_blocked W html status = true <->
            status <> 200 \/
            (status = 200 /\ Py.len html < 12000 /\ is_blocked_page html = true /\
             looks_like_listing_page (extraction W) html = false)).
  { unfold first_page_blocked.
    destruct (status =? 200) eqn:E200;
      [apply Z.eqb_eq in E200 | apply Z.eqb_neq in E200].
    - destruct (Py.len html >=? 12000) eqn:L;
        destruct (is_blocked_page html); destruct (looks_like_listing_page _ html);
        cbn; split; intros Hx; try discriminate; try lia; try tauto;
        destruct Hx as [Hx|(_ & Hl & Hb & Hk)]; try congruence; lia.
    - cbn. split; [now left | reflexivity]. }
  split; [|split].
  - intros Hf. apply Hiff in Hf. rewrite Hf in H. exact H.
  - intros Hnf st Hst.
    destruct (first_page_blocked W html status) eqn:B; [apply Hnf, Hiff; reflexivity|].
    destruct H as (ev2 & _ & _ & _ & P). rewrite Hst in P.
    destruct P as [P|[P|[p P]]]; discriminate P.
  - intros H200 Hlen [Hf|(_ & Hl & _)]; lia.
Qed.

(** C8. Once two consecutive pages have each been found blocked after
    their single retry, no later page is navigated to.  A page that fails
    (non-200) resets the counter of consecutive blocked pages, so a blocked
    page that follows it does not stop the loop: with pages 2 and 3 blocked
    the run ends at page 3, and with page 2 blocked, page 3 failing and
    page 4 blocked it goes on to page 5. *)
Theorem consecutive_block_stop (s : io) :
  (exists ev,
     trace (fst (the_run s)) = (trace s ++ ev)%list /\
     forall p, In (EvPage p PageBlocked) ev -> In (EvPage (p + 1) PageBlocked) ev ->
     forall q u, In (EvFetch (SearchPage q) u) ev -> q <= p + 1) /\
  (forall first_link page_num ls s',
     0 <= consecutive_blocked ls ->
     match snd (page_body W base_url already_seen kw on_restart_browser
                  first_link page_num ls s') with
     | inr (PageFailed, k, ls') => consecutive_blocked ls' = 0 /\ k = Continue
     | inr (PageBlocked, k, ls') =>
         consecutive_blocked ls' = consecutive_blocked ls + 1 /\
         (k = Break <-> 2 <= consecutive_blocked ls')
     | _ => True
     end) /\
  (let evs := trace (fst (_run_with_fetcher (world all_blocked None) base 6 true ∅
                            page_kwargs false io0)) in
   pages_fetched evs = [1; 2; 2; 3; 3] /\
   verdicts_of evs = [(2, PageBlocked); (3, PageBlocked)]) /\
  (let evs := trace (fst (_run_with_fetcher (world blocked_failed_blocked None) base 6
                            true ∅ page_kwargs false io0)) in
   pages_fetched evs = [1; 2; 2; 3; 3; 3; 4; 4; 5; 5] /\
   verdicts_of evs
   = [(2, PageBlocked); (3, PageFailed); (4, PageBlocked); (5, PageBlocked)]).
Proof.
  split; [|split; [|split]].
  - destruct (run_spec s) as (s1 & html & status & ev1 & E1 & T1 & F1 & H).
    destruct (first_page_blocked W html status).
    + exists ev1. rewrite H. cbn [fst]. split; [exact T1|].
      intros p Hp. exfalso. rewrite Forall_forall in F1.
      destruct (F1 _ (proj2 (list_elem_of_In _ _) Hp)) as [E|[w E]]; discriminate E.
    + destruct H as (ev2 & T2 & F2 & Hstop & _).
      exists (ev1 ++ ev2)%list. split; [rewrite T2, T1, app_assoc; reflexivity|].
      assert (Hno : forall p v, In (EvPage p v) ev1 -> False).
      { intros p v Hp. rewrite Forall_forall in F1.
        destruct (F1 _ (proj2 (list_elem_of_In _ _) Hp)) as [E|[w E]]; discriminate E. }
      intros p Hp Hp1 q u Hq.
      apply in_app_iff in Hp as [Hp|Hp]; [exfalso; eapply Hno; eauto|].
      apply in_app_iff in Hp1 as [Hp1|Hp1]; [exfalso; eapply Hno; eauto|].
      apply in_app_iff in Hq as [Hq|Hq]; [|eapply Hstop; eauto].
      pose proof (page1_fetch _ _ _ F1 Hq) as Hq1. injection Hq1 as ->.
      rewrite Forall_forall in F2.
      pose proof (F2 _ (proj2 (list_elem_of_In _ _) Hp)) as Hok. cbn in Hok. lia.
  - intros first_link page_num ls s' Hcb.
    destruct (sat_page_body W base_url already_seen kw on_restart_browser
                (fun _ => True) (fun _ _ => True) (fun _ => True) True I
                (fun _ _ => I) first_link page_num I ls
                ltac:(apply Forall_forall; auto) Hcb s') as (ev & _ & _ & P).
    destruct (snd (page_body _ _ _ _ _ _ _ _ s')) as [e|[[v k] ls']]; [exact I|].
    destruct P as (_ & _ & Hb & Hf).
    destruct v; auto.
  - vm_compute. split; reflexivity.
  - vm_compute. split; reflexivity.
Qed.

End RunClaims.

Section Scenarios.
Import Parsers Eff Fetcher Orchestrator Spec Examples.

Lemma sixty_seen_nonempty : sixty_seen <> ∅.
Proof.
  intros H. apply (f_equal size) in H. vm_compute in H. discriminate H.
Qed.

(** C1 (the code at the failing input).  On a site whose page 1 announces
    1234 listings, with [max_pages = 3] and no resume set, the total page
    count is 3 and the start page 1; yet with [fetch_details = false] the
    run navigates to page 1 only and returns the two cards of page 1,
    whereas with [fetch_details = true] the same run goes through pages 2
    and 3. *)
Theorem run_without_details_stops_after_page1 :
  let W := world three_pages None in
  let final := run W (base ++ "/") (Some 3) false None io0 in
  total_pages_from W 3 "1234|11,12" = 3 /\
  start_page_of ∅ 3 = 1 /\
  pages_fetched (trace (fst final)) = [1] /\
  (exists r1 r2,
     snd final = inr [r1; r2] /\
     link (r_card r1) = "https://www.idealista.com/inmueble/11/" /\
     link (r_card r2) = "https://www.idealista.com/inmueble/12/") /\
  pages_fetched (trace (fst (run W (base ++ "/") (Some 3) true None io0))) = [1; 2; 3].
Proof.
  cbv zeta. split; [|split; [|split; [|split]]]; try (vm_compute; reflexivity).
  eexists _, _. vm_compute. repeat split.
Qed.

End Scenarios.

(* ===================================================================== *)
(** * Further properties of the code *)
(* ===================================================================== *)

Section ApproachFacts.
Import Approaches.

Lemma member_approaches (a : string) :
  member a APPROACHES = true ->
  a = "undetected" \/ a = "selenium" \/ a = "playwright" \/ a = "playwright_cdp".
Proof.
  unfold member, APPROACHES. cbn [existsb]. rewrite !orb_true_iff, !String.eqb_eq.
  intros [H|[H|[H|[H|H]]]]; auto; discriminate H.
Qed.

Lemma configured_default_member (cfg : Settings) :
  member (configured_default cfg) APPROACHES = true.
Proof.
  unfold configured_default.
  destruct (USE_SELENIUM cfg); [reflexivity|].
  destruct (opt_truthy (CHROME_CDP_URL cfg)); reflexivity.
Qed.

Lemma from_settings_member (cfg : Settings) :
  member (from_settings cfg) APPROACHES = true.
Proof.
  unfold from_settings. destruct (SCRAPER_APPROACH cfg) as [a|];
    [|apply configured_default_member].
  destruct (Py.truthy a && member a APPROACHES) eqn:G;
    [|apply configured_default_member].
  now apply andb_true_iff in G.
Qed.

(** X1. Whatever the override and the settings, [resolve_approach]
    returns one of the four known approaches, and that approach is
    Selenium-like or Playwright-like but never both. *)
Theorem resolve_approach_total (cfg : Settings) (override : option string) :
  let a := resolve_approach cfg override in
  member a APPROACHES = true /\
  is_selenium_like a = negb (is_playwright_like a).
Proof.
  cbv zeta.
  assert (H : member (resolve_approach cfg override) APPROACHES = true).
  { unfold resolve_approach. destruct override as [o|]; [|apply from_settings_member].
    destruct (Py.truthy o && member (Py.lower o) APPROACHES) eqn:G;
      [|apply from_settings_member].
    now apply andb_true_iff in G. }
  split; [exact H|].
  destruct (member_approaches _ H) as [-> | [-> | [-> | ->]]]; reflexivity.
Qed.

End ApproachFacts.

Section DedupeFacts.
Import Parsers Orchestrator Spec.

Variable already_seen : gset string.

Abbreviation fresh_card := (Spec.fresh_card already_seen).

Lemma dedupe_keep_iff (seen_links : gset string) (c : ListingCard) :
  (negb (Py.truthy (canonical_of c))
   || bool_decide (canonical_of c ∈ already_seen)
   || bool_decide (canonical_of c ∈ seen_links)) = false
  <-> fresh_card seen_links c.
Proof.
  unfold Spec.fresh_card, Py.truthy.
  rewrite !orb_false_iff, negb_false_iff, negb_true_iff, !bool_decide_eq_false.
  rewrite String.eqb_neq. tauto.
Qed.

Lemma dedupe_from_sound (cards : list ListingCard) : forall seen_links,
  let out := dedupe_from already_seen seen_links cards in
  sublist out cards /\
  Forall (fresh_card seen_links) out /\
  NoDup (map canonical_of out).
Proof.
  induction cards as [|c cards IH]; intros seen_links; cbn [dedupe_from].
  - repeat split; constructor.
  - destruct (negb _ || _ || _) eqn:G.
    + destruct (IH seen_links) as (S1 & F1 & N1).
      repeat split; [now apply sublist_cons | exact F1 | exact N1].
    + apply dedupe_keep_iff in G.
      destruct (IH ({[canonical_of c]} ∪ seen_links)) as (S1 & F1 & N1).
      assert (F2 : Forall (fun x => fresh_card seen_links x
                                    /\ canonical_of x <> canonical_of c)
                     (dedupe_from already_seen ({[canonical_of c]} ∪ seen_links) cards)).
      { eapply Forall_impl; [exact F1|].
        intros x (Hx1 & Hx2 & Hx3). unfold Spec.fresh_card. set_solver. }
      repeat split.
      * now apply sublist_skip.
      * constructor; [exact G|]. eapply Forall_impl; [exact F2|].
        intros x [Hx _]. exact Hx.
      * cbn [map]. constructor; [|exact N1].
        rewrite list_elem_of_fmap. intros (x & Hx & Hin).
        rewrite Forall_forall in F2. destruct (F2 x Hin) as [_ Hne]. congruence.
Qed.

Lemma dedupe_from_complete (cards : list ListingCard) : forall seen_links c,
  In c cards -> fresh_card seen_links c ->
  exists c', In c' (dedupe_from already_seen seen_links cards) /\
             canonical_of c' = canonical_of c.
Proof.
  induction cards as [|c0 cards IH]; intros seen_links c Hin Hc; [contradiction|].
  cbn [dedupe_from]. destruct (negb _ || _ || _) eqn:G.
  - destruct Hin as [<-|Hin]; [|now apply IH].
    apply dedupe_keep_iff in Hc. congruence.
  - destruct (decide (canonical_of c = canonical_of c0)) as [E|E].
    + exists c0. split; [now left | now symmetry].
    + destruct Hin as [<-|Hin]; [congruence|].
      destruct (IH ({[canonical_of c0]} ∪ seen_links) c Hin) as (c' & Hc' & E').
      { destruct Hc as (H1 & H2 & H3). unfold Spec.fresh_card. set_solver. }
      exists c'. split; [now right | exact E'].
Qed.

Lemma dedupe_from_idempotent (cards : list ListingCard) : forall seen_links,
  dedupe_from already_seen seen_links (dedupe_from already_seen seen_links cards)
  = dedupe_from already_seen seen_links cards.
Proof.
  induction cards as [|c cards IH]; intros seen_links; cbn [dedupe_from]; [reflexivity|].
  destruct (negb _ || _ || _) eqn:G; [apply IH|].
  cbn [dedupe_from]. rewrite G. f_equal. apply IH.
Qed.

(** X2. [_dedupe_unique] keeps a sub-sequence of its input, in the
    input's order; the cards it keeps have pairwise distinct, non-empty
    canonical links, none of which is in SeenLinks. *)
Theorem dedupe_unique_sound (cards : list ListingCard) :
  let out := _dedupe_unique already_seen cards in
  sublist out cards /\
  NoDup (map canonical_of out) /\
  Forall (fun c => canonical_of c <> "" /\ canonical_of c ∉ already_seen) out.
Proof.
  cbv zeta. unfold _dedupe_unique.
  destruct (dedupe_from_sound cards ∅) as (S1 & F1 & N1).
  repeat split; [exact S1 | exact N1|].
  eapply Forall_impl; [exact F1|]. intros c (H1 & H2 & _). auto.
Qed.

(** X3. [_dedupe_unique] loses no listing: every input card with a
    non-empty canonical link outside SeenLinks is represented in the output
    by a card with the same canonical link; and deduplicating twice changes
    nothing. *)
Theorem dedupe_unique_complete (cards : list ListingCard) :
  (forall c, In c cards ->
     canonical_of c <> "" -> canonical_of c ∉ already_seen ->
     exists c', In c' (_dedupe_unique already_seen cards) /\
                canonical_of c' = canonical_of c) /\
  _dedupe_unique already_seen (_dedupe_unique already_seen cards)
  = _dedupe_unique already_seen cards.
Proof.
  split; [|apply dedupe_from_idempotent].
  intros c Hin H1 H2. apply dedupe_from_complete; [exact Hin|].
  repeat split; [exact H1 | exact H2 | set_solver].
Qed.

End DedupeFacts.

Section DedupeWitness.
Import Parsers Orchestrator Examples.

Lemma dedupe_unique_complete_witness :
  exists c',
    In c' (_dedupe_unique ∅
             [card_at "https://www.idealista.com/en/inmueble/7/";
              card_at "https://www.idealista.com/inmueble/7/"]) /\
    canonical_of c' = "https://www.idealista.com/inmueble/7/".
Proof.
  apply (proj1 (dedupe_unique_complete ∅
                  [card_at "https://www.idealista.com/en/inmueble/7/";
                   card_at "https://www.idealista.com/inmueble/7/"])
           (card_at "https://www.idealista.com/inmueble/7/")).
  - right. left. reflexivity.
  - vm_compute. discriminate.
  - set_solver.
Defined.

End DedupeWitness.

Section CharFacts.

Lemma newline_is_space (c : ascii) : Py.is_newline c = true -> Py.isspace c = true.
Proof. destruct c as [[] [] [] [] [] [] [] []]; vm_compute; congruence. Qed.

Lemma space_not_digit (c : ascii) : Py.isspace c = true -> Py.isdigit c = false.
Proof. destruct c as [[] [] [] [] [] [] [] []]; vm_compute; congruence. Qed.

Lemma lower_char_idem (c : ascii) : Py.lower_char (Py.lower_char c) = Py.lower_char c.
Proof. destruct c as [[] [] [] [] [] [] [] []]; vm_compute; reflexivity. Qed.

Lemma isspace_lower_char (c : ascii) : Py.isspace (Py.lower_char c) = Py.isspace c.
Proof. destruct c as [[] [] [] [] [] [] [] []]; vm_compute; reflexivity. Qed.

Lemma lower_idem (s : string) : Py.lower (Py.lower s) = Py.lower s.
Proof.
  induction s as [|c s IH]; [reflexivity|].
  cbn [Py.lower]. now rewrite lower_char_idem, IH.
Qed.

Lemma lower_truthy (s : string) : Py.truthy (Py.lower s) = Py.truthy s.
Proof. destruct s; reflexivity. Qed.

Lemma lstrip_lower (s : string) : Py.lstrip (Py.lower s) = Py.lower (Py.lstrip s).
Proof.
  induction s as [|c s IH]; [reflexivity|].
  cbn [Py.lower Py.lstrip]. rewrite isspace_lower_char.
  destruct (Py.isspace c); [exact IH | reflexivity].
Qed.

Lemma rstrip_lower (s : string) : Py.rstrip (Py.lower s) = Py.lower (Py.rstrip s).
Proof.
  induction s as [|c s IH]; [reflexivity|].
  cbn [Py.lower Py.rstrip]. rewrite IH, isspace_lower_char.
  destruct (Py.rstrip s); cbn [Py.lower]; [destruct (Py.isspace c)|]; reflexivity.
Qed.

Lemma strip_lower (s : string) : Py.strip (Py.lower s) = Py.lower (Py.strip s).
Proof. unfold Py.strip. now rewrite lstrip_lower, rstrip_lower. Qed.

Lemma lstrip_strip (s : string) : Py.lstrip (Py.strip s) = Py.strip s.
Proof.
  unfold Py.strip. pose proof (lstrip_head s) as H.
  destruct (Py.lstrip s) as [|c t]; [reflexivity|].
  destruct (rstrip_head c t H) as [r ->]. cbn [Py.lstrip]. now rewrite H.
Qed.

Lemma rstrip_strip (s : string) : Py.rstrip (Py.strip s) = Py.strip s.
Proof. unfold Py.strip. apply rstrip_idem. Qed.

End CharFacts.

Section DetectorFacts.
Import Fetcher Parsers.




(** X5. The two diagnostic commands and the orchestrator judge page 1
    alike: [--live-test] reports OK, and [--test-approaches] marks an
    approach as working, exactly for the [(html, status)] pairs that
    [_run_with_fetcher] accepts as a first page. *)
Theorem diagnostics_agree_with_run (W : Eff.World) (html : string) (status : Z) :
  Cli._live_test (Eff.extraction W) html status
  = negb (Orchestrator.first_page_blocked W html status) /\
  Cli._test_approach_ok (Eff.extraction W) html status
  = negb (Orchestrator.first_page_blocked W html status).
Proof.
  unfold Cli._live_test, Cli._test_approach_ok, Orchestrator.first_page_blocked,
    Cli._MIN_HTML_LENGTH_NOT_BLOCKED.
  destruct (status =? 200); destruct (Py.len html >=? 12000);
    destruct (is_blocked_page html);
    destruct (looks_like_listing_page (Eff.extraction W) html); split; reflexivity.
Qed.

End DetectorFacts.

Section ConfigFacts.

(** X6. A boolean setting is read without regard to letter case or to
    surrounding whitespace, and an unset (empty) variable yields the
    default. *)
Theorem bool_env_insensitive (value : string) (default : bool) :
  Config._bool_env (Py.lower value) default = Config._bool_env value default /\
  Config._bool_env (Py.strip value) default = Config._bool_env value default /\
  Config._bool_env "" default = default.
Proof.
  unfold Config._bool_env. repeat split.
  - now rewrite strip_lower, lower_idem.
  - now rewrite strip_idem.
Qed.

End ConfigFacts.

Section SafeStrFacts.
Import Export_ Spec.

Lemma sub_newlines_clean (s : string) : forall b,
  no_newline (sub_newlines b s) = true.
Proof.
  induction s as [|c s IH]; intros b; [reflexivity|].
  cbn [sub_newlines]. destruct (Py.is_newline c) eqn:E.
  - destruct b; [apply IH|]. cbn [no_newline]. now rewrite IH.
  - cbn [no_newline]. now rewrite E, IH.
Qed.

Lemma sub_newlines_id (s : string) : forall b,
  no_newline s = true -> sub_newlines b s = s.
Proof.
  induction s as [|c s IH]; intros b H; [reflexivity|].
  cbn [no_newline] in H. apply andb_true_iff in H as [Hc Hs].
  apply negb_true_iff in Hc. cbn [sub_newlines]. now rewrite Hc, IH.
Qed.

Lemma rstrip_cons_nonempty (c : ascii) (x : string) :
  x <> "" -> Py.rstrip x = x -> Py.rstrip (String c x) = String c x.
Proof.
  intros Hne Hx. cbn [Py.rstrip]. rewrite Hx. destruct x; [congruence | reflexivity].
Qed.

Lemma rstrip_sub_newlines (t : string) : forall b,
  Py.rstrip t = t ->
  Py.rstrip (sub_newlines b t) = sub_newlines b t /\
  (t <> "" -> sub_newlines b t <> "").
Proof.
  induction t as [|c t IH]; intros b H; [split; [reflexivity | congruence]|].
  cbn [Py.rstrip] in H. destruct (Py.rstrip t) as [|d r] eqn:R.
  - destruct (Py.isspace c) eqn:Sc; [discriminate H|].
    injection H as <-. cbn [sub_newlines].
    destruct (Py.is_newline c) eqn:Nc;
      [apply newline_is_space in Nc; congruence|].
    cbn. rewrite Sc. split; [reflexivity | discriminate].
  - injection H as Ht. subst t.
    assert (Hne : String d r <> "") by discriminate.
    cbn [sub_newlines]. destruct (Py.is_newline c).
    + destruct b.
      * destruct (IH true eq_refl) as [H1 H2]. split; [exact H1 | intros _; now apply H2].
      * destruct (IH true eq_refl) as [H1 H2].
        split; [apply rstrip_cons_nonempty; auto | discriminate].
    + destruct (IH false eq_refl) as [H1 H2].
      split; [apply rstrip_cons_nonempty; auto | discriminate].
Qed.

Lemma lstrip_sub_newlines (t : string) :
  Py.lstrip t = t -> Py.lstrip (sub_newlines false t) = sub_newlines false t.
Proof.
  intros H. pose proof (lstrip_head t) as Hh. rewrite H in Hh.
  destruct t as [|c t]; [reflexivity|].
  cbn [sub_newlines]. destruct (Py.is_newline c) eqn:Nc;
    [apply newline_is_space in Nc; congruence|].
  cbn [Py.lstrip]. now rewrite Hh.
Qed.

Lemma safe_str_stripped (s : string) :
  Py.strip (sub_newlines false (Py.strip s)) = sub_newlines false (Py.strip s).
Proof.
  unfold Py.strip at 1.
  rewrite (lstrip_sub_newlines _ (lstrip_strip s)).
  apply rstrip_sub_newlines, rstrip_strip.
Qed.

(** X7. [_safe_str] always yields one line: its result holds no carriage
    return or line feed and no surrounding whitespace, it is [""] for
    [None], and applying [_safe_str] to it again changes nothing. *)
Theorem safe_str_one_line (v : option string) :
  let out := _safe_str v in
  no_newline out = true /\
  Py.strip out = out /\
  _safe_str (Some out) = out /\
  (v = None -> out = "").
Proof.
  cbv zeta. destruct v as [s|]; cbn [_safe_str]; [|repeat split].
  assert (Hs := safe_str_stripped s).
  repeat split.
  - apply sub_newlines_clean.
  - exact Hs.
  - rewrite Hs. apply sub_newlines_id, sub_newlines_clean.
  - discriminate.
Qed.

Lemma rstrip_snoc (a : string) (c : ascii) :
  Py.isspace c = false -> Py.rstrip (a ++ String c "") = a ++ String c "".
Proof.
  intros Hc. induction a as [|x a IH]; cbn [String.append Py.rstrip].
  - now rewrite Hc.
  - rewrite IH. destruct a; reflexivity.
Qed.

Lemma normalize_stripped (x : string) :
  Py.strip (normalize_listing_link x) = normalize_listing_link x.
Proof.
  unfold normalize_listing_link.
  destruct (not_a_listing x); [apply strip_idem|].
  destruct (search_inmueble x) as [ds|]; [|apply strip_idem].
  unfold Py.strip, CANONICAL_LISTING_URL.
  change (Py.lstrip ("https://www.idealista.com/inmueble/" ++ ds ++ "/"))
    with ("https://www.idealista.com/inmueble/" ++ ds ++ "/").
  rewrite <- append_assoc. now apply rstrip_snoc.
Qed.

Lemma normalize_nonempty (t : string) :
  t <> "" -> Py.strip t = t -> normalize_listing_link t <> "".
Proof.
  intros Hne Hs. unfold normalize_listing_link.
  destruct (not_a_listing t); [now rewrite Hs|].
  destruct (search_inmueble t); [discriminate | now rewrite Hs].
Qed.

Lemma row_get_link_none (row : csv_row) :
  row_get_link row = None <-> row !! "link" = Some None.
Proof.
  unfold row_get_link. destruct (row !! "link") as [[cell|]|]; cbn; split; congruence.
Qed.

Lemma read_links_raises (rows : list csv_row) : forall acc,
  read_links rows acc = None <-> exists row, In row rows /\ row !! "link" = Some None.
Proof.
  induction rows as [|row rows IH]; intros acc; cbn [read_links].
  - split; [discriminate | intros (r & [] & _)].
  - destruct (row_get_link row) as [cell|] eqn:G.
    + cbv zeta. rewrite IH. split.
      * intros (r & Hr & H). exists r. split; [now right | exact H].
      * intros (r & [<-|Hr] & H); [|eauto].
        apply row_get_link_none in H. congruence.
    + split; [|reflexivity]. intros _. exists row. split; [now left|].
      now apply row_get_link_none.
Qed.

Lemma existing_links_fold (rows : list csv_row) :
  forall (acc links : gset string) (l : string),
  read_links rows acc = Some links ->
  (l ∈ links
   <-> l ∈ acc \/
       exists row cell, In row rows /\ row_get_link row = Some cell /\
         Py.strip cell <> "" /\
         l = normalize_listing_link (Py.strip cell)).
Proof.
  induction rows as [|row rows IH]; intros acc links l; cbn [read_links].
  - intros [= <-]. split; [now left | intros [H|(r & c & [] & _)]; exact H].
  - destruct (row_get_link row) as [cell|] eqn:G; [|discriminate].
    cbv zeta. intros H. rewrite (IH _ _ l H). clear H IH. unfold Py.truthy.
    destruct (String.eqb_spec (Py.strip cell) "") as [E|E]; cbn [negb].
    + split.
      * intros [H|(r & c & Hr & H)];
          [now left | right; exists r, c; split; [now right | exact H]].
      * intros [H|(r & c & [<-|Hr] & H1 & H2 & H3)]; [now left | congruence | right; eauto 6].
    + rewrite elem_of_union, elem_of_singleton. split.
      * intros [[->|H]|(r & c & Hr & H)];
          [right; exists row, cell; split; [now left | auto]
          | now left
          | right; exists r, c; split; [now right | exact H]].
      * intros [H|(r & c & [<-|Hr] & H1 & H2 & H3)];
          [left; now right | left; left; congruence | right; eauto 6].
Qed.

(** X8. The resume set read back from a CSV.  A file that does not exist
    gives the empty set.  Reading raises (AttributeError) exactly when
    some row is too short to reach the link column, [csv.DictReader]
    filling its cell with [None].  Otherwise the set holds canonical
    links only: every member is non-empty and is left unchanged by
    [normalize_listing_link], and the set is exactly the set of canonical
    forms of the non-blank cells of the link column. *)
Theorem existing_links_canonical (file : option (list csv_row)) :
  (file = None -> get_existing_links_from_csv file = Some ∅) /\
  (forall rows, file = Some rows ->
     (get_existing_links_from_csv file = None
      <-> exists row, In row rows /\ row !! "link" = Some None)) /\
  (forall links, get_existing_links_from_csv file = Some links ->
     (forall l, l ∈ links -> l <> "" /\ normalize_listing_link l = l) /\
     (forall rows l, file = Some rows ->
        (l ∈ links <->
         exists row cell, In row rows /\ row_get_link row = Some cell /\
           Py.strip cell <> "" /\
           l = normalize_listing_link (Py.strip cell)))).
Proof.
  split; [intros ->; reflexivity|]. split.
  - intros rows ->. apply read_links_raises.
  - intros links H.
    assert (Hchar : forall rows l, file = Some rows ->
              (l ∈ links <->
               exists row cell, In row rows /\ row_get_link row = Some cell /\
                 Py.strip cell <> "" /\
                 l = normalize_listing_link (Py.strip cell))).
    { intros rows l ->. cbn [get_existing_links_from_csv] in H.
      rewrite (existing_links_fold rows ∅ links l H).
      split; [intros [Hl|Hl]; [set_solver | exact Hl] | now right]. }
    split; [|exact Hchar].
    intros l Hl. destruct file as [rows|].
    + apply (Hchar rows l eq_refl) in Hl as (row & cell & _ & _ & Hne & ->).
      split; [apply normalize_nonempty; [exact Hne | apply strip_idem]
             | apply normalize_idempotent].
    + injection H as <-. set_solver.
Qed.

Lemma existing_links_canonical_witness :
  get_existing_links_from_csv (Some Examples.short_rows) = None /\
  exists links,
    get_existing_links_from_csv (Some Examples.mixed_rows) = Some links /\
    "https://www.idealista.com/inmueble/42/" ∈ links.
Proof.
  split.
  - apply (proj1 (proj2 (existing_links_canonical (Some Examples.short_rows)))
             Examples.short_rows eq_refl).
    eexists. split; [right; left; reflexivity | reflexivity].
  - destruct (get_existing_links_from_csv (Some Examples.mixed_rows)) as [links|] eqn:E;
      [|vm_compute in E; discriminate E].
    exists links. split; [reflexivity|].
    apply (proj2 (proj2 (proj2 (existing_links_canonical (Some Examples.mixed_rows)))
                    links E) Examples.mixed_rows _ eq_refl).
    eexists _, _. split; [left; reflexivity|].
    split; [reflexivity|].
    split; [vm_compute; discriminate | vm_compute; reflexivity].
Defined.

End SafeStrFacts.

Section ScrollFacts.
Import Fetcher.

Lemma scroll_from_length (fuel : nat) : forall total step pos,
  (length (scroll_from fuel total step pos) <= fuel)%nat.
Proof.
  induction fuel as [|fuel IH]; intros total step pos; cbn [scroll_from length]; [lia|].
  destruct (pos <? total); cbn [length]; [|lia].
  specialize (IH total step (Z.min (pos + step) total)). lia.
Qed.

Lemma scroll_from_enough (fuel : nat) : forall total step pos,
  0 < step -> total - pos <= Z.of_nat fuel * step ->
  (forall fuel', (fuel <= fuel')%nat ->
     scroll_from fuel' total step pos = scroll_from fuel total step pos) /\
  Forall (fun p => pos < p <= total) (scroll_from fuel total step pos) /\
  StronglySorted Z.lt (scroll_from fuel total step pos) /\
  (pos < total -> last (scroll_from fuel total step pos) = Some total).
Proof.
  induction fuel as [|fuel IH]; intros total step pos Hstep Hfuel.
  - cbn [scroll_from]. split; [|split; [constructor|split; [constructor|lia]]].
    intros [|f] _; cbn [scroll_from]; [reflexivity|].
    destruct (pos <? total) eqn:L; [lia | reflexivity].
  - cbn [scroll_from]. destruct (pos <? total) eqn:L.
    + apply Z.ltb_lt in L.
      set (pos' := Z.min (pos + step) total).
      destruct (IH total step pos' Hstep ltac:(lia)) as (I1 & I2 & I3 & I4).
      repeat split.
      * intros [|f] Hf; [lia|]. cbn [scroll_from].
        destruct (pos <? total) eqn:L'; [|lia].
        fold pos'. f_equal. apply I1. lia.
      * constructor; [lia|]. eapply Forall_impl; [exact I2|].
        intros p Hp. cbv beta in *. lia.
      * constructor; [exact I3|]. eapply Forall_impl; [exact I2|].
        intros p Hp. cbv beta in *. lia.
      * intros _. destruct (Z.lt_ge_cases pos' total) as [Hlt|Hge].
        -- specialize (I4 Hlt).
           destruct (scroll_from fuel total step pos'); [discriminate I4 | exact I4].
        -- assert (pos' = total) as -> by lia.
           destruct fuel; cbn [scroll_from]; [reflexivity|].
           rewrite Z.ltb_irrefl. reflexivity.
    + apply Z.ltb_ge in L. split; [|split; [constructor|split; [constructor|lia]]].
      intros [|f] Hf; [lia|]. cbn [scroll_from].
      destruct (pos <? total) eqn:L'; [lia | reflexivity].
Qed.

(** X9. The scroll loop of the fetch client stops: for a page of height
    [total] and a random divisor between 2 and 4 it issues at most
    [divisor + 1] (hence at most five) scroll commands, at strictly
    increasing positions within the page, the last of them at the bottom;
    a page of height zero is not scrolled, and five commands do occur. *)
Theorem scroll_terminates (total parts : Z) (fuel : nat) :
  2 <= parts <= 4 -> (5 <= fuel)%nat ->
  let positions := scroll_positions fuel total parts in
  positions = scroll_positions 5 total parts /\
  Z.of_nat (length positions) <= parts + 1 /\
  StronglySorted Z.lt positions /\
  Forall (fun p => 0 < p <= total) positions /\
  (0 < total -> last positions = Some total) /\
  (total <= 0 -> positions = []) /\
  scroll_positions fuel 4001 4 = [1000; 2000; 3000; 4000; 4001].
Proof.
  intros Hparts Hfuel. cbv zeta.
  assert (Hfive : scroll_positions fuel 4001 4 = [1000; 2000; 3000; 4000; 4001]).
  { unfold scroll_positions. change (Z.max 400 (4001 / 4)) with 1000.
    rewrite (proj1 (scroll_from_enough 5 4001 1000 0 ltac:(lia) ltac:(lia)) fuel Hfuel).
    reflexivity. }
  revert Hfive. generalize (scroll_positions fuel 4001 4). intros five Hfive.
  unfold scroll_positions.
  set (step := Z.max 400 (total / parts)).
  assert (Hstep : 0 < step) by lia.
  assert (Hbound : total - 0 <= Z.of_nat (Z.to_nat (parts + 1)) * step).
  { pose proof (Z.div_mod total parts ltac:(lia)).
    pose proof (Z.mod_pos_bound total parts ltac:(lia)).
    assert (total / parts <= step) by lia. rewrite Z2Nat.id by lia. nia. }
  destruct (scroll_from_enough _ total step 0 Hstep Hbound) as (I1 & I2 & I3 & I4).
  assert (E5 : scroll_from 5 total step 0
               = scroll_from (Z.to_nat (parts + 1)) total step 0) by (apply I1; lia).
  assert (Ef : scroll_from fuel total step 0
               = scroll_from (Z.to_nat (parts + 1)) total step 0) by (apply I1; lia).
  rewrite Ef. split; [now rewrite E5|]. split; [|split; [exact I3|split; [exact I2|split]]].
  - pose proof (scroll_from_length (Z.to_nat (parts + 1)) total step 0). lia.
  - exact I4.
  - split; [|exact Hfive].
    intros Hle. destruct (Z.to_nat (parts + 1)); cbn [scroll_from]; [reflexivity|].
    destruct (0 <? total) eqn:L; [lia | reflexivity].
Qed.

Lemma scroll_terminates_witness :
  scroll_positions 100 2500 3 = [833; 1666; 2499; 2500].
Proof.
  rewrite (proj1 (scroll_terminates 2500 3 100 ltac:(lia) ltac:(lia))).
  vm_compute. reflexivity.
Defined.

End ScrollFacts.

Section ParserFacts.
Import Parsers.

Lemma drop_append (a b : string) : Py.drop (String.length a) (a ++ b) = b.
Proof. induction a as [|c a IH]; [reflexivity | exact IH]. Qed.

Lemma after_first_split (sep s rest : string) :
  Py.after_first sep s = Some rest -> exists p, s = p ++ sep ++ rest.
Proof.
  induction s as [|c s IH]; cbn [Py.after_first].
  - destruct (String.prefix sep "") eqn:P; [|discriminate].
    intros [= <-]. destruct (prefix_split _ _ P) as [r Hr].
    exists "". cbn [String.append]. rewrite Hr at 1. now rewrite Hr, drop_append.
  - destruct (String.prefix sep (String c s)) eqn:P.
    + intros [= <-]. destruct (prefix_split _ _ P) as [r Hr].
      exists "". cbn [String.append]. rewrite Hr at 1. now rewrite Hr, drop_append.
    + intros H. destruct (IH H) as [p ->]. exists (String c p). reflexivity.
Qed.

Lemma contains_self (x : string) : Py.contains x x = true.
Proof.
  assert (P : String.prefix x x = true).
  { rewrite <- (append_nil_r x) at 2. apply prefix_append. }
  destruct x; cbn [Py.contains]; now rewrite P.
Qed.

Lemma contains_middle (x p q : string) : Py.contains x (p ++ x ++ q) = true.
Proof. apply contains_app_l, contains_app_r, contains_self. Qed.

Lemma contains_strip (x s : string) :
  Py.contains x (Py.strip s) = true -> Py.contains x s = true.
Proof.
  intros H. destruct (strip_split s) as (p & q & Hs). rewrite Hs.
  now apply contains_app_l, contains_app_r.
Qed.

Lemma contains_after (x sep s rest : string) :
  Py.after_first sep s = Some rest ->
  Py.contains x rest = true -> Py.contains x s = true.
Proof.
  intros Ha H. destruct (after_first_split _ _ _ Ha) as [p ->].
  now apply contains_app_l, contains_app_l.
Qed.

Lemma contains_empty (s : string) : Py.contains "" s = true.
Proof. destruct s; reflexivity. Qed.

(** X10. The location [_location_from_title] derives from a card title is
    a piece of that title with no surrounding whitespace, and it is empty
    for an empty or blank title. *)
Theorem location_from_title_sound (title : string) :
  let loc := _location_from_title title in
  Py.contains loc title = true /\
  Py.strip loc = loc /\
  (Py.strip title = "" -> loc = "").
Proof.
  cbv zeta. unfold _location_from_title.
  destruct (negb (Py.truthy title) || negb (Py.truthy (Py.strip title))) eqn:G.
  - repeat split; apply contains_empty.
  - apply orb_false_iff in G as [_ G]. apply negb_false_iff in G.
    assert (Hblank : Py.strip title = "" -> False).
    { intros E. rewrite E in G. discriminate G. }
    assert (Hpiece : forall sep rest,
              Py.after_first sep (Py.strip title) = Some rest ->
              Py.contains (Py.strip rest) title = true).
    { intros sep rest Ha. apply contains_strip.
      eapply contains_after; [exact Ha|].
      destruct (strip_split rest) as (p & q & Hr). rewrite Hr at 2.
      apply contains_middle. }
    assert (Hdash :
      let by_dash := match Py.after_first " - " (Py.strip title) with
                     | Some rest => Py.strip rest
                     | None => ""
                     end in
      Py.contains by_dash title = true /\ Py.strip by_dash = by_dash).
    { cbv zeta. destruct (Py.after_first " - " (Py.strip title)) as [rest|] eqn:Ea.
      - split; [eapply Hpiece, Ea | apply strip_idem].
      - split; [apply contains_empty | reflexivity]. }
    destruct Hdash as [D1 D2].
    destruct (Py.after_first " en " (Py.strip title)) as [rest|] eqn:Ea;
      [destruct (Py.truthy (Py.strip rest))|];
      repeat split; auto; try (intros E; destruct (Hblank E)).
    + eapply Hpiece, Ea.
    + apply strip_idem.
Qed.

Lemma location_from_title_sound_witness :
  _location_from_title "   " = "" /\
  _location_from_title "Piso en San Vicente, Sevilla" = "San Vicente, Sevilla".
Proof.
  split.
  - apply (proj2 (proj2 (location_from_title_sound "   "))). reflexivity.
  - vm_compute. reflexivity.
Defined.

Lemma only_digits_lstrip (s : string) : Py.only_digits (Py.lstrip s) = Py.only_digits s.
Proof.
  induction s as [|c s IH]; [reflexivity|].
  cbn [Py.lstrip]. destruct (Py.isspace c) eqn:E; [|reflexivity].
  cbn [Py.only_digits]. now rewrite (space_not_digit _ E).
Qed.

Lemma only_digits_rstrip (s : string) : Py.only_digits (Py.rstrip s) = Py.only_digits s.
Proof.
  induction s as [|c s IH]; [reflexivity|].
  cbn [Py.rstrip Py.only_digits]. rewrite <- IH.
  destruct (Py.rstrip s) as [|d r].
  - destruct (Py.isspace c) eqn:E.
    + now rewrite (space_not_digit _ E).
    + reflexivity.
  - reflexivity.
Qed.

Lemma only_digits_strip (s : string) : Py.only_digits (Py.strip s) = Py.only_digits s.
Proof. unfold Py.strip. now rewrite only_digits_rstrip, only_digits_lstrip. Qed.

Lemma only_digits_length (s : string) :
  (String.length (Py.only_digits s) <= String.length s)%nat.
Proof.
  induction s as [|c s IH]; [reflexivity|].
  cbn [Py.only_digits]. destruct (Py.isdigit c); cbn [String.length]; lia.
Qed.

Lemma digits_value_nonneg (s : string) : forall acc,
  0 <= acc -> Py.all_digits s = true -> 0 <= Py.digits_value acc s.
Proof.
  induction s as [|c s IH]; intros acc Hacc Hd; [exact Hacc|].
  cbn [Py.all_digits] in Hd. apply andb_true_iff in Hd as [Hc Hs].
  cbn [Py.digits_value]. apply IH; [|exact Hs].
  unfold Py.isdigit in Hc. apply andb_true_iff in Hc as [H1 H2].
  apply N.leb_le in H1. lia.
Qed.

Lemma only_digits_all (s : string) : Py.all_digits (Py.only_digits s) = true.
Proof.
  induction s as [|c s IH]; [reflexivity|].
  cbn [Py.only_digits]. destruct (Py.isdigit c) eqn:E; [|exact IH].
  cbn [Py.all_digits]. now rewrite E, IH.
Qed.

(** X11. The price parsed from a card depends on the digits of the text
    only, so thousands separators, spaces and currency signs do not matter;
    it is absent exactly when the text holds no digit, it is never
    negative, and for a text of at most 4300 characters the conversion
    never raises. *)
Theorem normalize_price_digits (t1 t2 : string) :
  (Py.only_digits t1 = Py.only_digits t2 ->
   _normalize_price (Some t1) = _normalize_price (Some t2)) /\
  (_normalize_price (Some t1) = inr None <-> Py.only_digits t1 = "") /\
  (forall n, _normalize_price (Some t1) = inr (Some n) -> 0 <= n) /\
  ((String.length t1 <= 4300)%nat -> _normalize_price (Some t1) <> inl tt).
Proof.
  assert (Hform : forall t,
            _normalize_price (Some t)
            = if Py.truthy (Py.only_digits t) then
                match int_of_digits (Py.only_digits t) with
                | IntValue n => inr (Some n)
                | IntTooLong => inl tt
                end
              else inr None).
  { intros t. unfold _normalize_price. rewrite only_digits_strip.
    destruct t; reflexivity. }
  rewrite !Hform. repeat split.
  - intros ->. reflexivity.
  - destruct (Py.only_digits t1); [reflexivity|]. cbn [Py.truthy String.eqb negb].
    destruct (int_of_digits _); discriminate.
  - intros ->. reflexivity.
  - intros n. destruct (Py.truthy (Py.only_digits t1)); [|discriminate].
    unfold int_of_digits. destruct (_ <? _)%nat; [discriminate|].
    intros [= <-]. apply digits_value_nonneg; [lia | apply only_digits_all].
  - intros Hlen. destruct (Py.truthy (Py.only_digits t1)); [|discriminate].
    unfold int_of_digits, INT_MAX_STR_DIGITS.
    pose proof (only_digits_length t1).
    destruct (4300 <? String.length (Py.only_digits t1))%nat eqn:L;
      [apply Nat.ltb_lt in L; lia | discriminate].
Qed.

Lemma normalize_price_digits_witness :
  _normalize_price (Some "185.000 EUR") = _normalize_price (Some " 185 000")
  /\ _normalize_price (Some "185.000 EUR") = inr (Some 185000).
Proof.
  split.
  - apply (proj1 (normalize_price_digits "185.000 EUR" " 185 000")). reflexivity.
  - vm_compute. reflexivity.
Defined.

End ParserFacts.

(* ===================================================================== *)
(** * Emission: each listing once, results and callback in step *)
(* ===================================================================== *)

Section TraceRules.
Import Eff Spec.
Local Open Scope eff_scope.

Lemma satv_ret {A} (Rv : list event -> A -> Prop) Ev (a : A) :
  Rv [] a -> satv Rv Ev (ret a).
Proof.
  intros H s. exists []. cbn. rewrite app_nil_r. auto.
Qed.

Lemma satv_throw {A} (Rv : list event -> A -> Prop) (Ev : list event -> exn -> Prop) e :
  Ev [] e -> satv Rv Ev (throw e).
Proof.
  intros H s. exists []. cbn. rewrite app_nil_r. auto.
Qed.

Lemma satv_log (e : event) :
  satv (fun ev _ => ev = [e]) (fun _ _ => False) (log e).
Proof.
  intros s. exists [e]. cbn. auto.
Qed.

Lemma satv_bind {A B} (R1 : list event -> A -> Prop) (E1 : list event -> exn -> Prop)
    (Rv : list event -> B -> Prop) (Ev : list event -> exn -> Prop)
    (m : M A) (k : A -> M B) :
  satv R1 E1 m ->
  (forall ev e, E1 ev e -> Ev ev e) ->
  (forall ev1 a, R1 ev1 a ->
     satv (fun ev2 b => Rv (ev1 ++ ev2)%list b)
          (fun ev2 e => Ev (ev1 ++ ev2)%list e) (k a)) ->
  satv Rv Ev (bind m k).
Proof.
  intros Hm HE Hk s. unfold bind.
  destruct (Hm s) as (ev1 & T1 & P1).
  destruct (m s) as [s1 [e|a]]; cbn [fst snd] in *.
  - exists ev1. split; [exact T1 | now apply HE].
  - destruct (Hk ev1 a P1 s1) as (ev2 & T2 & P2).
    exists (ev1 ++ ev2)%list. split; [|exact P2].
    rewrite T2, T1. now rewrite app_assoc.
Qed.

Lemma satv_weaken {A} (R1 Rv : list event -> A -> Prop)
    (E1 Ev : list event -> exn -> Prop) (m : M A) :
  satv R1 E1 m ->
  (forall ev a, R1 ev a -> Rv ev a) ->
  (forall ev e, E1 ev e -> Ev ev e) ->
  satv Rv Ev m.
Proof.
  intros Hm HR HE s. destruct (Hm s) as (ev & T & P).
  exists ev. split; [exact T|].
  destruct (snd (m s)); auto.
Qed.

Lemma satv_of_sat {A} (Q : event -> Prop) (E : exn -> Prop) (R : A -> Prop) (m : M A) :
  sat Q E R m ->
  satv (fun ev a => Forall Q ev /\ R a) (fun ev e => Forall Q ev /\ E e) m.
Proof.
  intros Hm s. destruct (Hm s) as (ev & T & F & P).
  exists ev. split; [exact T|].
  destruct (snd (m s)); auto.
Qed.

Lemma records_of_app (a b : list event) :
  records_of (a ++ b) = (records_of a ++ records_of b)%list.
Proof.
  induction a as [|[] a IH]; cbn [records_of app]; [reflexivity|..];
    rewrite ?IH; reflexivity.
Qed.

Lemma detail_urls_app (a b : list event) :
  detail_urls (a ++ b) = (detail_urls a ++ detail_urls b)%list.
Proof.
  induction a as [|[[]| | | |] a IH]; cbn [detail_urls app]; [reflexivity|..];
    rewrite ?IH; reflexivity.
Qed.

Lemma links_of_app (a b : list record) :
  links_of (a ++ b) = (links_of a ++ links_of b)%list.
Proof. apply map_app. Qed.

Lemma silent_records (ev : list event) :
  Forall silent ev -> records_of ev = [] /\ detail_urls ev = [].
Proof.
  induction 1 as [|e ev He F IH]; [split; reflexivity|].
  destruct e as [[]| | | |]; cbn in He; try contradiction; exact IH.
Qed.

Lemma detail_event_records (url : string) (ev : list event) :
  Forall (detail_event url) ev ->
  records_of ev = [] /\ Forall (eq url) (detail_urls ev).
Proof.
  induction 1 as [|e ev He F [IH1 IH2]]; [split; [reflexivity|constructor]|].
  destruct He as [->|[w ->]]; cbn [records_of detail_urls]; split; auto.
Qed.

Lemma truthy_iff (s : string) : Py.truthy s = true <-> s <> "".
Proof.
  unfold Py.truthy. rewrite negb_true_iff. apply String.eqb_neq.
Qed.

End TraceRules.

Section EmissionFacts.
Import Parsers Eff Fetcher Orchestrator Spec.
Local Open Scope eff_scope.

Variable W : World.
Variables (base_url : string) (max_pages : Z).
Variable already_seen : gset string.
Variable kw : fetch_kwargs.
Variable on_restart_browser : bool.

Abbreviation steps c f m :=
  (satv (fun ev a => step_post W already_seen c ev (f a)) (step_exn already_seen c) m).

Lemma cb_view_nil : cb_view W [] = [].
Proof. unfold cb_view. now destruct (on_record W). Qed.

Lemma cb_view_app (a b : list record) :
  cb_view W (a ++ b) = (cb_view W a ++ cb_view W b)%list.
Proof. unfold cb_view. now destruct (on_record W). Qed.

Lemma cb_view_cases (news : list record) : cb_view W news = news \/ cb_view W news = [].
Proof. unfold cb_view. destruct (on_record W); auto. Qed.

Lemma cb_view_elem (news : list record) (r : record) : r ∈ cb_view W news -> r ∈ news.
Proof.
  destruct (cb_view_cases news) as [-> | ->]; [auto|]. intros H. inversion H.
Qed.

Lemma step_post_links c ev c' :
  step_post W already_seen c ev c' ->
  Forall (fun l => l ∈ processed_links c') (links_of (records_of ev)).
Proof.
  intros (_ & (_ & F) & _ & news & Hres & Hrec).
  rewrite Forall_forall in *. intros l Hl. apply F.
  unfold links_of in *. rewrite list_elem_of_fmap in *.
  destruct Hl as (r & -> & Hr). exists r. split; [reflexivity|].
  rewrite Hres, elem_of_app. right. apply cb_view_elem. now rewrite <- Hrec.
Qed.

Lemma trace_post_app c c1 ev1 ev2 :
  trace_post already_seen c ev1 ->
  Forall (fun l => l ∈ processed_links c1) (links_of (records_of ev1)) ->
  processed_links c ⊆ processed_links c1 ->
  trace_post already_seen c1 ev2 ->
  trace_post already_seen c (ev1 ++ ev2).
Proof.
  intros (N1 & F1 & D1) In1 Sub (N2 & F2 & D2).
  unfold trace_post. rewrite records_of_app, links_of_app, detail_urls_app.
  split; [|split].
  - apply NoDup_app. split; [exact N1|]. split; [|exact N2].
    intros l H1 H2. rewrite Forall_forall in In1, F2.
    destruct (F2 l H2) as [Hn _]. apply Hn, In1, H1.
  - apply Forall_app. split; [exact F1|].
    eapply Forall_impl; [exact F2|]. intros l [Hn Hc]. split; [set_solver | exact Hc].
  - apply Forall_app. split; assumption.
Qed.

Lemma step_post_trans c ev1 c1 ev2 c2 :
  step_post W already_seen c ev1 c1 -> step_post W already_seen c1 ev2 c2 ->
  step_post W already_seen c (ev1 ++ ev2) c2.
Proof.
  intros H1 H2. assert (L1 := step_post_links _ _ _ H1).
  destruct H1 as (T1 & I1 & S1 & n1 & R1 & V1).
  destruct H2 as (T2 & I2 & S2 & n2 & R2 & V2).
  split; [now apply trace_post_app with c1|].
  split; [exact I2|]. split; [set_solver|].
  exists (n1 ++ n2)%list. split.
  - rewrite R2, R1. now rewrite app_assoc.
  - now rewrite records_of_app, cb_view_app, V1, V2.
Qed.

Lemma step_exn_trans c ev1 c1 ev2 e :
  step_post W already_seen c ev1 c1 -> step_exn already_seen c1 ev2 e ->
  step_exn already_seen c (ev1 ++ ev2) e.
Proof.
  intros H1 [He T2]. assert (L1 := step_post_links _ _ _ H1).
  destruct H1 as (T1 & I1 & S1 & _).
  split; [exact He | now apply trace_post_app with c1].
Qed.

Lemma step_post_silent c ev :
  Forall silent ev -> closure_inv c -> step_post W already_seen c ev c.
Proof.
  intros F I. destruct (silent_records ev F) as [Hr Hd].
  split; [|split; [exact I | split; [set_solver|]]].
  - unfold trace_post. rewrite Hr, Hd. repeat split; constructor.
  - exists []. rewrite app_nil_r, cb_view_nil. auto.
Qed.

Lemma steps_ret {A} c (f : A -> closure) (a : A) :
  closure_inv c -> f a = c -> steps c f (ret a).
Proof.
  intros I E. apply satv_ret. rewrite E. now apply step_post_silent.
Qed.

Lemma steps_bind {A B} c (f : A -> closure) (g : B -> closure) (m : M A) (k : A -> M B) :
  steps c f m ->
  (forall a, closure_inv (f a) -> steps (f a) g (k a)) ->
  steps c g (bind m k).
Proof.
  intros Hm Hk. eapply satv_bind; [exact Hm | auto |].
  intros ev1 a H1. eapply satv_weaken; [apply Hk, H1 | |].
  - intros ev2 b H2. now apply step_post_trans with (f a).
  - intros ev2 e H2. now apply step_exn_trans with (f a).
Qed.

Lemma steps_silent {A} c (m : M A) :
  satv (fun ev _ => Forall silent ev) (fun _ _ => False) m ->
  closure_inv c -> steps c (fun _ => c) m.
Proof.
  intros Hm I. eapply satv_weaken; [exact Hm | | intros ? ? []].
  intros ev a F. now apply step_post_silent.
Qed.

Lemma satv_emit (d : record) (c : closure) :
  satv (fun ev c' =>
          records_of ev = cb_view W [d] /\ detail_urls ev = [] /\
          c' = {| processed_links := processed_links c;
                  results := (results c ++ [d])%list |})
       (fun ev e => e = CallbackError /\ records_of ev = [d] /\ detail_urls ev = [])
       (emit W d c).
Proof.
  intros s. unfold emit, cb_view. destruct (on_record W) as [callback|].
  - exists [EvRecord d]. unfold bind, log. cbn [fst snd trace].
    destruct (callback d); cbn; auto.
  - exists []. cbn. rewrite app_nil_r. auto.
Qed.

Lemma satv_detail_fetch (url : string) :
  satv (fun ev _ => Forall (detail_event url) ev) (fun _ _ => False)
       (fetch_html_with_retry W (with_delay kw 10) DetailPage url MAX_RETRIES BACKOFF_SEC).
Proof.
  eapply satv_weaken.
  - apply satv_of_sat.
    apply (sat_fetch_html_with_retry W (detail_event url) (with_delay kw 10)
             DetailPage url (fun _ => True)); [now left | intros w; right; eauto | auto | auto].
  - intros ev a [F _]. exact F.
  - intros ev e [_ H]. discriminate H.
Qed.

Lemma satv_fetch_page (page_num : Z) :
  satv (fun ev _ => Forall silent ev) (fun _ _ => False)
       (fetch_page W base_url kw page_num).
Proof.
  eapply satv_weaken.
  - apply satv_of_sat.
    apply (sat_fetch_html_with_retry W silent kw (SearchPage page_num)
             (page_url base_url page_num) (fun _ => True)); cbn; auto.
  - intros ev a [F _]. exact F.
  - intros ev e [_ H]. discriminate H.
Qed.

Lemma satv_search_cards (html : string) :
  satv (fun ev _ => ev = []) (fun ev e => ev = [] /\ exists p, e = ParserError p)
       (search_cards W html).
Proof.
  intros s. exists []. unfold search_cards.
  destruct (search_page_outcome _ _ _) as [e|[total_count page_cards]];
    cbn; rewrite app_nil_r; eauto.
Qed.

Lemma satv_detail_of (html url : string) :
  satv (fun ev _ => ev = []) (fun ev e => ev = [] /\ exists p, e = ParserError p)
       (detail_of W html url).
Proof.
  intros s. exists []. unfold detail_of.
  destruct (detail_page_outcome _ _ _) as [e|detail];
    cbn; rewrite app_nil_r; eauto.
Qed.

Lemma steps_search_cards c (html : string) :
  closure_inv c -> steps c (fun _ => c) (search_cards W html).
Proof.
  intros I. eapply satv_weaken; [apply satv_search_cards | |].
  - intros ev a ->. apply step_post_silent; [constructor | exact I].
  - intros ev e [-> He]. split; [right; right; exact He|].
    repeat split; constructor.
Qed.

Lemma satv_sleep (w : Z) :
  satv (fun ev _ => Forall silent ev) (fun _ _ => False) (sleep w).
Proof.
  intros s. exists [EvSleep w]. cbn. split; [reflexivity|]. repeat constructor.
Qed.

(** One new listing: the detail fetch, then the emission of its record. *)
Lemma trace_post_one c (d : record) (ev : list event) :
  let l := link (r_card d) in
  l ∉ processed_links c -> canon_link l -> l ∉ already_seen ->
  records_of ev = [d] \/ records_of ev = [] ->
  Forall (eq l) (detail_urls ev) ->
  trace_post already_seen c ev.
Proof.
  intros l Hp Hc Hs Hr Hd. unfold trace_post. split; [|split].
  - destruct Hr as [-> | ->]; cbn; [apply NoDup_singleton | constructor].
  - destruct Hr as [-> | ->]; cbn; repeat constructor; [exact Hp | apply Hc | apply Hc].
  - eapply Forall_impl; [exact Hd|]. intros u <-. destruct Hc. repeat split; assumption.
Qed.

Lemma emit_step (d : record) (l : string) c (ev1 : list event)
    (k : closure -> M closure) :
  link (r_card d) = l ->
  closure_inv c -> l ∉ processed_links c -> canon_link l -> l ∉ already_seen ->
  Forall (detail_event l) ev1 ->
  (forall c', closure_inv c' -> steps c' (fun x => x) (k c')) ->
  satv (fun ev2 b => step_post W already_seen c (ev1 ++ ev2) b)
       (fun ev2 e => step_exn already_seen c (ev1 ++ ev2) e)
       (bind (emit W d {| processed_links := {[l]} ∪ processed_links c;
                          results := results c |}) k).
Proof.
  intros <- I Hp Hc Hs F1 Hk. set (l := link (r_card d)) in *.
  destruct (detail_event_records l ev1 F1) as [R1 D1].
  eapply satv_bind; [apply satv_emit | |].
  - intros ev e (-> & Hr & Hd). split; [now left|].
    apply (trace_post_one c d); try assumption.
    + left. now rewrite records_of_app, R1, Hr.
    + now rewrite detail_urls_app, Hd, app_nil_r.
  - intros ev2 c2 (Hr & Hd & ->). cbn [processed_links results].
    set (c2 := {| processed_links := {[l]} ∪ processed_links c;
                  results := (results c ++ [d])%list |}).
    assert (I2 : closure_inv c2).
    { destruct I as [N F]. unfold closure_inv, c2. cbn [results processed_links].
      rewrite links_of_app. cbn [links_of map]. fold l. split.
      - apply NoDup_app. split; [exact N|]. split; [|apply NoDup_singleton].
        intros x Hx Hx'. apply list_elem_of_singleton in Hx'. subst x.
        rewrite Forall_forall in F. apply Hp, F, Hx.
      - apply Forall_app. split.
        + eapply Forall_impl; [exact F|]. intros x [Hx Hx']. split; [set_solver | exact Hx'].
        + repeat constructor; [set_solver | apply Hc | apply Hc]. }
    assert (S12 : step_post W already_seen c (ev1 ++ ev2) c2).
    { split; [|split; [exact I2 | split; [unfold c2; cbn; set_solver|]]].
      - apply (trace_post_one c d); try assumption.
        + rewrite records_of_app, R1, Hr. cbn [app]. apply cb_view_cases.
        + now rewrite detail_urls_app, Hd, app_nil_r.
      - exists [d]. split; [reflexivity|]. now rewrite records_of_app, R1, Hr. }
    eapply satv_weaken; [apply (Hk c2 I2) | |].
    + intros ev3 b H3. rewrite app_assoc. now apply step_post_trans with c2.
    + intros ev3 e H3. rewrite app_assoc. now apply step_exn_trans with c2.
Qed.

Lemma process_cards_step (cards : list ListingCard) : forall c,
  Forall (card_ok already_seen) cards -> closure_inv c ->
  steps c (fun x => x) (_process_cards W kw cards c).
Proof.
  induction cards as [|card rest IH]; intros c Hc I.
  - now apply steps_ret.
  - apply Forall_cons in Hc as [[Hne Hns] Hrest].
    cbn [_process_cards]. cbv zeta.
    destruct (bool_decide _) eqn:G; [now apply IH|].
    apply bool_decide_eq_false in G.
    rewrite (proj2 (truthy_iff _) Hne).
    eapply satv_bind; [apply satv_detail_fetch | intros ? ? [] |].
    intros ev1 [html status] F1.
    assert (Hcanon : canon_link (Export_.normalize_listing_link (link card))).
    { split; [exact Hne | apply normalize_idempotent]. }
    destruct (negb (status =? 200)).
    + apply emit_step; auto.
    + unfold detail_of.
      destruct (detail_page_outcome _ _ _) as [pe|detail].
      * intros s. exists []. cbn. rewrite !app_nil_r.
        split; [reflexivity|]. split; [right; right; eauto|].
        destruct (detail_event_records _ _ F1) as [R1 D1].
        apply (trace_post_one c (card_record card (Export_.normalize_listing_link (link card))));
          cbn [card_record r_card]; rewrite ?link_set_link; auto.
      * apply (emit_step (merge_detail W card (Export_.normalize_listing_link (link card))
                            detail)); auto.
        apply link_merge_detail.
Qed.

Lemma canonical_of_ok (c : ListingCard) :
  canonical_of c <> "" ->
  canonical_of c = Export_.normalize_listing_link (link c).
Proof.
  unfold canonical_of. destruct (Py.truthy (link c)); [reflexivity | congruence].
Qed.

Lemma dedupe_cards_ok (cards : list ListingCard) :
  Forall (card_ok already_seen) (_dedupe_unique already_seen cards).
Proof.
  destruct (dedupe_from_sound already_seen cards ∅) as (_ & F & _).
  eapply Forall_impl; [exact F|].
  intros c (H1 & H2 & _). unfold card_ok.
  rewrite <- (canonical_of_ok c H1). auto.
Qed.

Lemma process_new_step (cards : list ListingCard) c :
  closure_inv c ->
  steps c (fun x => x) (process_new W already_seen kw cards c).
Proof.
  intros I. unfold process_new. cbv zeta.
  destruct (List.filter _ _) eqn:F; [now apply steps_ret|].
  rewrite <- F. apply process_cards_step; [|exact I].
  apply List.Forall_forall. intros x Hx. apply filter_In in Hx as [Hx _].
  assert (D := dedupe_cards_ok cards). rewrite List.Forall_forall in D. now apply D.
Qed.

Section LoopSteps.
Variables (first_page_first_link : option string) (start_page : Z).

Abbreviation body_steps ls m :=
  (satv (fun ev (r : verdict * ctrl * loop_state) =>
           step_post W already_seen (cl ls) ev (cl (snd r)))
        (step_exn already_seen (cl ls)) m).

Lemma page_tail_step (page_cards : list ListingCard) (ls : loop_state) :
  closure_inv (cl ls) ->
  body_steps ls (page_tail W already_seen kw first_page_first_link page_cards ls).
Proof.
  intros I. unfold page_tail. destruct page_cards as [|c0 rest].
  - now apply (steps_ret (cl ls) (fun r => cl (snd r))).
  - cbv zeta. destruct (match first_page_first_link with Some _ => _ | None => _ end).
    + now apply (steps_ret (cl ls) (fun r => cl (snd r))).
    + apply (steps_bind (cl ls) (fun x => x) (fun r => cl (snd r))).
      * now apply process_new_step.
      * intros c Ic. now apply (steps_ret c (fun r => cl (snd r))).
Qed.

Lemma page_body_step (page_num : Z) (ls : loop_state) :
  closure_inv (cl ls) ->
  body_steps ls (page_body W base_url already_seen kw on_restart_browser
                   first_page_first_link page_num ls).
Proof.
  intros I. unfold page_body.
  apply (steps_bind (cl ls) (fun _ => cl ls) (fun r => cl (snd r))).
  { apply steps_silent; [|exact I].
    destruct (_ >? 0); [apply satv_sleep | apply satv_ret; constructor]. }
  intros _ _.
  apply (steps_bind (cl ls) (fun _ => cl ls) (fun r => cl (snd r))).
  { apply steps_silent; [apply satv_fetch_page | exact I]. }
  intros [html status] _.
  destruct (negb (status =? 200)).
  { now apply (steps_ret (cl ls) (fun r => cl (snd r))). }
  apply (steps_bind (cl ls) (fun _ => cl ls) (fun r => cl (snd r)));
    [now apply steps_search_cards|].
  intros page_cards _.
  destruct (is_nil _ && is_blocked_page html); [|now apply page_tail_step].
  apply (steps_bind (cl ls) (fun _ => cl ls) (fun r => cl (snd r))).
  { apply steps_silent; [|exact I].
    destruct on_restart_browser; [|apply satv_ret; constructor].
    intros s. exists [EvRestart]. cbn. split; [reflexivity|]. repeat constructor. }
  intros _ _.
  apply (steps_bind (cl ls) (fun _ => cl ls) (fun r => cl (snd r))).
  { apply steps_silent; [apply satv_sleep | exact I]. }
  intros _ _.
  apply (steps_bind (cl ls) (fun _ => cl ls) (fun r => cl (snd r))).
  { apply steps_silent; [apply satv_fetch_page | exact I]. }
  intros [html2 status2] _.
  destruct (negb (status2 =? 200)).
  { now apply (steps_ret (cl ls) (fun r => cl (snd r))). }
  apply (steps_bind (cl ls) (fun _ => cl ls) (fun r => cl (snd r)));
    [now apply steps_search_cards|].
  intros page_cards2 _.
  destruct (is_nil _ && is_blocked_page html2); [|now apply page_tail_step].
  destruct (_ >=? _); now apply (steps_ret (cl ls) (fun r => cl (snd r))).
Qed.

Lemma pages_loop_step (pages : list Z) : forall ls,
  closure_inv (cl ls) ->
  steps (cl ls) cl
    (pages_loop W base_url already_seen kw on_restart_browser
       first_page_first_link start_page pages ls).
Proof.
  induction pages as [|a rest IH]; intros ls I; cbn [pages_loop].
  - now apply steps_ret.
  - destruct (a <? start_page); [now apply IH|].
    apply (steps_bind (cl ls) (fun r => cl (snd r)) cl).
    { now apply page_body_step. }
    intros [[v k] ls1] I1. cbn [snd] in *.
    apply (steps_bind (cl ls1) (fun _ => cl ls1) cl).
    { apply steps_silent; [|exact I1].
      intros s. exists [EvPage a v]. cbn. split; [reflexivity|]. repeat constructor. }
    intros _ _. destruct k; [now apply IH | now apply steps_ret].
Qed.

End LoopSteps.

Lemma emit_cards_step (cards : list ListingCard) : forall c,
  satv (fun ev c' =>
          results c' = (results c ++ map card_only_record cards)%list /\
          records_of ev = cb_view W (map card_only_record cards) /\
          detail_urls ev = [])
       (fun ev e =>
          e = CallbackError /\
          sublist (records_of ev) (map card_only_record cards) /\
          detail_urls ev = [])
       (emit_cards W cards c).
Proof.
  induction cards as [|card rest IH]; intros c; cbn [emit_cards map].
  - apply satv_ret. rewrite app_nil_r, cb_view_nil. auto.
  - change (card_record card (Export_.normalize_listing_link (link card)))
      with (card_only_record card).
    eapply satv_bind; [apply satv_emit | |].
    + intros ev e (-> & Hr & Hd). rewrite Hr. repeat split; [|exact Hd].
      apply sublist_skip, sublist_nil_l.
    + intros ev1 c1 (Hr & Hd & ->).
      eapply satv_weaken; [apply IH | |]; cbn [results].
      * intros ev2 c2 (Hres & Hr2 & Hd2).
        rewrite Hres, <- app_assoc, records_of_app, detail_urls_app, Hr, Hr2, Hd, Hd2.
        repeat split. now rewrite <- cb_view_app.
      * intros ev2 e (-> & Hs & Hd2).
        rewrite records_of_app, detail_urls_app, Hr, Hd, Hd2.
        repeat split.
        destruct (cb_view_cases [card_only_record card]) as [-> | ->]; cbn [app];
          [now apply sublist_skip | now apply sublist_cons].
Qed.

Lemma links_of_card_only (cards : list ListingCard) :
  links_of (map card_only_record cards)
  = map (fun c => Export_.normalize_listing_link (link c)) cards.
Proof.
  unfold links_of. rewrite map_map. apply map_ext. intros c. apply link_set_link.
Qed.

Lemma dedupe_links_nodup (cards : list ListingCard) :
  NoDup (links_of (map card_only_record (_dedupe_unique already_seen cards))) /\
  Forall canon_link (links_of (map card_only_record (_dedupe_unique already_seen cards))).
Proof.
  rewrite links_of_card_only. unfold _dedupe_unique.
  destruct (dedupe_from_sound already_seen cards ∅) as (_ & F & N).
  assert (E : map canonical_of (dedupe_from already_seen ∅ cards)
              = map (fun c => Export_.normalize_listing_link (link c))
                    (dedupe_from already_seen ∅ cards)).
  { apply map_ext_in. intros c Hc. apply canonical_of_ok.
    rewrite List.Forall_forall in F. apply (F c Hc). }
  split; [now rewrite <- E|].
  apply Forall_fmap. eapply Forall_impl; [exact F|].
  intros c (H1 & _). cbn. rewrite <- (canonical_of_ok c H1).
  split; [exact H1|]. rewrite (canonical_of_ok c H1). apply normalize_idempotent.
Qed.

Lemma sublist_links (a b : list record) :
  sublist a b -> sublist (links_of a) (links_of b).
Proof. intros H. unfold links_of. now apply fmap_sublist. Qed.

Lemma paginate_emission (fetch_details : bool) (page_cards : list ListingCard)
    (pages : Z) (s : io) :
  let final :=
    paginate W base_url fetch_details already_seen kw on_restart_browser
      page_cards pages s in
  exists ev,
    trace (fst final) = (trace s ++ ev)%list /\
    run_post W already_seen fetch_details page_cards ev (snd final).
Proof.
  cbv zeta. unfold paginate.
  destruct fetch_details; cbn [negb].
  - assert (I0 : closure_inv closure0) by (split; constructor).
    assert (H : satv (fun ev rs => exists c, rs = results c /\
                                   step_post W already_seen closure0 ev c)
                     (step_exn already_seen closure0)
                (c <- (if start_page_of already_seen (pages) <=? 1
                       then process_new W already_seen kw page_cards closure0
                       else ret closure0) ;;
                 ls <- pages_loop W base_url already_seen kw on_restart_browser
                         match page_cards with c0 :: _ => Some (link c0) | [] => None end
                         (start_page_of already_seen (pages))
                         (range 2 (pages + 1))
                         {| all_cards := page_cards; cl := c; consecutive_blocked := 0 |} ;;
                 ret (results (cl ls)))).
    { eapply satv_bind with
        (R1 := fun ev c => step_post W already_seen closure0 ev c)
        (E1 := step_exn already_seen closure0); [| auto |].
      - destruct (_ <=? 1); [now apply process_new_step | now apply steps_ret].
      - intros ev1 c1 H1.
        eapply satv_bind with
          (R1 := fun ev ls => step_post W already_seen c1 ev (cl ls))
          (E1 := step_exn already_seen c1).
        + apply (pages_loop_step _ _ _
                   {| all_cards := page_cards; cl := c1; consecutive_blocked := 0 |}).
          apply H1.
        + intros ev e He. now apply step_exn_trans with c1.
        + intros ev2 ls H2. apply satv_ret. rewrite app_nil_r.
          exists (cl ls). split; [reflexivity | now apply step_post_trans with c1]. }
    destruct (H s) as (ev & T & P). exists ev. split; [exact T|].
    unfold run_post. destruct (snd _) as [e|rs].
    + destruct P as (Pe & N & F & D). repeat split; try assumption; try discriminate.
      eapply Forall_impl; [exact F|]. now intros l [_ Hl].
    + destruct P as (c & -> & (N & F & D) & (Nc & Fc) & _ & news & Hres & Hrec).
      cbn [closure0 results app] in Hres.
      repeat split; try assumption; try discriminate.
      * eapply Forall_impl; [exact F|]. now intros l [_ Hl].
      * eapply Forall_impl; [exact Fc|]. now intros l [_ Hl].
      * now rewrite Hres.
  - destruct (dedupe_links_nodup page_cards) as [N F].
    assert (H : satv (fun ev rs =>
                        rs = map card_only_record (_dedupe_unique already_seen page_cards) /\
                        records_of ev = cb_view W rs /\ detail_urls ev = [])
                     (fun ev e =>
                        e = CallbackError /\
                        sublist (records_of ev)
                          (map card_only_record (_dedupe_unique already_seen page_cards)) /\
                        detail_urls ev = [])
                (c <- emit_cards W (_dedupe_unique already_seen page_cards) closure0 ;;
                 ret (results c))).
    { eapply satv_bind; [apply emit_cards_step | auto |].
      intros ev1 c1 (Hres & Hr & Hd). apply satv_ret. rewrite app_nil_r.
      cbn [closure0 results app] in Hres. rewrite Hres. auto. }
    destruct (H s) as (ev & T & P). exists ev. split; [exact T|].
    unfold run_post. destruct (snd _) as [e|rs].
    + destruct P as (-> & Hs & Hd). rewrite Hd.
      apply sublist_links in Hs.
      repeat split; try (now left); try constructor.
      * eapply sublist_NoDup; [exact N | exact Hs].
      * rewrite Forall_forall in *. intros l Hl. apply F.
        eapply elem_of_sublist; [exact Hl | exact Hs].
    + destruct P as (-> & Hr & Hd). rewrite Hd, Hr.
      destruct (cb_view_cases (map card_only_record (_dedupe_unique already_seen page_cards)))
        as [E | E]; rewrite E; repeat split; try assumption; constructor.
Qed.

Lemma after_first_page_emission (fetch_details : bool) (html : string) (s : io) :
  let final :=
    after_first_page W base_url max_pages fetch_details already_seen kw
      on_restart_browser html s in
  exists ev,
    trace (fst final) = (trace s ++ ev)%list /\
    run_post W already_seen fetch_details
      (snd (parse_search_page (extraction W) html Config.IDEALISTA_DOMAIN))
      ev (snd final).
Proof.
  cbv zeta.
  destruct (after_first_page_cases W base_url max_pages fetch_details already_seen kw
              on_restart_browser html s)
    as [(e & -> & He) | (total_count & page_cards & _ & -> & _ & ->)].
  - exists []. cbn [fst snd]. rewrite app_nil_r. split; [reflexivity|].
    unfold run_post. cbn [records_of detail_urls links_of map fmap list_fmap].
    repeat split; try (constructor; fail).
    destruct He as [He | He]; [right; left; exact He | right; right; exact He].
  - cbn [snd]. apply paginate_emission.
Qed.

End EmissionFacts.

Section RunEmission.
Import Parsers Eff Fetcher Orchestrator Spec.
Import Export_.

Variable W : World.

Lemma page1_silent (base_url : string) (ev : list event) :
  Forall (page1_event base_url) ev -> Forall silent ev.
Proof.
  intros F. eapply Forall_impl; [exact F|].
  intros e [-> | [w ->]]; exact I.
Qed.

Lemma ev_ok_records Pf Pp (Pr : record -> Prop) Pd (ev : list event) :
  Forall (ev_ok Pf Pp Pr Pd) ev -> Forall Pr (records_of ev).
Proof.
  induction 1 as [|e ev He F IH]; [constructor|].
  destruct e; cbn [records_of]; try exact IH. constructor; [exact He | exact IH].
Qed.

Lemma run_post_prefix already_seen fetch_details cards ev1 ev2 r :
  Forall silent ev1 ->
  run_post W already_seen fetch_details cards ev2 r ->
  run_post W already_seen fetch_details cards (ev1 ++ ev2) r.
Proof.
  intros F H. destruct (silent_records ev1 F) as [Hr Hd].
  unfold run_post in *. now rewrite records_of_app, detail_urls_app, Hr, Hd.
Qed.

Section WithArguments.
Variables (base_url : string) (max_pages : Z) (fetch_details : bool).
Variable already_seen : gset string.
Variable kw : fetch_kwargs.
Variable on_restart_browser : bool.

Abbreviation this_run :=
  (_run_with_fetcher W base_url max_pages fetch_details already_seen kw
     on_restart_browser).

Lemma run_with_fetcher_emission (s : io) :
  exists s1 html status ev,
    fetch_first_page W base_url kw s = (s1, inr (html, status)) /\
    trace (fst (this_run s)) = (trace s ++ ev)%list /\
    if first_page_blocked W html status then
      snd (this_run s) = inl (FirstPageError status) /\
      records_of ev = [] /\ detail_urls ev = []
    else
      run_post W already_seen fetch_details
        (snd (parse_search_page (extraction W) html Config.IDEALISTA_DOMAIN))
        ev (snd (this_run s)).
Proof.
  destruct (first_page_spec W base_url kw s) as (s1 & html & status & ev1 & E1 & T1 & F1).
  apply page1_silent in F1.
  rewrite run_unfold, E1.
  destruct (first_page_blocked W html status) eqn:B.
  - exists s1, html, status, ev1. rewrite B. cbn [fst snd].
    split; [reflexivity|]. split; [exact T1|]. split; [reflexivity|].
    now apply silent_records.
  - destruct (after_first_page_emission W base_url max_pages already_seen kw
                on_restart_browser fetch_details html s1) as (ev2 & T2 & P2).
    exists s1, html, status, (ev1 ++ ev2)%list. rewrite B.
    split; [reflexivity|]. split; [now rewrite T2, T1, app_assoc|].
    now apply run_post_prefix.
Qed.

(** Whatever a run emits or returns carries a canonical link outside
    SeenLinks, each link once. *)
Lemma run_links_fresh (s : io) :
  exists ev,
    trace (fst (this_run s)) = (trace s ++ ev)%list /\
    NoDup (links_of (records_of ev)) /\
    Forall (fun l => canon_link l /\ l ∉ already_seen) (links_of (records_of ev)) /\
    Forall (detail_ok already_seen) (detail_urls ev) /\
    (fetch_details = false -> detail_urls ev = []) /\
    match snd (this_run s) with
    | inr rs =>
        NoDup (links_of rs) /\
        Forall (fun l => canon_link l /\ l ∉ already_seen) (links_of rs) /\
        records_of ev = cb_view W rs
    | inl _ => True
    end.
Proof.
  destruct (run_with_fetcher_emission s) as (s1 & html & status & ev & E1 & T & P).
  destruct (run_spec W base_url max_pages fetch_details already_seen kw
              on_restart_browser s) as (s1' & html' & status' & ev1 & E1' & T1 & F1 & Q).
  rewrite E1 in E1'. injection E1' as <- <- <-.
  exists ev. split; [exact T|].
  destruct (first_page_blocked W html status).
  - destruct P as (-> & Hr & Hd). rewrite Hr, Hd.
    repeat split; constructor.
  - cbv zeta in Q. destruct Q as (ev2 & T2 & F2 & _ & R2).
    assert (Hev : ev = (ev1 ++ ev2)%list).
    { rewrite T2, T1, <- app_assoc in T. now apply app_inv_head in T. }
    assert (Hfresh : Forall (link_ok already_seen) (records_of ev)).
    { rewrite Hev, records_of_app.
      destruct (silent_records ev1 (page1_silent _ _ F1)) as [-> _]. cbn [app].
      eapply Forall_impl; [apply (ev_ok_records _ _ _ _ _ F2)|]. now intros r [Hr _]. }
    destruct P as (N & C & D & D0 & P).
    assert (Hlinks : forall rs, Forall canon_link (links_of rs) ->
                       Forall (link_ok already_seen) rs ->
                       Forall (fun l => canon_link l /\ l ∉ already_seen) (links_of rs)).
    { intros rs Hc Hf. unfold links_of in *. rewrite Forall_fmap in *.
      rewrite Forall_forall in *. intros r Hr. cbn.
      split; [apply (Hc r Hr)|].
      destruct (Hc r Hr) as [_ Hn]. cbn in Hn.
      assert (Hl := Hf r Hr). unfold link_ok in Hl. now rewrite Hn in Hl. }
    repeat split; try assumption; [now apply Hlinks|].
    destruct (snd (this_run s)) as [e|rs]; [exact I|].
    destruct P as (Nr & Cr & Hrec & _).
    repeat split; try assumption. apply Hlinks; [exact Cr|].
    eapply Forall_impl; [exact R2|]. now intros r [Hr _].
Qed.

End WithArguments.

Lemma run_unfold_kw (base_url : string) (max_pages : option Z) (fetch_details : bool)
    (seen_urls : option (gset string)) :
  exists kw orb,
    run W base_url max_pages fetch_details seen_urls
    = _run_with_fetcher W (Py.rstrip_slash base_url)
        (match max_pages with Some n => n | None => Approaches.MAX_PAGES (settings W) end)
        fetch_details (seen_of seen_urls) kw orb.
Proof.
  unfold run. cbv zeta.
  destruct (Approaches.is_selenium_like _); eexists; eexists; reflexivity.
Qed.

Lemma run_fresh (base_url : string) (max_pages : option Z) (fetch_details : bool)
    (seen_urls : option (gset string)) (s : io) :
  let final := run W base_url max_pages fetch_details seen_urls s in
  exists ev,
    trace (fst final) = (trace s ++ ev)%list /\
    NoDup (links_of (records_of ev)) /\
    Forall (fun l => canon_link l /\ l ∉ seen_of seen_urls) (links_of (records_of ev)) /\
    Forall (detail_ok (seen_of seen_urls)) (detail_urls ev) /\
    (fetch_details = false -> detail_urls ev = []) /\
    match snd final with
    | inr rs =>
        NoDup (links_of rs) /\
        Forall (fun l => canon_link l /\ l ∉ seen_of seen_urls) (links_of rs) /\
        records_of ev = cb_view W rs
    | inl _ => True
    end.
Proof.
  cbv zeta.
  destruct (run_unfold_kw base_url max_pages fetch_details seen_urls) as (kw & orb & ->).
  apply run_links_fresh.
Qed.

End RunEmission.

Section RunGuarantees.
Import Parsers Eff Fetcher Orchestrator Spec.
Import Export_.

Variable W : World.
Variables (base_url : string) (max_pages : option Z) (fetch_details : bool).
Variable seen_urls : option (gset string).

Abbreviation whole_run := (run W base_url max_pages fetch_details seen_urls).

(** X12. A run emits every listing at most once: the records handed to
    [on_record] have pairwise distinct links, and so have the records of
    the returned list; each of these links is non-empty and in canonical
    form (left unchanged by [normalize_listing_link]).  This holds on both
    paths, for every site, and also for a run that a callback error
    interrupts. *)
Theorem run_emits_each_listing_once (s : io) :
  exists ev,
    trace (fst (whole_run s)) = (trace s ++ ev)%list /\
    NoDup (links_of (records_of ev)) /\
    Forall (fun l => l <> "" /\ normalize_listing_link l = l) (links_of (records_of ev)) /\
    match snd (whole_run s) with
    | inr rs =>
        NoDup (links_of rs) /\
        Forall (fun l => l <> "" /\ normalize_listing_link l = l) (links_of rs)
    | inl _ => True
    end.
Proof.
  destruct (run_fresh W base_url max_pages fetch_details seen_urls s)
    as (ev & T & N & F & _ & _ & P).
  exists ev. split; [exact T|]. split; [exact N|]. split.
  - eapply Forall_impl; [exact F|]. now intros l [Hl _].
  - destruct (snd _) as [e|rs]; [exact I|]. destruct P as (Nr & Fr & _).
    split; [exact Nr|]. eapply Forall_impl; [exact Fr|]. now intros l [Hl _].
Qed.

(** X13. The callback and the result list stay in step: when a run
    returns, the records it handed to [on_record], in the order of the
    calls, are exactly the returned list; without a callback no record
    event occurs. *)
Theorem callback_sees_returned_records (s : io) :
  exists ev,
    trace (fst (whole_run s)) = (trace s ++ ev)%list /\
    match snd (whole_run s) with
    | inr rs =>
        records_of ev = match on_record W with Some _ => rs | None => [] end
    | inl _ => True
    end.
Proof.
  destruct (run_fresh W base_url max_pages fetch_details seen_urls s)
    as (ev & T & _ & _ & _ & _ & P).
  exists ev. split; [exact T|].
  destruct (snd _) as [e|rs]; [exact I|]. apply P.
Qed.

(** X14. Detail pages are fetched for new listings only: every detail
    URL a run navigates to is a non-empty canonical link that is not in
    SeenLinks; with [fetch_details] off no detail page is fetched at all. *)
Theorem detail_pages_fetched_are_new (s : io) :
  exists ev,
    trace (fst (whole_run s)) = (trace s ++ ev)%list /\
    if fetch_details then
      Forall (fun u => u <> "" /\ normalize_listing_link u = u /\ u ∉ seen_of seen_urls)
             (detail_urls ev)
    else detail_urls ev = [].
Proof.
  destruct (run_fresh W base_url max_pages fetch_details seen_urls s)
    as (ev & T & _ & _ & D & D0 & _).
  exists ev. split; [exact T|].
  destruct fetch_details; [exact D | now apply D0].
Qed.

End RunGuarantees.

Section CardOnlyRun.
Import Parsers Eff Fetcher Orchestrator Spec.
Local Open Scope eff_scope.

Variable W : World.
Variables (base_url : string) (max_pages : Z).
Variable already_seen : gset string.
Variable kw : fetch_kwargs.
Variable on_restart_browser : bool.

Lemma emit_cards_quiet (cards : list ListingCard) :
  on_record W = None ->
  forall c s, exists c', emit_cards W cards c s = (s, inr c').
Proof.
  intros Hn. induction cards as [|card rest IH]; intros c s; cbn [emit_cards].
  - now exists c.
  - unfold bind, emit. rewrite Hn. cbn. apply IH.
Qed.

Lemma paginate_card_only (page_cards : list ListingCard) (pages : Z) (s : io) :
  let final :=
    paginate W base_url false already_seen kw on_restart_browser page_cards pages s in
  exists ev,
    trace (fst final) = (trace s ++ ev)%list /\
    match snd final with
    | inr rs =>
        rs = map card_only_record (_dedupe_unique already_seen page_cards) /\
        records_of ev = cb_view W rs
    | inl e => e = CallbackError /\ on_record W <> None
    end.
Proof.
  cbv zeta. unfold paginate. cbn [negb].
  assert (H : satv (fun ev rs =>
                      rs = map card_only_record (_dedupe_unique already_seen page_cards) /\
                      records_of ev = cb_view W rs)
                   (fun ev e => e = CallbackError)
              (c <- emit_cards W (_dedupe_unique already_seen page_cards) closure0 ;;
               ret (results c))).
  { eapply satv_bind; [apply emit_cards_step | now intros ev e [-> _] |].
    intros ev1 c1 (Hres & Hr & Hd). apply satv_ret. rewrite app_nil_r.
    cbn [closure0 results app] in Hres. rewrite Hres. auto. }
  destruct (H s) as (ev & T & P). exists ev. split; [exact T|].
  destruct (snd _) as [e|rs] eqn:Hs; [|exact P].
  split; [exact P|]. intros Hn.
  destruct (emit_cards_quiet (_dedupe_unique already_seen page_cards) Hn closure0 s)
    as [c' Hc].
  unfold bind in Hs. rewrite Hc in Hs. discriminate Hs.
Qed.

(** X15. With [fetch_details] off, the outcome of a run is determined by
    page 1 alone.  Once page 1 is accepted, the run ends in exactly one
    of these ways: the extraction of the cards raises, and so does the
    run; the announced total is too large for the division of the page
    count, and the run raises OverflowError; otherwise the run returns,
    in page order, one record per card that [_dedupe_unique] keeps of the
    cards of page 1, each being the card with its link replaced by the
    canonical link and no detail, the callback having received the same
    records -- unless there is a callback and it raises.  Without a
    callback the run therefore returns that list. *)
Theorem card_only_run_result (s : io) :
  let final :=
    _run_with_fetcher W base_url max_pages false already_seen kw on_restart_browser s in
  exists s1 html status ev,
    fetch_first_page W base_url kw s = (s1, inr (html, status)) /\
    trace (fst final) = (trace s ++ ev)%list /\
    if first_page_blocked W html status then
      snd final = inl (FirstPageError status)
    else
      match search_page_outcome (extraction W) html Config.IDEALISTA_DOMAIN with
      | inl p => snd final = inl (ParserError p)
      | inr (total_count, page_cards) =>
          match total_pages total_count max_pages with
          | None => snd final = inl OverflowError
          | Some _ =>
              match snd final with
              | inr rs =>
                  rs = map (fun c => card_record c (Export_.normalize_listing_link (link c)))
                           (_dedupe_unique already_seen page_cards) /\
                  records_of ev = match on_record W with Some _ => rs | None => [] end
              | inl e => e = CallbackError /\ on_record W <> None
              end
          end
      end.
Proof.
  cbv zeta.
  destruct (first_page_spec W base_url kw s) as (s1 & html & status & ev1 & E1 & T1 & F1).
  apply page1_silent, silent_records in F1. destruct F1 as [R1 _].
  rewrite run_unfold, E1.
  destruct (first_page_blocked W html status) eqn:B.
  - exists s1, html, status, ev1. rewrite B. cbn [fst snd]. auto.
  - unfold after_first_page.
    destruct (search_page_outcome (extraction W) html Config.IDEALISTA_DOMAIN)
      as [p|[total_count page_cards]] eqn:O.
    + exists s1, html, status, ev1. rewrite B, O. cbn [fst snd throw]. auto.
    + destruct (total_pages total_count max_pages) as [pages|] eqn:TP.
      * destruct (paginate_card_only page_cards pages s1) as (ev2 & T2 & P2).
        exists s1, html, status, (ev1 ++ ev2)%list. rewrite B, O, TP.
        split; [reflexivity|]. split; [now rewrite T2, T1, app_assoc|].
        rewrite records_of_app, R1. exact P2.
      * exists s1, html, status, ev1. rewrite B, O, TP. cbn [fst snd throw]. auto.
Qed.

End CardOnlyRun.

Section ResumeRoundTrip.
Import Parsers Eff Fetcher Orchestrator Spec.
Import Export_.

Lemma canon_link_stripped (l : string) : canon_link l -> Py.strip l = l.
Proof.
  intros [_ H]. rewrite <- H at 1. rewrite normalize_stripped. exact H.
Qed.

Lemma csv_reload (rows : list csv_row) (seen : gset string) (r : record) :
  get_existing_links_from_csv (Some rows) = Some seen ->
  (exists row, In row rows /\ row !! "link" = Some (Some (flattened_link r))) ->
  canon_link (link (r_card r)) -> no_newline (link (r_card r)) = true ->
  link (r_card r) ∈ seen.
Proof.
  intros Hread (row & Hrow & Hcell) Hc Hn.
  assert (Hflat : flattened_link r = link (r_card r)).
  { unfold flattened_link. cbn [_safe_str].
    rewrite (canon_link_stripped _ Hc). now apply sub_newlines_id. }
  cbn [get_existing_links_from_csv] in Hread.
  apply (existing_links_fold rows ∅ seen _ Hread). right.
  exists row, (link (r_card r)). split; [exact Hrow|].
  split; [unfold row_get_link; now rewrite Hcell, Hflat|].
  rewrite (canon_link_stripped _ Hc).
  destruct Hc as [Hne Hfix]. split; [exact Hne | now symmetry].
Qed.

(** X16. Resuming from the CSV of an earlier run does not scrape a
    listing twice.  Let [r] be a record an earlier run handed to
    [on_record] -- whether that run completed or not -- let the CSV hold
    a row whose link cell is [_safe_str] of the record's link, and let
    [get_existing_links_from_csv] read that file without raising, a later
    run, on any site, taking the set it returns as SeenLinks.  If the
    link holds no line break, it is in the resume set, and the later run
    neither hands a record with that link to the callback nor returns
    one. *)
Theorem resume_skips_written_listings
    (W1 W2 : World) (base1 base2 : string) (mp1 mp2 : option Z) (fd1 fd2 : bool)
    (su1 : option (gset string)) (s1 s2 : io) (ev1 : list event)
    (r : record) (rows : list csv_row) (seen : gset string) :
  trace (fst (run W1 base1 mp1 fd1 su1 s1)) = (trace s1 ++ ev1)%list ->
  In r (records_of ev1) ->
  (exists row, In row rows /\ row !! "link" = Some (Some (flattened_link r))) ->
  no_newline (link (r_card r)) = true ->
  get_existing_links_from_csv (Some rows) = Some seen ->
  let later := run W2 base2 mp2 fd2 (Some seen) s2 in
  link (r_card r) ∈ seen /\
  exists ev,
    trace (fst later) = (trace s2 ++ ev)%list /\
    ~ In (link (r_card r)) (links_of (records_of ev)) /\
    match snd later with
    | inr rs2 => ~ In (link (r_card r)) (links_of rs2)
    | inl _ => True
    end.
Proof.
  intros Hrun Hin Hrow Hn Hread. cbv zeta.
  assert (Hcanon : canon_link (link (r_card r))).
  { destruct (run_fresh W1 base1 mp1 fd1 su1 s1) as (ev & T & _ & F & _).
    assert (ev = ev1) as ->.
    { rewrite Hrun in T. now apply app_inv_head in T. }
    unfold links_of in F. rewrite Forall_fmap, List.Forall_forall in F.
    apply (F r Hin). }
  assert (Hseen : link (r_card r) ∈ seen).
  { now apply (csv_reload rows). }
  split; [exact Hseen|].
  destruct (run_fresh W2 base2 mp2 fd2 (Some seen) s2)
    as (ev & T & _ & F & _ & _ & P).
  cbn [seen_of] in *.
  exists ev. split; [exact T|]. split.
  - intros Hl. apply list_elem_of_In in Hl.
    rewrite Forall_forall in F. destruct (F _ Hl) as [_ Hns]. now apply Hns.
  - destruct (snd (run W2 base2 mp2 fd2 _ s2)) as [e|rs2]; [exact I|].
    destruct P as (_ & Fr & _). intros Hl. apply list_elem_of_In in Hl.
    rewrite Forall_forall in Fr. destruct (Fr _ Hl) as [_ Hns]. now apply Hns.
Qed.

Lemma resume_skips_written_listings_witness :
  let seen : gset string :=
    {[ "https://www.idealista.com/inmueble/12/";
       "https://www.idealista.com/inmueble/11/" ]} in
  let later :=
    run (Examples.world Examples.three_pages None) Examples.base (Some 3) true
      (Some seen) io0 in
  link (r_card Examples.written_record) ∈ seen /\
  exists ev,
    trace (fst later) = (trace io0 ++ ev)%list /\
    ~ In (link (r_card Examples.written_record)) (links_of (records_of ev)) /\
    match snd later with
    | inr rs2 => ~ In (link (r_card Examples.written_record)) (links_of rs2)
    | inl _ => True
    end.
Proof.
  apply (resume_skips_written_listings
           (Examples.world Examples.three_pages (Some (fun _ => true)))
           (Examples.world Examples.three_pages None)
           Examples.base Examples.base (Some 3) (Some 3) false true None io0 io0
           (trace (fst (run (Examples.world Examples.three_pages (Some (fun _ => true)))
                          Examples.base (Some 3) false None io0)))
           Examples.written_record Examples.written_rows).
  - reflexivity.
  - vm_compute. left. reflexivity.
  - eexists. split; [left; reflexivity | reflexivity].
  - reflexivity.
  - reflexivity.
Defined.

End ResumeRoundTrip.

(* ===================================================================== *)
(** * How often a run navigates *)
(* ===================================================================== *)

Section NavigationBound.
Import Parsers Eff Fetcher Orchestrator Spec.
Local Open Scope eff_scope.

Variable W : World.

Abbreviation costs n c f m :=
  (satv (fun ev a => cost_post W n c ev (f a)) (cost_exn W n) m).

Lemma satv_conj {A} (R1 R2 : list event -> A -> Prop) (E1 E2 : list event -> exn -> Prop)
    (m : M A) :
  satv R1 E1 m -> satv R2 E2 m ->
  satv (fun ev a => R1 ev a /\ R2 ev a) (fun ev e => E1 ev e /\ E2 ev e) m.
Proof.
  intros H1 H2 s. destruct (H1 s) as (ev & T & P1). destruct (H2 s) as (ev' & T' & P2).
  assert (ev' = ev) as ->.
  { rewrite T in T'. now apply app_inv_head in T'. }
  exists ev. split; [exact T|]. destruct (snd (m s)); auto.
Qed.

Lemma retry_bound (kw : fetch_kwargs) (t : target) (url : string) :
  satv (fun ev _ => (fetches_of ev <= 3)%nat) (fun _ _ => False)
       (fetch_html_with_retry W kw t url MAX_RETRIES BACKOFF_SEC).
Proof.
  intros s.
  destruct (retry_total W kw t url MAX_RETRIES BACKOFF_SEC s ltac:(discriminate))
    as (res & evs & R & T & H200 & Hex).
  exists evs. split; [exact T|]. rewrite R.
  destruct (first_true_or_none
              (fun j => is_200 (fetch_result W kw (browser W url (calls s + j))))
              (Z.to_nat MAX_RETRIES)) as [(k & Hk & Hf & Hb)|Hnone].
  - destruct (is_200_inv _ Hf) as [h Hh].
    destruct (H200 k h Hk Hh Hb) as (_ & F & _). rewrite F.
    change (Z.to_nat MAX_RETRIES) with 3%nat in Hk. lia.
  - destruct (Hex Hnone) as (_ & F & _). rewrite F. reflexivity.
Qed.

Lemma cost_ret {A} c (f : A -> closure) (a : A) : f a = c -> costs 0%nat c f (ret a).
Proof.
  intros E. apply satv_ret. rewrite E. split; cbn; [lia | auto].
Qed.

Lemma cost_post_trans n1 n2 c ev1 c1 ev2 c2 :
  cost_post W n1 c ev1 c1 -> cost_post W n2 c1 ev2 c2 ->
  cost_post W (n1 + n2) c (ev1 ++ ev2) c2.
Proof.
  intros [A1 B1] [A2 B2]. split.
  - rewrite fetches_of_app. lia.
  - intros H. specialize (B1 H). specialize (B2 H).
    rewrite records_of_app, length_app. lia.
Qed.

Lemma cost_exn_trans n1 n2 c ev1 c1 ev2 e :
  cost_post W n1 c ev1 c1 -> cost_exn W n2 ev2 e ->
  cost_exn W (n1 + n2) (ev1 ++ ev2) e.
Proof.
  intros [A1 B1] [C1 C2]. split.
  - intros He. destruct (C1 He) as [H A2]. split; [exact H|]. specialize (B1 H).
    rewrite fetches_of_app, records_of_app, length_app. lia.
  - intros H. specialize (B1 H). specialize (C2 H).
    rewrite fetches_of_app, records_of_app, length_app. lia.
Qed.

Lemma cost_exn_le n n' ev e :
  (n <= n')%nat -> cost_exn W n ev e -> cost_exn W n' ev e.
Proof.
  intros L [C1 C2]. split.
  - intros He. destruct (C1 He) as [H A]. split; [exact H | lia].
  - intros H. specialize (C2 H). lia.
Qed.

Lemma cost_exn_parser n ev e :
  (fetches_of ev <= n + 3)%nat -> e <> CallbackError -> cost_exn W n ev e.
Proof.
  intros L N. split; [intros He; contradiction | intros _; lia].
Qed.

Lemma cost_bind {A B} n1 n2 c (f : A -> closure) (g : B -> closure)
    (m : M A) (k : A -> M B) :
  costs n1 c f m ->
  (forall a, costs n2 (f a) g (k a)) ->
  costs (n1 + n2)%nat c g (bind m k).
Proof.
  intros Hm Hk. eapply satv_bind; [exact Hm | |].
  - intros ev e. apply cost_exn_le. lia.
  - intros ev1 a H1. eapply satv_weaken; [apply Hk | |].
    + intros ev2 b H2. now apply cost_post_trans with (f a).
    + intros ev2 e H2. now apply cost_exn_trans with c (f a).
Qed.

Lemma cost_weaken {A} n n' c (f : A -> closure) (m : M A) :
  (n <= n')%nat -> costs n c f m -> costs n' c f m.
Proof.
  intros L H. eapply satv_weaken; [exact H | |].
  - intros ev a [A1 B1]. split; [lia | exact B1].
  - intros ev e. now apply cost_exn_le.
Qed.

Lemma cost_search_cards c (html : string) :
  costs 0%nat c (fun _ => c) (search_cards W html).
Proof.
  eapply satv_weaken; [apply satv_search_cards | |].
  - intros ev a ->. split; cbn; [lia | auto].
  - intros ev e [-> [p ->]]. apply cost_exn_parser; [cbn; lia | discriminate].
Qed.

Lemma cost_quiet {A} n c (m : M A) :
  satv (fun ev _ => (fetches_of ev <= n)%nat /\ records_of ev = [])
       (fun ev _ => False) m ->
  costs n c (fun _ => c) m.
Proof.
  intros H. eapply satv_weaken; [exact H | | intros ? ? []].
  intros ev a [L Hr]. split; [lia | intros _; now rewrite Hr].
Qed.

Lemma cost_log c (e : event) :
  fetches_of [e] = 0%nat -> records_of [e] = [] ->
  costs 0%nat c (fun _ => c) (log e).
Proof.
  intros F R. apply cost_quiet. intros s. exists [e]. cbn [log fst snd trace].
  split; [reflexivity|]. rewrite F. auto.
Qed.

Variables (base_url : string) (max_pages : Z).
Variable already_seen : gset string.
Variable kw : fetch_kwargs.
Variable on_restart_browser : bool.

Lemma cost_fetch_page c (page_num : Z) :
  costs 3%nat c (fun _ => c) (fetch_page W base_url kw page_num).
Proof.
  apply cost_quiet. eapply satv_weaken.
  - apply satv_conj; [apply retry_bound | apply (satv_fetch_page W base_url kw page_num)].
  - intros ev a [L F]. split; [exact L | now apply silent_records].
  - intros ev e [[] _].
Qed.

Lemma cost_emit (d : record) (c : closure) :
  satv (fun ev c' =>
          fetches_of ev = 0%nat /\
          results c' = (results c ++ [d])%list /\
          (on_record W <> None -> records_of ev = [d]))
       (fun ev e =>
          on_record W <> None /\ fetches_of ev = 0%nat /\ records_of ev = [d])
       (emit W d c).
Proof.
  intros s. unfold emit. destruct (on_record W) as [callback|].
  - exists [EvRecord d]. unfold bind, log. cbn [fst snd trace].
    destruct (callback d); cbn; repeat split; auto; discriminate.
  - exists []. cbn. rewrite app_nil_r. repeat split. intros H. congruence.
Qed.

Lemma cost_emit_bind (d : record) c c1 (ev1 : list event) (n : nat)
    (k : closure -> M closure) :
  results c1 = results c ->
  (fetches_of ev1 <= n)%nat -> (n <= 3)%nat -> records_of ev1 = [] ->
  (forall c', costs 0%nat c' (fun x => x) (k c')) ->
  satv (fun ev2 b => cost_post W 0 c (ev1 ++ ev2) b)
       (fun ev2 e => cost_exn W 0 (ev1 ++ ev2) e)
       (bind (emit W d c1) k).
Proof.
  intros Hres L1 L3 R1 Hk.
  eapply satv_bind; [apply cost_emit | |].
  - intros ev e (H & F & R).
    assert ((fetches_of (ev1 ++ ev) <= 0 + 3 * length (records_of (ev1 ++ ev)))%nat).
    { rewrite fetches_of_app, records_of_app, R1, R, F. cbn. lia. }
    split; [intros _; split; [exact H | assumption] | intros _; lia].
  - intros ev2 c2 (F & Hr & R).
    eapply satv_weaken; [apply Hk | |].
    + intros ev3 b [A3 B3]. split.
      * rewrite !fetches_of_app, F. rewrite Hr, length_app, Hres in A3. cbn in *. lia.
      * intros H. specialize (B3 H). rewrite !records_of_app, R1, (R H).
        rewrite Hr, length_app, Hres in B3. cbn [app length] in *. lia.
    + intros ev3 e [C1 C2]. split.
      * intros He. destruct (C1 He) as [H A3]. split; [exact H|].
        rewrite !fetches_of_app, !records_of_app, F, R1, (R H).
        cbn [app length]. lia.
      * intros H. specialize (C2 H).
        rewrite !fetches_of_app, !records_of_app, F, R1, (R H).
        cbn [app length]. lia.
Qed.

Lemma cost_process_cards (cards : list ListingCard) : forall c,
  costs 0%nat c (fun x => x) (_process_cards W kw cards c).
Proof.
  induction cards as [|card rest IH]; intros c; cbn [_process_cards].
  - now apply cost_ret.
  - cbv zeta. destruct (bool_decide _); [apply IH|].
    eapply satv_bind with
      (R1 := fun ev _ => (fetches_of ev <= 3)%nat /\ records_of ev = [])
      (E1 := fun _ _ => False /\ False).
    + eapply satv_weaken.
      * apply satv_conj; [apply retry_bound | apply (satv_detail_fetch W kw)].
      * intros ev a [L F]. split; [exact L|]. now apply detail_event_records in F.
      * intros ev e [[] _].
    + intros ev e [[] _].
    + intros ev1 [html status] [L R].
      destruct (negb (status =? 200));
        [apply cost_emit_bind with (n := 3%nat); auto|].
      eapply satv_bind; [apply satv_detail_of | |].
      * intros ev e [-> [p ->]]. rewrite app_nil_r.
        apply cost_exn_parser; [lia | discriminate].
      * intros ev detail ->. cbn [app].
        apply cost_emit_bind with (n := 3%nat); auto.
Qed.

Lemma cost_emit_cards (cards : list ListingCard) : forall c,
  costs 0%nat c (fun x => x) (emit_cards W cards c).
Proof.
  induction cards as [|card rest IH]; intros c; cbn [emit_cards].
  - now apply cost_ret.
  - eapply satv_weaken.
    + apply (cost_emit_bind _ c c [] 0%nat); auto; cbn; lia.
    + intros ev b H. exact H.
    + intros ev e H. exact H.
Qed.

Lemma cost_process_new (cards : list ListingCard) c :
  costs 0%nat c (fun x => x) (process_new W already_seen kw cards c).
Proof.
  unfold process_new. cbv zeta.
  destruct (List.filter _ _) eqn:F; [now apply cost_ret|].
  apply cost_process_cards.
Qed.

Section LoopCost.
Variables (first_page_first_link : option string) (start_page : Z).

Lemma cost_page_tail (page_cards : list ListingCard) (ls : loop_state) :
  costs 0%nat (cl ls) (fun r : verdict * ctrl * loop_state => cl (snd r))
    (page_tail W already_seen kw first_page_first_link page_cards ls).
Proof.
  unfold page_tail. destruct page_cards as [|c0 rest].
  - now apply cost_ret.
  - cbv zeta. destruct (match first_page_first_link with Some _ => _ | None => _ end).
    + now apply cost_ret.
    + apply (cost_bind 0 0 (cl ls) (fun x => x)); [apply cost_process_new|].
      intros c. now apply cost_ret.
Qed.

Lemma cost_page_body (page_num : Z) (ls : loop_state) :
  costs 6%nat (cl ls) (fun r : verdict * ctrl * loop_state => cl (snd r))
    (page_body W base_url already_seen kw on_restart_browser
       first_page_first_link page_num ls).
Proof.
  unfold page_body.
  apply (cost_bind 0 6 (cl ls) (fun _ => cl ls)).
  { destruct (_ >? 0); [now apply cost_log | now apply cost_ret]. }
  intros _.
  apply (cost_bind 3 3 (cl ls) (fun _ => cl ls)); [apply cost_fetch_page|].
  intros [html status].
  destruct (negb (status =? 200)).
  { apply cost_weaken with 0%nat; [lia | now apply cost_ret]. }
  apply (cost_bind 0 3 (cl ls) (fun _ => cl ls)); [apply cost_search_cards|].
  intros page_cards.
  destruct (is_nil _ && is_blocked_page html);
    [|apply cost_weaken with 0%nat; [lia | apply cost_page_tail]].
  apply (cost_bind 0 3 (cl ls) (fun _ => cl ls)).
  { destruct on_restart_browser; [now apply cost_log | now apply cost_ret]. }
  intros _.
  apply (cost_bind 0 3 (cl ls) (fun _ => cl ls)); [now apply cost_log|].
  intros _.
  apply (cost_bind 3 0 (cl ls) (fun _ => cl ls)); [apply cost_fetch_page|].
  intros [html2 status2].
  destruct (negb (status2 =? 200)); [now apply cost_ret|].
  apply (cost_bind 0 0 (cl ls) (fun _ => cl ls)); [apply cost_search_cards|].
  intros page_cards2.
  destruct (is_nil _ && is_blocked_page html2); [|apply cost_page_tail].
  destruct (_ >=? _); now apply cost_ret.
Qed.

Lemma cost_pages_loop (pages : list Z) : forall ls,
  costs (6 * length pages)%nat (cl ls) cl
    (pages_loop W base_url already_seen kw on_restart_browser
       first_page_first_link start_page pages ls).
Proof.
  induction pages as [|a rest IH]; intros ls; cbn [pages_loop].
  - now apply cost_ret.
  - destruct (a <? start_page).
    { apply cost_weaken with (6 * length rest)%nat; [cbn; lia | apply IH]. }
    replace (6 * length (a :: rest))%nat with (6 + (0 + 6 * length rest))%nat
      by (cbn [length]; lia).
    apply (cost_bind _ _ (cl ls) (fun r : verdict * ctrl * loop_state => cl (snd r)));
      [apply cost_page_body|].
    intros [[v k] ls1]. cbn [snd].
    apply (cost_bind _ _ (cl ls1) (fun _ => cl ls1)); [now apply cost_log|].
    intros _. destruct k; [apply IH|].
    apply cost_weaken with 0%nat; [lia | now apply cost_ret].
Qed.

End LoopCost.

Lemma total_pages_of_le (total_count : Z) :
  total_pages_of total_count max_pages <= Z.min Config.IDEALISTA_MAX_PAGE max_pages.
Proof.
  unfold total_pages_of. destruct (total_count >? 30); lia.
Qed.

Lemma length_range (lo hi : Z) : length (range lo hi) = Z.to_nat (hi - lo).
Proof. unfold range. apply length_seqZ. Qed.

Lemma cost_paginate (fetch_details : bool) (page_cards : list ListingCard) (tp : Z) :
  let n := (6 * Z.to_nat (tp - 1))%nat in
  satv (fun ev rs => (fetches_of ev <= n + 3 * length rs)%nat) (cost_exn W n)
       (paginate W base_url fetch_details already_seen kw on_restart_browser
          page_cards tp).
Proof.
  cbv zeta. unfold paginate.
  destruct fetch_details; cbn [negb].
  - eapply satv_bind with
      (R1 := fun ev c => cost_post W 0 closure0 ev c) (E1 := cost_exn W 0).
    + destruct (_ <=? 1); [apply cost_process_new | now apply cost_ret].
    + intros ev e. apply cost_exn_le. lia.
    + intros ev1 c1 H1.
      eapply satv_bind with
        (R1 := fun ev ls => cost_post W (6 * length (range 2 (tp + 1))) c1 ev (cl ls))
        (E1 := cost_exn W (6 * length (range 2 (tp + 1)))).
      * apply (cost_pages_loop _ _ _
                 {| all_cards := page_cards; cl := c1; consecutive_blocked := 0 |}).
      * intros ev e H2.
        pose proof (cost_exn_trans _ _ _ _ _ _ _ H1 H2) as L.
        rewrite length_range in L. replace (tp + 1 - 2) with (tp - 1) in L by lia.
        exact L.
      * intros ev2 ls H2. apply satv_ret. rewrite app_nil_r.
        destruct (cost_post_trans _ _ _ _ _ _ _ H1 H2) as [L _].
        rewrite length_range in L. replace (tp + 1 - 2) with (tp - 1) in L by lia.
        cbn [closure0 results length] in L. lia.
  - eapply satv_bind with
      (R1 := fun ev c => cost_post W 0 closure0 ev c) (E1 := cost_exn W 0).
    + apply cost_emit_cards.
    + intros ev e. apply cost_exn_le. lia.
    + intros ev1 c1 [L _]. apply satv_ret. rewrite app_nil_r.
      cbn [closure0 results length] in L. lia.
Qed.

Lemma cost_after_first_page (fetch_details : bool) (html : string) :
  let n := (6 * Z.to_nat (total_pages_from W max_pages html - 1))%nat in
  satv (fun ev rs => (fetches_of ev <= n + 3 * length rs)%nat) (cost_exn W n)
       (after_first_page W base_url max_pages fetch_details already_seen kw
          on_restart_browser html).
Proof.
  cbv zeta. intros s.
  destruct (after_first_page_cases W base_url max_pages fetch_details already_seen kw
              on_restart_browser html s)
    as [(e & -> & He) | (total_count & page_cards & _ & _ & _ & ->)].
  - exists []. cbn [fst snd]. rewrite app_nil_r. split; [reflexivity|].
    apply cost_exn_parser; [cbn; lia|].
    destruct He as [-> | [p ->]]; discriminate.
  - apply cost_paginate.
Qed.

Lemma cost_first_page :
  satv (fun ev _ => (fetches_of ev <= 3)%nat /\ records_of ev = [])
       (fun _ _ => False /\ False)
       (fetch_first_page W base_url kw).
Proof.
  eapply satv_weaken.
  - apply satv_conj; [apply retry_bound|].
    apply satv_of_sat.
    apply (sat_fetch_html_with_retry W silent
             (with_pause kw (Approaches.PAUSE_FOR_CAPTCHA (settings W)))
             (SearchPage 1) (base_url ++ "/") (fun _ => True)); cbn; auto.
  - intros ev a [L [F _]]. split; [exact L | now apply silent_records].
  - intros ev e [[] _].
Qed.

Lemma cost_run_with_fetcher (fetch_details : bool) :
  satv (fun ev rs => (fetches_of ev <= search_budget max_pages + 3 * length rs)%nat)
       (cost_exn W (search_budget max_pages))
       (_run_with_fetcher W base_url max_pages fetch_details already_seen kw
          on_restart_browser).
Proof.
  unfold _run_with_fetcher.
  eapply satv_bind; [apply cost_first_page | intros ev e [[] _] |].
  intros ev1 [html status] [L R].
  assert (Hb : (6 * Z.to_nat (total_pages_from W max_pages html - 1) + 3
                <= search_budget max_pages)%nat).
  { unfold search_budget, total_pages_from.
    pose proof (total_pages_of_le
                  (fst (parse_search_page (extraction W) html Config.IDEALISTA_DOMAIN))).
    lia. }
  destruct (first_page_blocked W html status).
  - apply satv_throw. rewrite app_nil_r.
    apply cost_exn_parser; [unfold search_budget; lia | discriminate].
  - eapply satv_weaken; [apply cost_after_first_page | |]; cbv zeta.
    + intros ev2 rs H. cbv beta zeta in H. rewrite fetches_of_app. lia.
    + intros ev2 e [C1 C2]. split.
      * intros He. destruct (C1 He) as [H A]. split; [exact H|].
        rewrite fetches_of_app, records_of_app, R. cbn [app]. lia.
      * intros H. specialize (C2 H).
        rewrite fetches_of_app, records_of_app, R. cbn [app]. lia.
Qed.

End NavigationBound.

Section NavigationBoundOfRun.
Import Parsers Eff Fetcher Orchestrator Spec.

(** X17. A run puts a bounded load on the site.  With [n] the page cap
    [min(60, max_pages)], it navigates at most [3 + 6 * (n - 1)] times
    for search pages (three tries per page, and three more after a block)
    and at most three times per record: a run that returns [k] records
    has navigated at most [3 + 6 * (n - 1) + 3 * k] times; a run that the
    callback's exception ends has navigated at most that often with [k]
    the number of records handed to the callback; and a run with a
    callback that any other exception ends (a first page refused, a
    page count too large for the division, a page the extraction
    raises on) at most three times more, the navigations to the detail
    page whose record was never built. *)
Theorem run_navigation_bound (W : World) (base_url : string) (max_pages : option Z)
    (fetch_details : bool) (seen_urls : option (gset string)) (s : io) :
  let final := run W base_url max_pages fetch_details seen_urls s in
  let cap :=
    Z.min 60 (match max_pages with
              | Some n => n
              | None => Approaches.MAX_PAGES (settings W)
              end) in
  exists ev,
    trace (fst final) = (trace s ++ ev)%list /\
    match snd final with
    | inr rs =>
        (fetches_of ev <= 3 + 6 * Z.to_nat (cap - 1) + 3 * length rs)%nat
    | inl e =>
        (e = CallbackError ->
         (fetches_of ev
          <= 3 + 6 * Z.to_nat (cap - 1) + 3 * length (records_of ev))%nat) /\
        (on_record W <> None ->
         (fetches_of ev
          <= 3 + 6 * Z.to_nat (cap - 1) + 3 * length (records_of ev) + 3)%nat)
    end.
Proof.
  cbv zeta.
  destruct (run_unfold_kw W base_url max_pages fetch_details seen_urls) as (kw & orb & ->).
  destruct (cost_run_with_fetcher W (Py.rstrip_slash base_url)
              (match max_pages with
               | Some n => n
               | None => Approaches.MAX_PAGES (settings W)
               end) (seen_of seen_urls) kw orb fetch_details s) as (ev & T & P).
  exists ev. split; [exact T|].
  destruct (snd _) as [e|rs]; [|exact P].
  destruct P as [C1 C2]. split; [intros He; now destruct (C1 He) | exact C2].
Qed.

End NavigationBoundOfRun.

(* ===================================================================== *)
(** * The control flow of the pagination loop *)
(* ===================================================================== *)

Section LoopControl.
Import Parsers Eff Fetcher Orchestrator Spec.
Local Open Scope eff_scope.

Variable W : World.
Variables (base_url : string) (max_pages : Z).
Variable already_seen : gset string.
Variable kw : fetch_kwargs.
Variable on_restart_browser : bool.

Lemma verdicts_of_app (a b : list event) :
  verdicts_of (a ++ b) = (verdicts_of a ++ verdicts_of b)%list.
Proof.
  induction a as [|[] a IH]; cbn [verdicts_of app]; [reflexivity|..];
    rewrite ?IH; reflexivity.
Qed.

Lemma no_verdict_events (ev : list event) :
  Forall no_verdict ev -> verdicts_of ev = [].
Proof.
  induction 1 as [|e ev He F IH]; [reflexivity|].
  destruct e as [[]| | | |]; cbn in He; try contradiction; exact IH.
Qed.

Lemma page1_no_verdict (ev : list event) :
  Forall (page1_event base_url) ev -> verdicts_of ev = [].
Proof.
  intros F. apply no_verdict_events. eapply Forall_impl; [exact F|].
  intros e [-> | [w ->]]; exact I.
Qed.

Section Body.
Variables (first_page_first_link : option string) (start_page : Z).

Lemma ctrl_page_tail (page_cards : list ListingCard) (ls : loop_state) :
  sat no_verdict run_exn ctrl_ok
      (page_tail W already_seen kw first_page_first_link page_cards ls).
Proof.
  unfold page_tail. destruct page_cards as [|c0 rest].
  - apply sat_ret. split; [discriminate | discriminate].
  - cbv zeta. destruct (match first_page_first_link with Some _ => _ | None => _ end).
    + apply sat_ret. split; auto.
    + eapply sat_bind with (R1 := fun c => Forall (fun _ => True) (results c)).
      * apply sat_process_new; [exact I | auto | apply Forall_true; auto].
      * intros c _. apply sat_ret. split; discriminate.
Qed.

Lemma ctrl_page_body (page_num : Z) (ls : loop_state) :
  sat no_verdict run_exn ctrl_ok
      (page_body W base_url already_seen kw on_restart_browser
         first_page_first_link page_num ls).
Proof.
  unfold page_body.
  assert (Hfailed : sat no_verdict run_exn ctrl_ok
                      (ret (PageFailed, Continue, set_blocked ls 0))).
  { apply sat_ret. split; discriminate. }
  eapply sat_bind with (R1 := fun _ => True).
  { destruct (_ >? 0); [now apply sat_log | now apply sat_ret]. }
  intros _ _. eapply sat_bind with (R1 := fun _ => True).
  { apply sat_fetch_page. exact I. }
  intros [html status] _.
  destruct (negb (status =? 200)); [exact Hfailed|].
  eapply sat_bind with (R1 := fun _ => True); [apply sat_search_cards|].
  intros page_cards _.
  destruct (is_nil _ && is_blocked_page html); [|apply ctrl_page_tail].
  eapply sat_bind with (R1 := fun _ => True).
  { destruct on_restart_browser; [now apply sat_log | now apply sat_ret]. }
  intros _ _. eapply sat_bind with (R1 := fun _ => True); [now apply sat_log|].
  intros _ _. eapply sat_bind with (R1 := fun _ => True).
  { apply sat_fetch_page. exact I. }
  intros [html2 status2] _.
  destruct (negb (status2 =? 200)); [exact Hfailed|].
  eapply sat_bind with (R1 := fun _ => True); [apply sat_search_cards|].
  intros page_cards2 _.
  destruct (is_nil _ && is_blocked_page html2); [|apply ctrl_page_tail].
  destruct (_ >=? _); apply sat_ret; split; auto; discriminate.
Qed.

Lemma loop_shape_nil (kept : list Z) : loop_shape kept [] false.
Proof.
  split; [apply list_relations.list.prefix_nil|]. split; [intros i p H; discriminate H | discriminate].
Qed.

Lemma loop_shape_cons (a : Z) (v : verdict) (kept : list Z) vs (finished : bool) :
  v <> PageDuplicate ->
  loop_shape kept vs finished ->
  loop_shape (a :: kept) ((a, v) :: vs) finished.
Proof.
  intros Hv (P & D & F). split; [|split].
  - cbn [map fst]. now apply list_relations.list.prefix_cons.
  - intros [|i] p H; cbn in H.
    + injection H as _ Hd. contradiction.
    + cbn [length]. f_equal. now apply D with p.
  - intros Hf. destruct (F Hf) as [E | (p & v' & L & Hv')].
    + left. cbn [map fst]. now rewrite E.
    + right. exists p, v'. split; [|exact Hv'].
      rewrite last_cons, L. reflexivity.
Qed.

Lemma loop_shape_stop (a : Z) (v : verdict) (kept : list Z) (finished : bool) :
  v = PageBlocked \/ v = PageDuplicate ->
  loop_shape (a :: kept) [(a, v)] finished.
Proof.
  intros Hv. split; [|split].
  - cbn [map fst]. apply list_relations.list.prefix_cons, list_relations.list.prefix_nil.
  - intros [|i] p H; cbn in H; [reflexivity | discriminate H].
  - intros _. right. exists a, v. split; [reflexivity | exact Hv].
Qed.

Lemma shape_pages_loop (pages : list Z) : forall ls,
  satv (fun ev _ => loop_shape (kept_pages start_page pages) (verdicts_of ev) true)
       (fun ev _ => loop_shape (kept_pages start_page pages) (verdicts_of ev) false)
       (pages_loop W base_url already_seen kw on_restart_browser
          first_page_first_link start_page pages ls).
Proof.
  induction pages as [|a rest IH]; intros ls; cbn [pages_loop kept_pages List.filter].
  - apply satv_ret. cbn. split; [apply list_relations.list.prefix_nil|].
    split; [intros i p H; discriminate H | now left].
  - fold (kept_pages start_page rest).
    destruct (a <? start_page); cbn [negb]; [apply IH|].
    eapply satv_bind; [apply satv_of_sat, ctrl_page_body | |].
    + intros ev e [F _].
      rewrite (no_verdict_events ev F). apply loop_shape_nil.
    + intros ev1 [[v k] ls1] [F1 [Hbreak Hdup]].
      eapply satv_bind; [apply satv_log | intros ? ? [] |].
      intros ev2 [] ->.
      destruct k.
      * eapply satv_weaken; [apply IH | |].
        -- intros ev3 ls2 H. rewrite !verdicts_of_app, (no_verdict_events ev1 F1).
           cbn [verdicts_of app]. apply loop_shape_cons; [|exact H].
           intros ->. discriminate (Hdup eq_refl).
        -- intros ev3 e H.
           rewrite !verdicts_of_app, (no_verdict_events ev1 F1).
           cbn [verdicts_of app]. apply loop_shape_cons; [|exact H].
           intros ->. discriminate (Hdup eq_refl).
      * apply satv_ret. rewrite !verdicts_of_app, (no_verdict_events ev1 F1).
        cbn [verdicts_of app]. apply loop_shape_stop, Hbreak. reflexivity.
Qed.

End Body.

Lemma kept_seqZ (start_page : Z) (len : nat) : forall a,
  kept_pages start_page (seqZ a (Z.of_nat len))
  = seqZ (Z.max a start_page) (a + Z.of_nat len - Z.max a start_page).
Proof.
  induction len as [|len IH]; intros a.
  - cbn. symmetry. apply seqZ_nil. lia.
  - rewrite seqZ_cons by lia.
    replace (Z.pred (Z.of_nat (S len))) with (Z.of_nat len) by lia.
    unfold kept_pages in *. cbn [List.filter]. rewrite IH.
    destruct (a <? start_page) eqn:L; cbn [negb].
    + apply Z.ltb_lt in L. f_equal; lia.
    + apply Z.ltb_ge in L.
      rewrite (seqZ_cons (Z.max a start_page)) by lia.
      f_equal; [lia|]. f_equal; lia.
Qed.

Lemma kept_range (start_page total_pages : Z) :
  kept_pages start_page (range 2 (total_pages + 1))
  = seqZ (Z.max 2 start_page) (total_pages + 1 - Z.max 2 start_page).
Proof.
  unfold range. rewrite seqZ_to_nat, kept_seqZ.
  destruct (Z.le_gt_cases 1 total_pages) as [L|L].
  - f_equal. lia.
  - rewrite !seqZ_nil by lia. reflexivity.
Qed.

Lemma shape_paginate (page_cards : list ListingCard) (tp : Z) :
  let kept := kept_pages (start_page_of already_seen tp) (range 2 (tp + 1)) in
  satv (fun ev _ => loop_shape kept (verdicts_of ev) true)
       (fun ev _ => loop_shape kept (verdicts_of ev) false)
       (paginate W base_url true already_seen kw on_restart_browser page_cards tp).
Proof.
  cbv zeta. unfold paginate. cbn [negb].
  set (sp := start_page_of already_seen tp).
  eapply satv_bind with
    (R1 := fun ev _ => verdicts_of ev = [])
    (E1 := fun ev _ => verdicts_of ev = []).
  - destruct (sp <=? 1); [|now apply satv_ret].
    eapply satv_weaken.
    + apply satv_of_sat.
      apply (sat_process_new W already_seen kw (fun _ => True) (fun _ _ => False)
               (fun _ => True) True I (fun _ _ => I) page_cards closure0).
      constructor.
    + intros ev c [F _]. now apply no_verdict_events.
    + intros ev e [F _]. now apply no_verdict_events.
  - intros ev e H. rewrite H. apply loop_shape_nil.
  - intros ev1 c1 H1.
    eapply satv_bind; [apply shape_pages_loop | |].
    + intros ev e H. now rewrite verdicts_of_app, H1.
    + intros ev2 ls H. apply satv_ret.
      now rewrite app_nil_r, verdicts_of_app, H1.
Qed.

Lemma shape_after_first_page (html : string) :
  let tp := total_pages_from W max_pages html in
  let kept := kept_pages (start_page_of already_seen tp) (range 2 (tp + 1)) in
  satv (fun ev _ => loop_shape kept (verdicts_of ev) true)
       (fun ev _ => loop_shape kept (verdicts_of ev) false)
       (after_first_page W base_url max_pages true already_seen kw
          on_restart_browser html).
Proof.
  cbv zeta. intros s.
  destruct (after_first_page_cases W base_url max_pages true already_seen kw
              on_restart_browser html s)
    as [(e & -> & He) | (total_count & page_cards & _ & _ & _ & ->)].
  - exists []. cbn [fst snd]. rewrite app_nil_r. split; [reflexivity|].
    apply loop_shape_nil.
  - apply shape_paginate.
Qed.

(** X18. The pagination loop of a run with [fetch_details] on gives a
    verdict to one page after the other: with [tp] the page count and
    [lo] the larger of 2 and the start page, the pages that receive a
    verdict are [lo], [lo + 1], ... in this order, none left out and none
    taken twice, and none beyond [tp].  A duplicate verdict is always the
    last one.  A run that returns has either given a verdict to every
    page up to [tp] or stopped on a blocked or a duplicate page: a failed
    or an empty page never ends the loop. *)
Theorem pagination_control (s : io) :
  let final :=
    _run_with_fetcher W base_url max_pages true already_seen kw on_restart_browser s in
  exists s1 html status ev,
    fetch_first_page W base_url kw s = (s1, inr (html, status)) /\
    trace (fst final) = (trace s ++ ev)%list /\
    if first_page_blocked W html status then verdicts_of ev = []
    else
      let tp := total_pages_from W max_pages html in
      let lo := Z.max 2 (start_page_of already_seen tp) in
      let vs := verdicts_of ev in
      map fst vs `prefix_of` seqZ lo (tp + 1 - lo) /\
      (forall i p, vs !! i = Some (p, PageDuplicate) -> S i = length vs) /\
      match snd final with
      | inr _ =>
          map fst vs = seqZ lo (tp + 1 - lo) \/
          exists p v, last vs = Some (p, v) /\ (v = PageBlocked \/ v = PageDuplicate)
      | inl _ => True
      end.
Proof.
  cbv zeta.
  destruct (first_page_spec W base_url kw s) as (s1 & html & status & ev1 & E1 & T1 & F1).
  apply page1_no_verdict in F1.
  rewrite run_unfold, E1.
  destruct (first_page_blocked W html status) eqn:B.
  - exists s1, html, status, ev1. rewrite B. cbn [fst snd]. auto.
  - destruct (shape_after_first_page html s1) as (ev2 & T2 & P2).
    exists s1, html, status, (ev1 ++ ev2)%list. rewrite B.
    split; [reflexivity|]. split; [now rewrite T2, T1, app_assoc|].
    rewrite verdicts_of_app, F1. cbn [app].
    rewrite kept_range in P2.
    destruct (snd _) as [e|rs].
    + destruct P2 as (P & D & _). auto.
    + destruct P2 as (P & D & F). auto.
Qed.

End LoopControl.

(* ===================================================================== *)
(** * Where pagination starts *)
(* ===================================================================== *)

Section ResumeStart.
Import Parsers Eff Fetcher Orchestrator Spec.
Local Open Scope eff_scope.

Variable W : World.
Variables (base_url : string) (max_pages : Z) (fetch_details : bool).
Variable already_seen : gset string.
Variable kw : fetch_kwargs.
Variable on_restart_browser : bool.

Abbreviation resumed_run :=
  (_run_with_fetcher W base_url max_pages fetch_details already_seen kw
     on_restart_browser).

Lemma pages_fetched_app (a b : list event) :
  pages_fetched (a ++ b) = (pages_fetched a ++ pages_fetched b)%list.
Proof.
  induction a as [|[[q|] u| | | |] a IH]; cbn [pages_fetched app];
    rewrite ?IH; reflexivity.
Qed.

Lemma head_app_some {A} (l1 l2 : list A) (a : A) :
  head l1 = Some a -> head (l1 ++ l2) = Some a.
Proof. destruct l1; [discriminate | auto]. Qed.

Lemma head_none_nil {A} (l : list A) : head l = None -> l = [].
Proof. destruct l; [reflexivity | discriminate]. Qed.

Lemma retry_events_pages (p : Z) (url : string) (ev : list event) :
  Forall (fun e => e = EvFetch (SearchPage p) url \/ exists w, e = EvSleep w) ev ->
  pages_fetched ev = repeat p (fetches_of ev).
Proof.
  induction 1 as [|e ev [->|[w ->]] F IH]; cbn [pages_fetched fetches_of repeat];
    [reflexivity | now rewrite IH | exact IH].
Qed.

Lemma no_search_fetch (Pf : Z -> Prop) Pp Pr Pd (ev : list event) :
  (forall q, ~ Pf q) -> Forall (ev_ok Pf Pp Pr Pd) ev -> pages_fetched ev = [].
Proof.
  intros N. induction 1 as [|e ev He F IH]; [reflexivity|].
  destruct e as [[q|] u| | | |]; cbn [pages_fetched]; try exact IH.
  destruct (N q He).
Qed.

(** The retries of one search page navigate to it at least once and at
    most three times, and to no other search page. *)
Lemma retry_count (kw' : fetch_kwargs) (p : Z) (url : string) :
  satv (fun ev _ => exists n, (1 <= n <= 3)%nat /\ pages_fetched ev = repeat p n)
       (fun _ _ => False)
       (fetch_html_with_retry W kw' (SearchPage p) url MAX_RETRIES BACKOFF_SEC).
Proof.
  intros s.
  destruct (retry_total W kw' (SearchPage p) url MAX_RETRIES BACKOFF_SEC s
              ltac:(discriminate))
    as (res & evs & R & T & H200 & Hex).
  assert (Hq : sat (fun e => e = EvFetch (SearchPage p) url \/ exists w, e = EvSleep w)
                   (fun _ => BACKOFF_SEC = []) (fun _ : string * Z => True)
                   (fetch_html_with_retry W kw' (SearchPage p) url
                      MAX_RETRIES BACKOFF_SEC)).
  { apply sat_fetch_html_with_retry; auto; try (now left); intros w; right; eauto. }
  destruct (Hq s) as (ev' & T' & F & _).
  assert (ev' = evs) as ->.
  { rewrite T in T'. now apply app_inv_head in T'. }
  exists evs. split; [exact T|]. rewrite R.
  exists (fetches_of evs). split; [|now apply retry_events_pages with url].
  destruct (first_true_or_none
              (fun j => is_200 (fetch_result W kw' (browser W url (calls s + j))))
              (Z.to_nat MAX_RETRIES)) as [(k & Hk & Hf & Hb)|Hnone].
  - destruct (is_200_inv _ Hf) as [h Hh].
    destruct (H200 k h Hk Hh Hb) as (_ & Fk & _). rewrite Fk.
    change (Z.to_nat MAX_RETRIES) with 3%nat in Hk. lia.
  - destruct (Hex Hnone) as (_ & Fn & _). rewrite Fn.
    change (Z.to_nat MAX_RETRIES) with 3%nat. lia.
Qed.

Lemma first_page_count :
  satv (fun ev _ => exists n, (1 <= n <= 3)%nat /\ pages_fetched ev = repeat 1 n)
       (fun _ _ => False)
       (fetch_first_page W base_url kw).
Proof. apply retry_count. Qed.

(** An iteration of the loop begins by navigating to its page. *)
Lemma page_body_first_fetch (first_page_first_link : option string)
    (page_num : Z) (ls : loop_state) :
  satv (fun ev _ => head (pages_fetched ev) = Some page_num)
       (fun ev _ => head (pages_fetched ev) = Some page_num)
       (page_body W base_url already_seen kw on_restart_browser
          first_page_first_link page_num ls).
Proof.
  unfold page_body.
  eapply satv_bind with
    (R1 := fun ev _ => pages_fetched ev = []) (E1 := fun _ _ => False).
  { destruct (_ >? 0); [|now apply satv_ret].
    eapply satv_weaken; [apply satv_log | | auto]. now intros ev a ->. }
  { intros ev e []. }
  intros ev0 _ H0.
  eapply satv_bind with
    (R1 := fun ev _ => head (pages_fetched ev) = Some page_num)
    (E1 := fun _ _ => False).
  { eapply satv_weaken; [apply (retry_count kw page_num) | | auto].
    intros ev a (n & Hn & ->). destruct n; [lia | reflexivity]. }
  { intros ev e []. }
  intros ev1 [html status] H1.
  assert (P : forall ev2,
            head (pages_fetched (ev0 ++ ev1 ++ ev2)) = Some page_num).
  { intros ev2. rewrite !pages_fetched_app, H0. cbn [app]. now apply head_app_some. }
  eapply satv_weaken;
    [apply satv_of_sat with (Q := no_verdict) (E := run_exn) (R := ctrl_ok)
    | intros; apply P | intros; apply P].
  assert (Hfailed : sat no_verdict run_exn ctrl_ok
                      (ret (PageFailed, Continue, set_blocked ls 0))).
  { apply sat_ret. split; discriminate. }
  destruct (negb (status =? 200)); [exact Hfailed|].
  eapply sat_bind with (R1 := fun _ => True); [apply sat_search_cards|].
  intros page_cards _.
  destruct (is_nil _ && is_blocked_page html); [|apply ctrl_page_tail].
  eapply sat_bind with (R1 := fun _ => True).
  { destruct on_restart_browser; [now apply sat_log | now apply sat_ret]. }
  intros _ _. eapply sat_bind with (R1 := fun _ => True); [now apply sat_log|].
  intros _ _. eapply sat_bind with (R1 := fun _ => True).
  { apply sat_fetch_page. exact I. }
  intros [html2 status2] _.
  destruct (negb (status2 =? 200)); [exact Hfailed|].
  eapply sat_bind with (R1 := fun _ => True); [apply sat_search_cards|].
  intros page_cards2 _.
  destruct (is_nil _ && is_blocked_page html2); [|apply ctrl_page_tail].
  destruct (_ >=? _); apply sat_ret; split; auto; discriminate.
Qed.

(** The loop begins with the first page it does not skip. *)
Lemma pages_loop_first_fetch (first_page_first_link : option string)
    (start_page : Z) (pages : list Z) : forall ls,
  satv (fun ev _ => first_fetch (kept_pages start_page pages) ev)
       (fun ev _ => first_fetch (kept_pages start_page pages) ev)
       (pages_loop W base_url already_seen kw on_restart_browser
          first_page_first_link start_page pages ls).
Proof.
  induction pages as [|a rest IH]; intros ls; cbn [pages_loop kept_pages List.filter].
  - apply satv_ret. reflexivity.
  - fold (kept_pages start_page rest).
    destruct (a <? start_page); cbn [negb]; [apply IH|].
    eapply satv_bind; [apply page_body_first_fetch | auto |].
    intros ev1 [[v k] ls1] H1.
    assert (P : forall ev2, first_fetch (a :: kept_pages start_page rest) (ev1 ++ ev2)).
    { intros ev2. unfold first_fetch. rewrite pages_fetched_app.
      now apply head_app_some. }
    eapply satv_weaken;
      [apply (satv_bind (fun _ _ => True) (fun _ _ => True)
                (fun _ _ => True) (fun _ _ => True))
      | intros; apply P | intros; apply P].
    + eapply satv_weaken; [apply satv_log | auto | auto].
    + auto.
    + intros ev2 [] _. destruct k; [|now apply satv_ret].
      eapply satv_weaken; [apply IH | auto | auto].
Qed.

(** With [fetch_details] on, pagination begins with the first page the
    loop keeps, unless page 1's own cards are processed first (start page
    1) and that raises. *)
Lemma paginate_first_fetch (page_cards : list ListingCard) (tp : Z) :
  let sp := start_page_of already_seen tp in
  let kept := kept_pages sp (range 2 (tp + 1)) in
  satv (fun ev _ => first_fetch kept ev)
       (fun ev _ => first_fetch kept ev \/ (sp <= 1 /\ pages_fetched ev = []))
       (paginate W base_url true already_seen kw on_restart_browser page_cards tp).
Proof.
  cbv zeta. unfold paginate. cbn [negb].
  set (sp := start_page_of already_seen tp).
  eapply satv_bind with
    (R1 := fun ev _ => pages_fetched ev = [])
    (E1 := fun ev _ => sp <= 1 /\ pages_fetched ev = []).
  - destruct (Z.leb_spec sp 1) as [L|L]; [|now apply satv_ret].
    eapply satv_weaken.
    + apply satv_of_sat.
      apply (sat_process_new W already_seen kw (fun _ => False) (fun _ _ => True)
               (fun _ => True) True I (fun _ _ => I) page_cards closure0).
      constructor.
    + intros ev c [F _]. eapply no_search_fetch; [|exact F]. auto.
    + intros ev e [F _]. split; [exact L|]. eapply no_search_fetch; [|exact F]. auto.
  - intros ev e H. now right.
  - intros ev1 c1 H1.
    eapply satv_bind; [apply pages_loop_first_fetch | |].
    + intros ev e H. left. unfold first_fetch in *.
      now rewrite pages_fetched_app, H1.
    + intros ev2 ls H. apply satv_ret. rewrite app_nil_r. unfold first_fetch in *.
      now rewrite pages_fetched_app, H1.
Qed.

Lemma after_first_page_first_fetch (html : string) (s : io) :
  let tp := total_pages_from W max_pages html in
  let sp := start_page_of already_seen tp in
  let kept := kept_pages sp (range 2 (tp + 1)) in
  let final :=
    after_first_page W base_url max_pages true already_seen kw on_restart_browser
      html s in
  exists ev,
    trace (fst final) = (trace s ++ ev)%list /\
    (pages_fetched ev = [] \/ first_fetch kept ev) /\
    ((exists rs, snd final = inr rs) \/
     (2 <= sp /\
      exists total_count page_cards pages,
        search_page_outcome (extraction W) html Config.IDEALISTA_DOMAIN
        = inr (total_count, page_cards) /\
        total_pages total_count max_pages = Some pages) ->
     first_fetch kept ev).
Proof.
  cbv zeta. unfold after_first_page.
  destruct (search_page_outcome (extraction W) html Config.IDEALISTA_DOMAIN)
    as [p|[total_count page_cards]] eqn:O.
  { exists []. cbn [throw fst snd]. rewrite app_nil_r.
    split; [reflexivity|]. split; [now left|].
    intros [[rs H]|(_ & tc & cards & pages & H & _)]; discriminate H. }
  destruct (total_pages total_count max_pages) as [pages|] eqn:TP.
  - assert (pages = total_pages_from W max_pages html) as ->.
    { unfold total_pages_from, parse_search_page. rewrite O. cbn [fst].
      now apply total_pages_exact. }
    destruct (paginate_first_fetch page_cards (total_pages_from W max_pages html) s)
      as (ev & T & P).
    exists ev. split; [exact T|].
    destruct (snd (paginate _ _ _ _ _ _ _ _ s)) as [e|rs].
    + split; [destruct P as [P|[_ P]]; [now right | now left]|].
      intros [[rs H]|(Hsp & _)]; [discriminate H|].
      destruct P as [P|[L _]]; [exact P | lia].
    + split; [now right|]. intros _. exact P.
  - exists []. cbn [throw fst snd]. rewrite app_nil_r.
    split; [reflexivity|]. split; [now left|].
    intros [[rs H]|(_ & tc & cards & pages & H1 & H2)]; [discriminate H|].
    injection H1 as <- <-. congruence.
Qed.

(** C6. With a non-empty SeenLinks set, pagination starts at page
    [min(total_pages, |SeenLinks| // 30 + 1)].  The start page has this
    value; 238 links with at least 8 pages give start page 8.  Page 1,
    which yields the total, is always fetched first, one to three times;
    the loop never navigates to a page before the start page or beyond
    the page count, and the first page it navigates to is the start page
    (page 2 when the start page is 1).  With [fetch_details] on this page
    is in fact fetched whenever it lies within the page count and the run
    returns, and also when an exception ends the run later, provided the
    start page is at least 2, page 1 is accepted and its total gives a
    page count. *)
Theorem resume_start_page (s : io) :
  already_seen <> ∅ ->
  exists s1 html status,
    fetch_first_page W base_url kw s = (s1, inr (html, status)) /\
    let tp := total_pages_from W max_pages html in
    let start := Z.min tp (Z.of_nat (size already_seen) / 30 + 1) in
    (1 <= tp -> start_page_of already_seen tp = start) /\
    Z.max 2 (start_page_of already_seen tp) = Z.max 2 start /\
    (size already_seen = 238%nat -> 8 <= tp -> start_page_of already_seen tp = 8) /\
    exists ev,
      trace (fst (resumed_run s)) = (trace s ++ ev)%list /\
      (forall q u, In (EvFetch (SearchPage q) u) ev ->
         q = 1 \/ (2 <= q /\ start <= q <= tp)) /\
      exists n rest,
        pages_fetched ev = (repeat 1 n ++ rest)%list /\
        (1 <= n <= 3)%nat /\
        (rest = [] \/ head rest = Some (Z.max 2 start)) /\
        (fetch_details = true -> Z.max 2 start <= tp ->
         (exists rs, snd (resumed_run s) = inr rs) \/
         (2 <= start /\ first_page_blocked W html status = false /\
          exists total_count page_cards pages,
            search_page_outcome (extraction W) html Config.IDEALISTA_DOMAIN
            = inr (total_count, page_cards) /\
            total_pages total_count max_pages = Some pages) ->
         head rest = Some (Z.max 2 start)).
Proof.
  intros Hne.
  destruct (run_spec W base_url max_pages fetch_details already_seen kw
              on_restart_browser s)
    as (s1 & html & status & ev1 & E1 & T1 & F1 & H).
  exists s1, html, status. split; [exact E1|]. cbv zeta.
  set (tp := total_pages_from W max_pages html) in *.
  assert (Hsp : start_page_of already_seen tp
                = if tp >? 1 then Z.min tp (Z.of_nat (size already_seen) / 30 + 1) else 1).
  { unfold start_page_of, nonempty_set.
    rewrite (bool_decide_eq_false_2 _ Hne). reflexivity. }
  pose proof (Z.div_pos (Z.of_nat (size already_seen)) 30 ltac:(lia) ltac:(lia)) as Hdiv.
  assert (Hmax : Z.max 2 (start_page_of already_seen tp)
                 = Z.max 2 (Z.min tp (Z.of_nat (size already_seen) / 30 + 1))).
  { rewrite Hsp. destruct (tp >? 1) eqn:G; lia. }
  split; [|split; [exact Hmax|split]].
  - intros Htp. rewrite Hsp. destruct (tp >? 1) eqn:G; lia.
  - intros Hsize Htp. rewrite Hsp, Hsize.
    destruct (tp >? 1) eqn:G; [|lia].
    change (Z.of_nat 238 / 30 + 1) with 8. lia.
  - destruct (first_page_count s) as (ev1' & T1' & P1).
    rewrite E1 in T1', P1. cbn [fst snd] in T1', P1.
    assert (ev1' = ev1) as ->.
    { rewrite T1 in T1'. now apply app_inv_head in T1'. }
    destruct P1 as (n & Hn & Hpf1).
    pose proof (run_unfold W base_url max_pages fetch_details already_seen kw
                  on_restart_browser s) as U.
    rewrite E1 in U.
    destruct (first_page_blocked W html status) eqn:B.
    + exists ev1. rewrite H. cbn [fst snd]. split; [exact T1|]. split.
      * intros q u Hin. left. pose proof (page1_fetch _ _ _ _ F1 Hin) as Hq.
        now injection Hq.
      * exists n, []. rewrite app_nil_r.
        split; [exact Hpf1|]. split; [exact Hn|]. split; [now left|].
        intros _ _ [[rs Hrs]|(_ & Hb & _)]; discriminate.
    + destruct H as (ev2 & T2 & F2 & _ & _).
      exists (ev1 ++ ev2)%list. split; [rewrite T2, T1, app_assoc; reflexivity|].
      split.
      * intros q u Hin. apply in_app_iff in Hin as [Hin|Hin].
        -- left. pose proof (page1_fetch _ _ _ _ F1 Hin) as Hq. now injection Hq.
        -- right. rewrite Forall_forall in F2.
           pose proof (F2 _ (proj2 (list_elem_of_In _ _) Hin)) as Hok.
           cbn in Hok. destruct Hok as (_ & Hq & Hs).
           rewrite Hsp in Hs. destruct (tp >? 1) eqn:G; lia.
      * exists n, (pages_fetched ev2).
        split; [now rewrite pages_fetched_app, Hpf1|]. split; [exact Hn|].
        rewrite <- Hmax.
        set (lo := Z.max 2 (start_page_of already_seen tp)).
        assert (Hkept : kept_pages (start_page_of already_seen tp) (range 2 (tp + 1))
                        = seqZ lo (tp + 1 - lo)) by apply kept_range.
        assert (Hhead : lo <= tp -> head (seqZ lo (tp + 1 - lo)) = Some lo).
        { intros L. rewrite seqZ_cons by lia. reflexivity. }
        destruct fetch_details.
        -- rewrite U in T2. cbn [fst snd] in T2.
           destruct (after_first_page_first_fetch html s1) as (ev2' & T2' & Hor & Hlive).
           assert (ev2' = ev2) as ->.
           { rewrite T2 in T2'. now apply app_inv_head in T2'. }
           fold tp in Hor, Hlive. rewrite Hkept in Hor, Hlive. unfold first_fetch in *.
           split.
           ++ destruct Hor as [Hor|Hor]; [now left|].
              destruct (Z.le_gt_cases lo tp) as [L|L].
              ** right. now rewrite Hor, Hhead.
              ** left. apply head_none_nil. rewrite Hor, seqZ_nil by lia. reflexivity.
           ++ intros _ L Hyp. rewrite <- (Hhead L). apply Hlive.
              rewrite U in Hyp. cbn [snd] in Hyp.
              destruct Hyp as [Hyp|(Hs & _ & Hyp)]; [now left|].
              right. split; [|exact Hyp].
              rewrite Hsp. destruct (tp >? 1) eqn:G; lia.
        -- split; [|discriminate].
           left. eapply no_search_fetch; [|exact F2].
           intros q [Hq _]. discriminate Hq.
Qed.

End ResumeStart.

Section ResumeStartWitness.
Import Parsers Eff Fetcher Orchestrator Spec Examples.

Lemma resume_start_page_witness :
  exists ev,
    trace (fst (_run_with_fetcher (world three_pages None) base 3 true sixty_seen
                  page_kwargs false io0)) = ev /\
    (forall q u, In (EvFetch (SearchPage q) u) ev -> q = 1 \/ q = 3) /\
    exists n rest,
      pages_fetched ev = (repeat 1 n ++ rest)%list /\ head rest = Some 3.
Proof.
  destruct (resume_start_page (world three_pages None) base 3 true sixty_seen
              page_kwargs false io0 sixty_seen_nonempty)
    as (s1 & html & status & E1 & _ & _ & _ & ev & T & H & n & rest & Hpf & _ & _ & Hlive).
  vm_compute in E1. injection E1 as <- <- <-.
  assert (Htp : total_pages_from (world three_pages None) 3 "1234|11,12" = 3)
    by (vm_compute; reflexivity).
  assert (Hsize : size sixty_seen = 60%nat) by (vm_compute; reflexivity).
  exists ev. split; [exact T|]. split.
  - intros q u Hin. destruct (H q u Hin) as [->|(_ & Hq)]; [now left|].
    right. rewrite Htp, Hsize in Hq. change (Z.of_nat 60 / 30 + 1) with 3 in Hq. lia.
  - exists n, rest. split; [exact Hpf|].
    rewrite Htp, Hsize in Hlive. change (Z.of_nat 60 / 30 + 1) with 3 in Hlive.
    apply Hlive; [reflexivity | lia|].
    right. split; [lia|]. split; [vm_compute; reflexivity|].
    eexists _, _, _. split; reflexivity.
Defined.

End ResumeStartWitness.

(* ===================================================================== *)
(** * Under Selenium the HTTP status is invisible *)
(* ===================================================================== *)

Section StatusBlind.
Import Parsers Eff Fetcher Orchestrator Spec.
Local Open Scope eff_scope.

Variable W : World.
Variables b b' : string -> nat -> nav.
Hypothesis same : forall url k, same_content (b url k) (b' url k).

Abbreviation W1 := (with_browser W b).
Abbreviation W2 := (with_browser W b').

Lemma eqm_refl {A} (m : M A) : eqm m m.
Proof. intros s. reflexivity. Qed.

Lemma eqm_bind {A B} (m1 m2 : M A) (k1 k2 : A -> M B) :
  eqm m1 m2 -> (forall a, eqm (k1 a) (k2 a)) -> eqm (bind m1 k1) (bind m2 k2).
Proof.
  intros Hm Hk s. unfold bind. rewrite (Hm s).
  destruct (m2 s) as [s' [e|a]]; [reflexivity | apply Hk].
Qed.

Lemma eqm_selenium (t : target) (url : string) :
  eqm (_fetch_html_selenium_sync W1 t url) (_fetch_html_selenium_sync W2 t url).
Proof.
  intros s. unfold _fetch_html_selenium_sync, bind, navigate. cbn [browser with_browser].
  specialize (same url (calls s)).
  destruct (b url (calls s)), (b' url (calls s)); cbn in same;
    try contradiction; [reflexivity | now subst].
Qed.

Section WithDriver.
Variable kw : fetch_kwargs.
Hypothesis has_driver : kw_driver kw = true.

Lemma eqm_fetch_html (kw' : fetch_kwargs) (t : target) (url : string) :
  kw_driver kw' = true ->
  eqm (fetch_html W1 kw' t url) (fetch_html W2 kw' t url).
Proof.
  intros H s. unfold fetch_html. rewrite H. apply eqm_selenium.
Qed.

Lemma eqm_retry_from (kw' : fetch_kwargs) (t : target) (url : string)
    (max_retries : Z) (backoff_sec : list Z) (todo : nat) :
  kw_driver kw' = true ->
  forall attempt last,
  eqm (retry_from W1 kw' t url max_retries backoff_sec todo attempt last)
      (retry_from W2 kw' t url max_retries backoff_sec todo attempt last).
Proof.
  intros H. induction todo as [|todo IH]; intros attempt last; cbn [retry_from].
  - apply eqm_refl.
  - apply eqm_bind.
    + intros s. unfold try. now rewrite (eqm_fetch_html kw' t url H s).
    + intros [e|[html status]].
      * apply eqm_bind; [apply eqm_refl | intros _; apply IH].
      * destruct (status =? 200); [apply eqm_refl|].
        apply eqm_bind; [apply eqm_refl | intros _; apply IH].
Qed.

Lemma eqm_retry (kw' : fetch_kwargs) (t : target) (url : string) :
  kw_driver kw' = true ->
  eqm (fetch_html_with_retry W1 kw' t url MAX_RETRIES BACKOFF_SEC)
      (fetch_html_with_retry W2 kw' t url MAX_RETRIES BACKOFF_SEC).
Proof. intros H. now apply eqm_retry_from. Qed.

Variables (base_url : string) (max_pages : Z) (fetch_details : bool).
Variable already_seen : gset string.
Variable on_restart_browser : bool.

Lemma eqm_process_cards (cards : list ListingCard) : forall c,
  eqm (_process_cards W1 kw cards c) (_process_cards W2 kw cards c).
Proof.
  induction cards as [|card rest IH]; intros c; cbn [_process_cards].
  - apply eqm_refl.
  - cbv zeta. destruct (bool_decide _); [apply IH|].
    apply eqm_bind; [now apply eqm_retry|].
    intros [html status].
    destruct (negb (status =? 200));
      [apply eqm_bind; [apply eqm_refl | intros c'; apply IH]|].
    apply eqm_bind; [apply eqm_refl | intros detail].
    apply eqm_bind; [apply eqm_refl | intros c'; apply IH].
Qed.

Lemma eqm_process_new (cards : list ListingCard) c :
  eqm (process_new W1 already_seen kw cards c) (process_new W2 already_seen kw cards c).
Proof.
  unfold process_new. cbv zeta.
  destruct (List.filter _ _); [apply eqm_refl | apply eqm_process_cards].
Qed.

Lemma eqm_fetch_page (page_num : Z) :
  eqm (fetch_page W1 base_url kw page_num) (fetch_page W2 base_url kw page_num).
Proof. unfold fetch_page. now apply eqm_retry. Qed.

Section Loop.
Variables (first_page_first_link : option string) (start_page : Z).

Lemma eqm_page_tail (page_cards : list ListingCard) (ls : loop_state) :
  eqm (page_tail W1 already_seen kw first_page_first_link page_cards ls)
      (page_tail W2 already_seen kw first_page_first_link page_cards ls).
Proof.
  unfold page_tail. destruct page_cards as [|c0 rest]; [apply eqm_refl|].
  cbv zeta. destruct (match first_page_first_link with Some _ => _ | None => _ end);
    [apply eqm_refl|].
  apply eqm_bind; [apply eqm_process_new | intros c; apply eqm_refl].
Qed.

Lemma eqm_page_body (page_num : Z) (ls : loop_state) :
  eqm (page_body W1 base_url already_seen kw on_restart_browser
         first_page_first_link page_num ls)
      (page_body W2 base_url already_seen kw on_restart_browser
         first_page_first_link page_num ls).
Proof.
  unfold page_body.
  apply eqm_bind; [apply eqm_refl | intros _].
  apply eqm_bind; [apply eqm_fetch_page | intros [html status]].
  destruct (negb (status =? 200)); [apply eqm_refl|].
  apply eqm_bind; [apply eqm_refl | intros page_cards].
  destruct (is_nil _ && is_blocked_page html); [|apply eqm_page_tail].
  apply eqm_bind; [apply eqm_refl | intros _].
  apply eqm_bind; [apply eqm_refl | intros _].
  apply eqm_bind; [apply eqm_fetch_page | intros [html2 status2]].
  destruct (negb (status2 =? 200)); [apply eqm_refl|].
  apply eqm_bind; [apply eqm_refl | intros page_cards2].
  destruct (is_nil _ && is_blocked_page html2); [|apply eqm_page_tail].
  apply eqm_refl.
Qed.

Lemma eqm_pages_loop (pages : list Z) : forall ls,
  eqm (pages_loop W1 base_url already_seen kw on_restart_browser
         first_page_first_link start_page pages ls)
      (pages_loop W2 base_url already_seen kw on_restart_browser
         first_page_first_link start_page pages ls).
Proof.
  induction pages as [|a rest IH]; intros ls; cbn [pages_loop]; [apply eqm_refl|].
  destruct (a <? start_page); [apply IH|].
  apply eqm_bind; [apply eqm_page_body | intros [[v k] ls1]].
  apply eqm_bind; [apply eqm_refl | intros _].
  destruct k; [apply IH | apply eqm_refl].
Qed.

End Loop.

Lemma eqm_after_first_page (html : string) :
  eqm (after_first_page W1 base_url max_pages fetch_details already_seen kw
         on_restart_browser html)
      (after_first_page W2 base_url max_pages fetch_details already_seen kw
         on_restart_browser html).
Proof.
  unfold after_first_page. cbn [extraction with_browser].
  destruct (search_page_outcome (extraction W) html Config.IDEALISTA_DOMAIN)
    as [e|[total_count page_cards]]; [apply eqm_refl|].
  destruct (total_pages total_count max_pages) as [pages|]; [|apply eqm_refl].
  unfold paginate. cbv zeta. destruct (negb fetch_details); [apply eqm_refl|].
  apply eqm_bind.
  - destruct (_ <=? 1); [apply eqm_process_new | apply eqm_refl].
  - intros c. apply eqm_bind; [apply eqm_pages_loop | intros ls; apply eqm_refl].
Qed.

Lemma eqm_run_with_fetcher :
  eqm (_run_with_fetcher W1 base_url max_pages fetch_details already_seen kw
         on_restart_browser)
      (_run_with_fetcher W2 base_url max_pages fetch_details already_seen kw
         on_restart_browser).
Proof.
  unfold _run_with_fetcher. apply eqm_bind.
  - unfold fetch_first_page. now apply eqm_retry.
  - intros [html status].
    change (first_page_blocked W2 html status) with (first_page_blocked W1 html status).
    destruct (first_page_blocked W1 html status);
      [apply eqm_refl | apply eqm_after_first_page].
Qed.

End WithDriver.

End StatusBlind.

Section StatusBlindRun.
Import Parsers Eff Fetcher Orchestrator Spec.

(** X19. Under a Selenium-like approach the HTTP status of the site's
    answers has no influence on a run: two sites that raise at the same
    navigations and otherwise deliver the same markup, whatever the
    statuses, lead to the same trace, the same records and the same
    outcome.  A page answered with 403 or 503 is therefore scraped like a
    page answered with 200. *)
Theorem selenium_run_ignores_status (W : World) (b b' : string -> nat -> nav)
    (base_url : string) (max_pages : option Z) (fetch_details : bool)
    (seen_urls : option (gset string)) (s : io) :
  Approaches.is_selenium_like (Approaches.resolve_approach (settings W) None) = true ->
  (forall url k, same_content (b url k) (b' url k)) ->
  run (with_browser W b) base_url max_pages fetch_details seen_urls s
  = run (with_browser W b') base_url max_pages fetch_details seen_urls s.
Proof.
  intros Hsel Hsame. unfold run. cbv zeta. cbn [settings with_browser].
  rewrite Hsel. now apply eqm_run_with_fetcher.
Qed.

Lemma selenium_run_ignores_status_witness :
  run (with_browser Examples.selenium_world (Examples.answers 403))
      Examples.base (Some 2) true None io0
  = run (with_browser Examples.selenium_world (Examples.answers 200))
      Examples.base (Some 2) true None io0.
Proof.
  apply selenium_run_ignores_status; [reflexivity | intros url k; reflexivity].
Defined.

End StatusBlindRun.

(* ===================================================================== *)
(** * Rooms and square metres *)
(* ===================================================================== *)

Section NumberFacts.
Import Parsers Spec.

Lemma string_length_app (a b : string) :
  String.length (a ++ b) = (String.length a + String.length b)%nat.
Proof.
  induction a as [|c a IH]; [reflexivity|].
  cbn [String.append String.length]. now rewrite IH.
Qed.

Lemma take_digits_drop (s : string) :
  s = Py.take_digits s ++ Py.drop (String.length (Py.take_digits s)) s.
Proof.
  induction s as [|c s IH]; [reflexivity|].
  cbn [Py.take_digits]. destruct (Py.isdigit c); [|reflexivity].
  cbn [String.length Py.drop String.append]. now rewrite <- IH.
Qed.

Lemma take_digits_stop (ds t : string) :
  Py.all_digits ds = true ->
  match t with EmptyString => True | String c _ => Py.isdigit c = false end ->
  Py.take_digits (ds ++ t) = ds.
Proof.
  intros Hd Ht. induction ds as [|c ds IH]; cbn [String.append].
  - destruct t as [|c t]; [reflexivity|]. cbn [Py.take_digits]. now rewrite Ht.
  - cbn [Py.all_digits] in Hd. apply andb_true_iff in Hd as [Hc Hd].
    cbn [Py.take_digits]. rewrite Hc. now rewrite IH.
Qed.

Lemma lstrip_spaces (ws t : string) :
  Py.lstrip ws = "" ->
  match t with EmptyString => True | String c _ => Py.isspace c = false end ->
  Py.lstrip (ws ++ t) = t.
Proof.
  intros Hw Ht. induction ws as [|c ws IH]; cbn [String.append].
  - destruct t as [|c t]; [reflexivity|]. cbn [Py.lstrip]. now rewrite Ht.
  - cbn [Py.lstrip] in *. destruct (Py.isspace c); [now apply IH | discriminate].
Qed.

Lemma search_number_cons (unit_ok : string -> bool) (c : ascii) (s : string) :
  search_number unit_ok (String c s)
  = if Py.isdigit c then
      if unit_ok (Py.lstrip (Py.drop (String.length (Py.take_digits (String c s)))
                               (String c s)))
      then Some (Py.take_digits (String c s))
      else search_number unit_ok s
    else search_number unit_ok s.
Proof. reflexivity. Qed.

Lemma search_number_sound (unit_ok : string -> bool) (s : string) : forall ds,
  search_number unit_ok s = Some ds ->
  ds <> "" /\ Py.all_digits ds = true /\
  (String.length ds <= String.length s)%nat /\
  exists pre post, s = pre ++ ds ++ post /\ unit_ok (Py.lstrip post) = true.
Proof.
  induction s as [|c s IH]; intros ds H; [discriminate|].
  assert (Hskip : search_number unit_ok s = Some ds ->
            ds <> "" /\ Py.all_digits ds = true /\
            (String.length ds <= String.length (String c s))%nat /\
            exists pre post, String c s = pre ++ ds ++ post /\
                             unit_ok (Py.lstrip post) = true).
  { intros H'. destruct (IH ds H') as (H1 & H2 & H3 & pre & post & E & U).
    repeat split; [exact H1 | exact H2 | cbn [String.length]; lia|].
    exists (String c pre), post. rewrite E. auto. }
  rewrite search_number_cons in H.
  destruct (Py.isdigit c) eqn:D; [|now apply Hskip].
  pose proof (take_digits_drop (String c s)) as Hsplit.
  pose proof (take_digits_all (String c s)) as Hall.
  assert (Hne : Py.take_digits (String c s) <> "").
  { cbn [Py.take_digits]. rewrite D. discriminate. }
  remember (Py.take_digits (String c s)) as ds0 eqn:Eds.
  destruct (unit_ok _) eqn:U; [|now apply Hskip].
  injection H as <-.
  repeat split; [exact Hne | exact Hall | |].
  - assert (L := f_equal String.length Hsplit).
    rewrite string_length_app in L. lia.
  - exists "", (Py.drop (String.length ds0) (String c s)).
    split; [exact Hsplit | exact U].
Qed.

Lemma search_number_none (unit_ok : string -> bool) (s : string) :
  Py.only_digits s = "" -> search_number unit_ok s = None.
Proof.
  induction s as [|c s IH]; [reflexivity|].
  cbn [Py.only_digits search_number]. destruct (Py.isdigit c); [discriminate | exact IH].
Qed.

Lemma search_number_leading (unit_ok : string -> bool) (ds ws t : string) :
  ds <> "" -> Py.all_digits ds = true -> Py.lstrip ws = "" ->
  match t with
  | EmptyString => False
  | String c _ => Py.isspace c = false /\ Py.isdigit c = false
  end ->
  unit_ok t = true ->
  search_number unit_ok (ds ++ ws ++ t) = Some ds.
Proof.
  intros Hne Hd Hw Ht Hu.
  assert (Hstop : match ws ++ t with
                  | EmptyString => True
                  | String c _ => Py.isdigit c = false
                  end).
  { destruct ws as [|w ws]; cbn [String.append].
    - destruct t; [exact I | apply Ht].
    - cbn [Py.lstrip] in Hw. destruct (Py.isspace w) eqn:E; [|discriminate].
      now apply space_not_digit. }
  assert (Htake : Py.take_digits (ds ++ ws ++ t) = ds)
    by now apply take_digits_stop.
  destruct ds as [|d ds]; [congruence|].
  assert (Hd0 : Py.isdigit d = true).
  { cbn [Py.all_digits] in Hd. now apply andb_true_iff in Hd as [Hd0 _]. }
  change (String d ds ++ ws ++ t) with (String d (ds ++ ws ++ t)) in *.
  rewrite search_number_cons, Hd0, Htake.
  change (String d (ds ++ ws ++ t)) with (String d ds ++ (ws ++ t)).
  rewrite drop_append.
  rewrite lstrip_spaces; [now rewrite Hu | exact Hw|].
  destruct t; [exact I | apply Ht].
Qed.

Lemma int_of_match_value (ds : string) :
  (String.length ds <= 4300)%nat ->
  int_of_match (Some ds) = inr (Some (Py.digits_value 0 ds)).
Proof.
  intros L. unfold int_of_match, int_of_digits, INT_MAX_STR_DIGITS.
  destruct (Nat.ltb_spec 4300 (String.length ds)); [lia | reflexivity].
Qed.

Lemma strip_length (s : string) : (String.length (Py.strip s) <= String.length s)%nat.
Proof.
  destruct (strip_split s) as (p & q & E). rewrite E at 2.
  rewrite !string_length_app. lia.
Qed.

Lemma sq_unit_head (t : string) :
  sq_meters_unit t = true ->
  match t with
  | EmptyString => False
  | String c _ => Py.isspace c = false /\ Py.isdigit c = false
  end.
Proof.
  destruct t as [|c t]; [discriminate|].
  unfold sq_meters_unit. cbn [Py.lower String.prefix].
  destruct (ascii_dec "m" (Py.lower_char c)) as [E|]; [|discriminate]. intros _.
  revert E. destruct c as [[] [] [] [] [] [] [] []]; vm_compute; intros E;
    first [discriminate E | split; reflexivity].
Qed.

Lemma rooms_unit_head (t : string) :
  rooms_unit t = true ->
  match t with
  | EmptyString => False
  | String c _ => Py.isspace c = false /\ Py.isdigit c = false
  end.
Proof.
  destruct t as [|c t]; [discriminate|].
  unfold rooms_unit. cbn [existsb Py.lower String.prefix].
  intros H.
  assert (E : Py.lower_char c = "h"%char \/ Py.lower_char c = "d"%char \/
              Py.lower_char c = "b"%char \/ Py.lower_char c = "r"%char).
  { repeat match type of H with
           | (_ || _) = true => apply orb_true_iff in H as [H|H]
           | false = true => discriminate H
           end;
    match type of H with
    | (if ascii_dec ?a ?x then _ else _) = true =>
        destruct (ascii_dec a x) as [E|]; [|discriminate H]
    end; rewrite <- E; auto. }
  clear H. revert E. destruct c as [[] [] [] [] [] [] [] []]; vm_compute;
    intros [E|[E|[E|E]]]; first [discriminate E | split; reflexivity].
Qed.

Section OneParser.
Variable unit_ok : string -> bool.
Variable parse : string -> unit + option Z.
Hypothesis parse_def : forall s,
  parse s = if negb (Py.truthy s) then inr None
            else int_of_match (search_number unit_ok (Py.strip s)).
Hypothesis unit_head : forall t,
  unit_ok t = true ->
  match t with
  | EmptyString => False
  | String c _ => Py.isspace c = false /\ Py.isdigit c = false
  end.

Lemma parser_sound (s : string) (n : Z) :
  parse s = inr (Some n) ->
  0 <= n /\
  exists pre ds post,
    Py.strip s = pre ++ ds ++ post /\ ds <> "" /\ Py.all_digits ds = true /\
    n = Py.digits_value 0 ds /\ unit_ok (Py.lstrip post) = true.
Proof.
  rewrite parse_def. destruct (negb (Py.truthy s)); [discriminate|].
  destruct (search_number unit_ok (Py.strip s)) as [ds|] eqn:S; [|discriminate].
  destruct (search_number_sound _ _ _ S) as (H1 & H2 & H3 & pre & post & E & U).
  unfold int_of_match. destruct (int_of_digits ds) as [v|] eqn:V; [|discriminate].
  intros [= <-]. unfold int_of_digits in V.
  destruct (_ <? _)%nat; [discriminate|]. injection V as <-.
  split; [apply digits_value_nonneg; [lia | exact H2]|].
  exists pre, ds, post. auto.
Qed.

Lemma parser_no_digit (s : string) : Py.only_digits s = "" -> parse s = inr None.
Proof.
  intros H. rewrite parse_def. destruct (negb (Py.truthy s)); [reflexivity|].
  rewrite search_number_none; [reflexivity|]. now rewrite only_digits_strip.
Qed.

Lemma parser_total (s : string) : (String.length s <= 4300)%nat -> parse s <> inl tt.
Proof.
  intros L. rewrite parse_def. destruct (negb (Py.truthy s)); [discriminate|].
  destruct (search_number unit_ok (Py.strip s)) as [ds|] eqn:S; [|discriminate].
  destruct (search_number_sound _ _ _ S) as (_ & _ & H3 & _).
  rewrite int_of_match_value; [discriminate|].
  pose proof (strip_length s). lia.
Qed.

Lemma parser_leading (s ds ws t : string) :
  Py.strip s = ds ++ ws ++ t ->
  ds <> "" -> Py.all_digits ds = true -> (String.length ds <= 4300)%nat ->
  Py.lstrip ws = "" -> unit_ok t = true ->
  parse s = inr (Some (Py.digits_value 0 ds)).
Proof.
  intros E Hne Hd L Hw Hu. rewrite parse_def.
  assert (T : Py.truthy s = true).
  { apply strip_nil_of_nil. rewrite E. destruct ds; [congruence | reflexivity]. }
  rewrite T. cbn [negb]. rewrite E.
  rewrite (search_number_leading unit_ok ds ws t Hne Hd Hw (unit_head t Hu) Hu).
  now apply int_of_match_value.
Qed.

End OneParser.

Lemma parsers_total (s : string) :
  (String.length s <= 4300)%nat ->
  _parse_rooms s <> inl tt /\ _parse_sq_meters s <> inl tt.
Proof.
  intros L. split;
    [now apply (parser_total rooms_unit) | now apply (parser_total sq_meters_unit)].
Qed.

(** X20. A room count or an area parsed from a text is a number of that
    text: it is the value of a run of digits that the stripped text
    holds, followed, after optional whitespace, by the unit ([hab],
    [dormitorio], [bed] or [room] for rooms, [m] for square metres, in
    any letter case); it is never negative.  A text without a digit
    yields nothing, and a text of at most 4300 characters never raises. *)
Theorem parsed_number_sound (s : string) :
  (forall n, _parse_rooms s = inr (Some n) ->
     0 <= n /\
     exists pre ds post,
       Py.strip s = pre ++ ds ++ post /\ ds <> "" /\ Py.all_digits ds = true /\
       n = Py.digits_value 0 ds /\ rooms_unit (Py.lstrip post) = true) /\
  (forall n, _parse_sq_meters s = inr (Some n) ->
     0 <= n /\
     exists pre ds post,
       Py.strip s = pre ++ ds ++ post /\ ds <> "" /\ Py.all_digits ds = true /\
       n = Py.digits_value 0 ds /\ sq_meters_unit (Py.lstrip post) = true) /\
  (Py.only_digits s = "" ->
     _parse_rooms s = inr None /\ _parse_sq_meters s = inr None) /\
  ((String.length s <= 4300)%nat ->
     _parse_rooms s <> inl tt /\ _parse_sq_meters s <> inl tt).
Proof.
  split; [|split; [|split]].
  - intros n. now apply (parser_sound rooms_unit _parse_rooms).
  - intros n. now apply (parser_sound sq_meters_unit _parse_sq_meters).
  - intros H. split;
      [now apply (parser_no_digit rooms_unit) | now apply (parser_no_digit sq_meters_unit)].
  - apply parsers_total.
Qed.

Lemma parsed_number_sound_witness :
  0 <= 85 /\
  exists pre ds post,
    Py.strip " 3 hab. 85 m2 " = pre ++ ds ++ post /\ ds <> "" /\
    Py.all_digits ds = true /\
    85 = Py.digits_value 0 ds /\ sq_meters_unit (Py.lstrip post) = true.
Proof.
  apply (proj1 (proj2 (parsed_number_sound " 3 hab. 85 m2 "))). reflexivity.
Defined.

(** X21. A text that, once stripped, starts with a number followed by
    optional whitespace and the unit is parsed to that number: the first
    number wins, whatever follows the unit. *)
Theorem leading_number_parsed (s ds ws t : string) :
  Py.strip s = ds ++ ws ++ t ->
  ds <> "" -> Py.all_digits ds = true -> (String.length ds <= 4300)%nat ->
  Py.lstrip ws = "" ->
  (rooms_unit t = true -> _parse_rooms s = inr (Some (Py.digits_value 0 ds))) /\
  (sq_meters_unit t = true -> _parse_sq_meters s = inr (Some (Py.digits_value 0 ds))).
Proof.
  intros E Hne Hd L Hw. split; intros Hu.
  - apply (parser_leading rooms_unit _parse_rooms (fun _ => eq_refl) rooms_unit_head
             s ds ws t); assumption.
  - apply (parser_leading sq_meters_unit _parse_sq_meters (fun _ => eq_refl) sq_unit_head
             s ds ws t); assumption.
Qed.

Lemma leading_number_parsed_witness :
  _parse_rooms "5 Habitaciones" = inr (Some 5) /\
  _parse_sq_meters "111 m construidos, 84 m utiles" = inr (Some 111).
Proof.
  split.
  - apply (proj1 (leading_number_parsed "5 Habitaciones" "5" " " "Habitaciones"
                    eq_refl ltac:(discriminate) eq_refl ltac:(cbn; lia) eq_refl)).
    reflexivity.
  - apply (proj2 (leading_number_parsed "111 m construidos, 84 m utiles" "111" " "
                    "m construidos, 84 m utiles"
                    eq_refl ltac:(discriminate) eq_refl ltac:(cbn; lia) eq_refl)).
    reflexivity.
Defined.

Lemma extract_from_spec (texts : list string) : forall rooms sq_m,
  (forall s, In s texts -> (String.length s <= 4300)%nat) ->
  extract_from texts rooms sq_m
  = inr (match rooms with
         | Some v => Some v
         | None => first_some (fun s => found (_parse_rooms s)) texts
         end,
         match sq_m with
         | Some v => Some v
         | None => first_some (fun s => found (_parse_sq_meters s)) texts
         end).
Proof.
  induction texts as [|s texts IH]; intros rooms sq_m Hlen.
  - cbn. destruct rooms, sq_m; reflexivity.
  - assert (Hs : (String.length s <= 4300)%nat) by (apply Hlen; now left).
    assert (Hrest : forall x, In x texts -> (String.length x <= 4300)%nat)
      by (intros x Hx; apply Hlen; now right).
    destruct (parsers_total s Hs) as [Hr Hq].
    cbn [extract_from first_some].
    destruct (negb (Py.truthy s)) eqn:T.
    + rewrite IH by exact Hrest.
      assert (s = "") as ->.
      { apply negb_true_iff in T. unfold Py.truthy in T.
        apply negb_false_iff in T. now apply String.eqb_eq in T. }
      reflexivity.
    + destruct rooms as [r|], sq_m as [q|].
      * now rewrite IH.
      * destruct (_parse_sq_meters s) as [[]|[q|]]; [congruence|..];
          now rewrite IH.
      * destruct (_parse_rooms s) as [[]|[r|]]; [congruence|..];
          now rewrite IH.
      * destruct (_parse_rooms s) as [[]|[r|]]; [congruence|..];
          (destruct (_parse_sq_meters s) as [[]|[q|]]; [congruence|..]);
          now rewrite IH.
Qed.

(** X22. [_extract_details_rooms_m2] takes, for the rooms and for the
    area independently, the first value found along the detail texts: a
    later text never replaces a value, and the two values may come from
    different texts.  (Texts of at most 4300 characters; the conversion
    of a longer number raises.) *)
Theorem extract_details_first_wins (detail_texts : list string) :
  (forall s, In s detail_texts -> (String.length s <= 4300)%nat) ->
  _extract_details_rooms_m2 detail_texts
  = inr (first_some (fun s => found (_parse_rooms s)) detail_texts,
         first_some (fun s => found (_parse_sq_meters s)) detail_texts).
Proof.
  intros H. unfold _extract_details_rooms_m2. now rewrite extract_from_spec.
Qed.

Lemma extract_details_first_wins_witness :
  _extract_details_rooms_m2 ["Planta 2"; "3 hab."; "80 m2"; "5 hab. 90 m2"]
  = inr (Some 3, Some 80).
Proof.
  rewrite extract_details_first_wins; [reflexivity|].
  intros s [<-|[<-|[<-|[<-|[]]]]]; cbn; lia.
Defined.

End NumberFacts.
